(** * Capability Matrix Management: core ingestion, numbering, comparison,
    bulk-delete ledger and export, embedded in Rocq.

    Strings are Rocq [string]s whose characters stand for the code units
    U+0000..U+00FF (Latin-1 block). JavaScript's [trim] and [toLowerCase]
    and SQLite's [TRIM] and [LOWER] are written out on that block. *)

From Stdlib Require Import String Ascii List ZArith QArith Qround Qabs Lia Bool.
From Stdlib Require Import Zwf Permutation Sorted.
Import ListNotations.

Local Open Scope Z_scope.

Infix "+++" := String.append (at level 60, right associativity).

(* ------------------------------------------------------------------ *)
(** ** Character classes and string primitives *)

Module Str.

Definition code (c : ascii) : nat := nat_of_ascii c.

(** ECMAScript WhiteSpace and LineTerminator code points in U+0000..U+00FF:
    TAB, LF, VT, FF, CR, SPACE, NBSP. *)
Definition is_js_ws (c : ascii) : bool :=
  match code c with
  | 9%nat | 10%nat | 11%nat | 12%nat | 13%nat | 32%nat | 160%nat => true
  | _ => false
  end.

(** SQLite's one-argument [TRIM(x)] removes only U+0020. *)
Definition is_sql_space (c : ascii) : bool := Nat.eqb (code c) 32.

Fixpoint trim_start_by (p : ascii -> bool) (s : string) : string :=
  match s with
  | EmptyString => EmptyString
  | String c r => if p c then trim_start_by p r else s
  end.

Fixpoint trim_end_by (p : ascii -> bool) (s : string) : string :=
  match s with
  | EmptyString => EmptyString
  | String c r =>
      let r' := trim_end_by p r in
      if String.eqb r' EmptyString && p c then EmptyString else String c r'
  end.

Definition trim_by (p : ascii -> bool) (s : string) : string :=
  trim_end_by p (trim_start_by p s).

(** [String.prototype.trim] *)
Definition js_trim (s : string) : string := trim_by is_js_ws s.

(** SQLite [TRIM(x)] *)
Definition sql_trim (s : string) : string := trim_by is_sql_space s.

(** [String.prototype.toLowerCase] on U+0000..U+00FF: A-Z and the Latin-1
    capitals U+00C0..U+00DE except U+00D7 map 32 code points up. *)
Definition js_lower_char (c : ascii) : ascii :=
  let n := code c in
  if ((65 <=? n) && (n <=? 90))%nat
     || ((192 <=? n) && (n <=? 222) && negb (Nat.eqb n 215))%nat
  then ascii_of_nat (n + 32) else c.

(** SQLite's built-in [LOWER(x)] folds ASCII letters only. *)
Definition sql_lower_char (c : ascii) : ascii :=
  let n := code c in
  if ((65 <=? n) && (n <=? 90))%nat then ascii_of_nat (n + 32) else c.

Fixpoint map_chars (f : ascii -> ascii) (s : string) : string :=
  match s with
  | EmptyString => EmptyString
  | String c r => String (f c) (map_chars f r)
  end.

Definition js_to_lower (s : string) : string := map_chars js_lower_char s.
Definition sql_lower (s : string) : string := map_chars sql_lower_char s.

End Str.

(* ------------------------------------------------------------------ *)
(** ** Data model (types/matrix.ts) *)

(** [Score = 0 | 1 | 2 | 3 | null]; the number is kept as a [Z]. *)
Definition Score := option Z.

Record CapabilityMatrixRow := {
  row_id : string;
  row_matrixId : string;
  row_requirementNumber : string;
  row_requirements : string;
  row_experienceAndCapability : Score;
  row_pastPerformance : string;
  row_comments : string;
  row_rowOrder : Z
}.

Record CapabilityMatrixWithRows := {
  m_id : string;
  m_name : string;
  m_isImported : bool;
  m_sourceFile : option string;
  m_parentMatrixId : option string;
  m_createdAt : string;
  m_updatedAt : string;
  m_rows : list CapabilityMatrixRow
}.

(* ------------------------------------------------------------------ *)
(** ** JavaScript [Map] with insertion order, as an association list *)

Module JsMap.

Definition t (V : Type) := list (string * V).

Fixpoint get {V} (k : string) (m : t V) : option V :=
  match m with
  | [] => None
  | (k', v) :: r => if String.eqb k k' then Some v else get k r
  end.

(** [Map.prototype.set]: an existing key keeps its position. *)
Fixpoint set_existing {V} (k : string) (v : V) (m : t V) : t V :=
  match m with
  | [] => []
  | (k', v') :: r =>
      if String.eqb k k' then (k', v) :: r else (k', v') :: set_existing k v r
  end.

Definition set {V} (k : string) (v : V) (m : t V) : t V :=
  match get k m with
  | Some _ => set_existing k v m
  | None => m ++ [(k, v)]
  end.

Definition values {V} (m : t V) : list V := map snd m.

End JsMap.

(* ------------------------------------------------------------------ *)
(** ** [Array.prototype.sort] for a consistent comparator

    For a comparator that is consistent on the array, ECMAScript fixes the
    result of [sort]: the stable sorted permutation. Stable insertion sort
    computes it; [gt x y] is "comparator(x, y) > 0". *)

Module JsSort.
Section Sort.
Context {A : Type} (gt : A -> A -> bool).

Fixpoint insert (x : A) (l : list A) : list A :=
  match l with
  | [] => [x]
  | y :: ys => if gt y x then x :: y :: ys else y :: insert x ys
  end.

Definition sort (l : list A) : list A :=
  fold_left (fun acc x => insert x acc) l [].

End Sort.
End JsSort.

(** [[...new Set(xs)]]: the distinct elements in first-occurrence order. *)
Fixpoint dedup_seen (seen l : list string) : list string :=
  match l with
  | [] => []
  | x :: r =>
      if existsb (String.eqb x) seen then dedup_seen seen r
      else x :: dedup_seen (x :: seen) r
  end.

Definition dedup_first (l : list string) : list string := dedup_seen [] l.

(* ------------------------------------------------------------------ *)
(** ** Comparison aggregator (lib/comparison.ts) *)

Module Comparison.

Record ComparisonCellData := {
  cell_score : Score;
  cell_pastPerformance : string;
  cell_comments : string;
  cell_rowId : string
}.

Record ComparisonRow := {
  cr_requirement : string;
  cr_normalizedRequirement : string;
  cr_cells : JsMap.t ComparisonCellData
}.

Record ComparisonData := {
  cd_rows : list ComparisonRow;
  cd_matrices : list (string * string)
}.

Definition normalizeRequirement (text : string) : string :=
  Str.js_to_lower (Str.js_trim text).

Definition cell_of_row (row : CapabilityMatrixRow) : ComparisonCellData :=
  {| cell_score := row_experienceAndCapability row;
     cell_pastPerformance := row_pastPerformance row;
     cell_comments := row_comments row;
     cell_rowId := row_id row |}.

(** The loop state: [requirementMap], [orderMap] and the counter [order]. *)
Record BuildState := {
  bs_requirementMap : JsMap.t ComparisonRow;
  bs_orderMap : JsMap.t Z;
  bs_order : Z
}.

(** Body of the inner [for (const row of matrix.rows)] loop. *)
Definition visit_row (matrixId : string) (st : BuildState)
    (row : CapabilityMatrixRow) : BuildState :=
  let normalizedReq := normalizeRequirement (row_requirements row) in
  if String.eqb normalizedReq EmptyString then st else
  let '(compRow, rmap, omap, order) :=
    match JsMap.get normalizedReq (bs_requirementMap st) with
    | Some compRow => (compRow, bs_requirementMap st, bs_orderMap st, bs_order st)
    | None =>
        let compRow := {| cr_requirement := Str.js_trim (row_requirements row);
                          cr_normalizedRequirement := normalizedReq;
                          cr_cells := [] |} in
        (compRow, JsMap.set normalizedReq compRow (bs_requirementMap st),
         JsMap.set normalizedReq (bs_order st) (bs_orderMap st),
         bs_order st + 1)
    end in
  (* [compRow.cells.set(matrix.id, ...)] mutates the object held by the map *)
  let compRow' := {| cr_requirement := cr_requirement compRow;
                     cr_normalizedRequirement := cr_normalizedRequirement compRow;
                     cr_cells := JsMap.set matrixId (cell_of_row row) (cr_cells compRow) |} in
  {| bs_requirementMap := JsMap.set normalizedReq compRow' rmap;
     bs_orderMap := omap;
     bs_order := order |}.

Definition visit_matrix (st : BuildState) (matrix : CapabilityMatrixWithRows)
    : BuildState :=
  fold_left (visit_row (m_id matrix)) (m_rows matrix) st.

Definition order_of (omap : JsMap.t Z) (r : ComparisonRow) : Z :=
  match JsMap.get (cr_normalizedRequirement r) omap with
  | Some o => o
  | None => 0
  end.

Definition buildComparisonData (matrices : list CapabilityMatrixWithRows)
    : ComparisonData :=
  let st := fold_left visit_matrix matrices
              {| bs_requirementMap := []; bs_orderMap := []; bs_order := 0 |} in
  let omap := bs_orderMap st in
  let rows := JsSort.sort
                (fun a b => 0 <? order_of omap a - order_of omap b)
                (JsMap.values (bs_requirementMap st)) in
  {| cd_rows := rows;
     cd_matrices := map (fun m => (m_id m, m_name m)) matrices |}.

End Comparison.

(* ------------------------------------------------------------------ *)
(** ** JavaScript numbers

    A finite double is kept as the rational it denotes; [round_double] is
    IEEE-754 binary64 round-to-nearest-even with overflow to infinity,
    which is how ECMAScript turns a mathematical value into a Number. The
    sign of zero is not tracked: no operation used below observes it. *)

Module JsNum.

Inductive number := NFin (q : Q) | NNaN | NInf | NNegInf.

Definition Qlt_bool (a b : Q) : bool := negb (Qle_bool b a).

(** [floor (log2 (n / d))] for [n, d > 0] *)
Definition flog2 (n d : Z) : Z :=
  let k := Z.log2 n - Z.log2 d in
  if 0 <=? k then (if d * 2 ^ k <=? n then k else k - 1)
  else (if d <=? n * 2 ^ (- k) then k else k - 1).

(** [num / den] rounded to the nearest integer, ties to even *)
Definition rhe (num den : Z) : Z :=
  let q := num / den in
  let r := num mod den in
  if 2 * r <? den then q
  else if den <? 2 * r then q + 1
  else if Z.even q then q else q + 1.

(** [m * 2 ^ e], in lowest terms *)
Definition dyadic (m e : Z) : Q :=
  Qred (if 0 <=? e then inject_Z (m * 2 ^ e) else Qmake m (Z.to_pos (2 ^ (- e)))).

(** Rounding of the positive rational [n / d]. *)
Definition round_pos (n d : Z) : number :=
  let e := Z.max (flog2 n d - 52) (-1074) in
  let m := if 0 <=? e then rhe n (d * 2 ^ e) else rhe (n * 2 ^ (- e)) d in
  if (if 0 <=? e then 2 ^ 1024 <=? m * 2 ^ e else 2 ^ (1024 - e) <=? m)
  then NInf else NFin (dyadic m e).

Definition neg (x : number) : number :=
  match x with
  | NFin q => NFin (- q)%Q
  | NNaN => NNaN
  | NInf => NNegInf
  | NNegInf => NInf
  end.

Definition round_double (q : Q) : number :=
  let n := Qnum q in
  let d := Zpos (Qden q) in
  if 0 <? n then round_pos n d
  else if n <? 0 then neg (round_pos (- n) d)
  else NFin 0.

Definition of_Z (z : Z) : number := round_double (inject_Z z).

(** [x + y] *)
Definition add (x y : number) : number :=
  match x, y with
  | NFin a, NFin b => round_double (a + b)%Q
  | NNaN, _ | _, NNaN => NNaN
  | NInf, NNegInf | NNegInf, NInf => NNaN
  | NInf, _ | _, NInf => NInf
  | NNegInf, _ | _, NNegInf => NNegInf
  end.

(** [x - y] *)
Definition sub (x y : number) : number := add x (neg y).

(** Three-way comparison; [None] when either side is NaN. *)
Definition cmp3 (x y : number) : option comparison :=
  match x, y with
  | NNaN, _ | _, NNaN => None
  | NFin a, NFin b => Some (Qcompare a b)
  | NInf, NInf | NNegInf, NNegInf => Some Eq
  | NInf, _ | _, NNegInf => Some Gt
  | NNegInf, _ | _, NInf => Some Lt
  end.

(** [===] on numbers *)
Definition strict_eq (x y : number) : bool :=
  match cmp3 x y with Some Eq => true | _ => false end.

Definition lt (x y : number) : bool :=
  match cmp3 x y with Some Lt => true | _ => false end.
Definition le (x y : number) : bool :=
  match cmp3 x y with Some Lt | Some Eq => true | _ => false end.

Definition is_nan (x : number) : bool :=
  match x with NNaN => true | _ => false end.

(** [Math.round]: the integer closest to [x], ties towards +infinity. *)
Definition math_round (x : number) : number :=
  match x with
  | NFin q => NFin (inject_Z (Qfloor (q + (1 # 2))%Q))
  | _ => x
  end.

(** *** Decimal digits *)

Definition digit_char (d : Z) : ascii := ascii_of_nat (48 + Z.to_nat d).

Definition digit_val (c : ascii) : option Z :=
  let n := nat_of_ascii c in
  if ((48 <=? n) && (n <=? 57))%nat then Some (Z.of_nat n - 48) else None.

Fixpoint dec_aux (fuel : nat) (n : Z) (acc : string) : string :=
  match fuel with
  | O => acc
  | S f =>
      let acc' := String (digit_char (n mod 10)) acc in
      if n <? 10 then acc' else dec_aux f (n / 10) acc'
  end.

(** Decimal representation of a non-negative integer. *)
Definition decimal (n : Z) : string := dec_aux (S (Z.to_nat (Z.log2 n))) n EmptyString.

Fixpoint zeros (k : nat) : string :=
  match k with O => EmptyString | S k' => String "0"%char (zeros k') end.

(** The [n] with [10 ^ (n - 1) <= q < 10 ^ n], for [q > 0]. *)
Fixpoint small_exp (fuel : nat) (q : Q) (t : Z) : Z :=
  match fuel with
  | O => 1 - t
  | S f => if Qle_bool 1 (q * inject_Z (10 ^ t))%Q then 1 - t else small_exp f q (t + 1)
  end.

Definition dec_exp (q : Q) : Z :=
  let f := Qfloor q in
  if 1 <=? f then Z.of_nat (String.length (decimal f)) else small_exp 1100 q 1.

(** [10 ^ j] as a rational, for any integer [j] *)
Definition pow10Q (j : Z) : Q :=
  if 0 <=? j then inject_Z (10 ^ j) else Qmake 1 (Z.to_pos (10 ^ (- j))).

(** *** Number::toString (ECMA-262 6.1.6.1.20) *)

(** Candidates [(s, n)] for [k] significant digits: [s] in
    [[10^(k-1), 10^k)], [round_double (s * 10^(n-k)) = m]. *)
Definition candidates (m : Q) (k : Z) : list (Z * Z) :=
  let n0 := dec_exp m in
  let one n :=
    let sc := (m / pow10Q (n - k))%Q in
    let fl := Qfloor sc in
    filter (fun '(s, _) =>
              (10 ^ (k - 1) <=? s) && (s <? 10 ^ k) &&
              match round_double (inject_Z s * pow10Q (n - k))%Q with
              | NFin v => Qeq_bool v m
              | _ => false
              end)
           [(fl, n); (fl + 1, n)] in
  one n0 ++ one (n0 + 1).

(** Among candidates, the one closest to [m]; on a tie, the even [s]. *)
Definition closer (m : Q) (k : Z) (a b : Z * Z) : Z * Z :=
  let da := Qabs (inject_Z (fst a) * pow10Q (snd a - k) - m)%Q in
  let db := Qabs (inject_Z (fst b) * pow10Q (snd b - k) - m)%Q in
  if Qlt_bool db da then b
  else if Qlt_bool da db then a
  else if Z.even (fst a) then a else b.

Fixpoint choose_digits (fuel : nat) (m : Q) (k : Z) : option (Z * Z * Z) :=
  match fuel with
  | O => None
  | S f =>
      match candidates m k with
      | [] => choose_digits f m (k + 1)
      | c :: cs => let '(s, n) := fold_left (closer m k) cs c in Some (s, k, n)
      end
  end.

Definition format_digits (s k n : Z) : string :=
  let ds := decimal s in
  if (k <=? n) && (n <=? 21) then ds +++ zeros (Z.to_nat (n - k))
  else if (0 <? n) && (n <=? 21) then
    substring 0 (Z.to_nat n) ds +++ "." +++ substring (Z.to_nat n) (Z.to_nat k) ds
  else if (-6 <? n) && (n <=? 0) then "0." +++ zeros (Z.to_nat (- n)) +++ ds
  else
    let e := n - 1 in
    let es := (if 0 <=? e then "+" else "-") +++ decimal (Z.abs e) in
    if k =? 1 then ds +++ "e" +++ es
    else substring 0 1 ds +++ "." +++ substring 1 (Z.to_nat k) ds +++ "e" +++ es.

Definition pos_to_string (m : Q) : string :=
  match choose_digits 17 m 1 with
  | Some (s, k, n) => format_digits s k n
  | None => EmptyString
  end.

Definition toString (x : number) : string :=
  match x with
  | NNaN => "NaN"
  | NInf => "Infinity"
  | NNegInf => "-Infinity"
  | NFin q =>
      if Qeq_bool q 0 then "0"
      else if Qlt_bool q 0 then "-" +++ pos_to_string (- q)%Q
      else pos_to_string q
  end.

(** *** [parseInt(string, 10)] (ECMA-262 19.2.5) *)

Fixpoint digits_prefix (s : string) : list Z :=
  match s with
  | EmptyString => []
  | String c r =>
      match digit_val c with Some d => d :: digits_prefix r | None => [] end
  end.

Definition digits_value (ds : list Z) : Z := fold_left (fun acc d => acc * 10 + d) ds 0.

(** An optional leading sign. *)
Definition split_sign (s : string) : Z * string :=
  match s with
  | String "-"%char r => (-1, r)
  | String "+"%char r => (1, r)
  | _ => (1, s)
  end.

Definition parseInt10 (input : string) : number :=
  let s := Str.trim_start_by Str.is_js_ws input in
  let '(sign, s) := split_sign s in
  match digits_prefix s with
  | [] => NNaN
  | ds => of_Z (sign * digits_value ds)
  end.

End JsNum.

(* ------------------------------------------------------------------ *)
(** ** Sorting by an integer key

    [ORDER BY row_order ASC]: SQLite leaves the order of equal keys open;
    when the keys are distinct every sort gives this list. *)

Definition sort_by_key {A} (key : A -> Z) (l : list A) : list A :=
  JsSort.sort (fun a b => key b <? key a) l.

(* ------------------------------------------------------------------ *)
(** ** Expo SQLite store: rows, bulk delete and restore
    (packages/core/src/theme/typography.ts, class ExpoSQLiteDatabase)

    A table is the list of its rows; [INSERT] appends, [DELETE] and
    [UPDATE] act on every row satisfying the [WHERE] clause. A [SELECT]
    returns the matching rows in table order. *)

Module Ledger.

Record MatrixRowDbRow := {
  db_id : string;
  db_matrix_id : string;
  db_requirement_number : string;
  db_requirements : string;
  db_experience_and_capability : option string;
  db_past_performance : string;
  db_comments : string;
  db_row_order : Z
}.

Record MatrixDbRow := {
  mt_id : string;
  mt_name : string;
  mt_is_imported : Z;
  mt_source_file : option string;
  mt_parent_matrix_id : option string;
  mt_created_at : string;
  mt_updated_at : string
}.

Record Store := {
  matrices : list MatrixDbRow;
  matrix_rows : list MatrixRowDbRow
}.

(** [parseScore(value)] for the TEXT column [experience_and_capability]. *)
Definition parseScore (value : option string) : Score :=
  match value with
  | None => None
  | Some s =>
      match JsNum.parseInt10 s with
      | JsNum.NFin q =>
          (* [num >= 0 && num <= 3]; a parseInt result is an integer *)
          if Qle_bool 0 q && Qle_bool q 3 then Some (Qfloor q) else None
      | _ => None
      end
  end.

(** [score?.toString() ?? null], the value bound for the score column. *)
Definition scoreToDb (s : Score) : option string :=
  match s with
  | Some z => Some (JsNum.toString (JsNum.of_Z z))
  | None => None
  end.

Definition mapMatrixRowRow (row : MatrixRowDbRow) : CapabilityMatrixRow :=
  {| row_id := db_id row;
     row_matrixId := db_matrix_id row;
     row_requirementNumber := db_requirement_number row;
     row_requirements := db_requirements row;
     row_experienceAndCapability := parseScore (db_experience_and_capability row);
     row_pastPerformance := db_past_performance row;
     row_comments := db_comments row;
     row_rowOrder := db_row_order row |}.

(** The tuple bound by [INSERT INTO matrix_rows (...) VALUES (...)]. *)
Definition rowToDb (row : CapabilityMatrixRow) : MatrixRowDbRow :=
  {| db_id := row_id row;
     db_matrix_id := row_matrixId row;
     db_requirement_number := row_requirementNumber row;
     db_requirements := row_requirements row;
     db_experience_and_capability := scoreToDb (row_experienceAndCapability row);
     db_past_performance := row_pastPerformance row;
     db_comments := row_comments row;
     db_row_order := row_rowOrder row |}.

(** [UPDATE matrices SET updated_at = ? WHERE id = ?] *)
Definition set_updated_at (now mid : string) (st : Store) : Store :=
  {| matrices :=
       map (fun m => if String.eqb (mt_id m) mid
                     then {| mt_id := mt_id m; mt_name := mt_name m;
                             mt_is_imported := mt_is_imported m;
                             mt_source_file := mt_source_file m;
                             mt_parent_matrix_id := mt_parent_matrix_id m;
                             mt_created_at := mt_created_at m;
                             mt_updated_at := now |}
                     else m) (matrices st);
     matrix_rows := matrix_rows st |}.

(** [for (const matrixId of ids) await db.runAsync('UPDATE matrices ...')] *)
Definition bump_all (now : string) (ids : list string) (st : Store) : Store :=
  fold_left (fun s mid => set_updated_at now mid s) ids st.


(** [WHERE LOWER(TRIM(requirements)) = ?] *)
Definition sql_matches (normalizedReq : string) (row : MatrixRowDbRow) : bool :=
  String.eqb (Str.sql_lower (Str.sql_trim (db_requirements row))) normalizedReq.

Record DeleteResult := {
  deletedCount : Z;
  affectedMatrixIds : list string;
  deletedRows : list CapabilityMatrixRow
}.

(** [deleteRowsByRequirement(requirement)]; [now] is [getCurrentTimestamp()].
    The last component lists the ids whose [updated_at] the call writes. *)
Definition deleteRowsByRequirement (now requirement : string) (st : Store)
    : Store * DeleteResult * list string :=
  let normalizedReq := Str.js_to_lower (Str.js_trim requirement) in
  let rows := filter (sql_matches normalizedReq) (matrix_rows st) in
  match rows with
  | [] => (st, {| deletedCount := 0; affectedMatrixIds := []; deletedRows := [] |}, [])
  | _ =>
      let deleted := map mapMatrixRowRow rows in
      let st1 := {| matrices := matrices st;
                    matrix_rows := filter (fun r => negb (sql_matches normalizedReq r))
                                          (matrix_rows st) |} in
      let affected := dedup_first (map db_matrix_id rows) in
      (bump_all now affected st1,
       {| deletedCount := Z.of_nat (length rows);
          affectedMatrixIds := affected;
          deletedRows := deleted |},
       affected)
  end.

(** [restoreRows(rows)]; the second component lists the ids whose
    [updated_at] the call writes (the [Set] [affectedMatrixIds]). *)
Definition restoreRows (now : string) (rows : list CapabilityMatrixRow) (st : Store)
    : Store * list string :=
  let st1 := fold_left (fun s row =>
               {| matrices := matrices s; matrix_rows := matrix_rows s ++ [rowToDb row] |})
               rows st in
  let affected := dedup_first (map row_matrixId rows) in
  (bump_all now affected st1, affected).

(** [getMatrixRows(matrixId)]:
    [SELECT * FROM matrix_rows WHERE matrix_id = ? ORDER BY row_order ASC] *)
Definition getMatrixRows (matrixId : string) (st : Store) : list CapabilityMatrixRow :=
  map mapMatrixRowRow
      (sort_by_key db_row_order
         (filter (fun r => String.eqb (db_matrix_id r) matrixId) (matrix_rows st))).

End Ledger.

(* ------------------------------------------------------------------ *)
(** ** String helpers: [split('.')], [join('.')], [includes] *)

Module StrOps.

(** [s.split('.')] *)
Fixpoint split_dot (s : string) : list string :=
  match s with
  | EmptyString => [EmptyString]
  | String c r =>
      match split_dot r with
      | [] => [String c EmptyString]
      | seg :: segs =>
          if Ascii.eqb c "."%char then EmptyString :: seg :: segs
          else String c seg :: segs
      end
  end.

(** [parts.join('.')] *)
Fixpoint join_dot (parts : list string) : string :=
  match parts with
  | [] => EmptyString
  | [p] => p
  | p :: ps => p +++ "." +++ join_dot ps
  end.

(** [s.includes(sub)] *)
Fixpoint includes (s sub : string) : bool :=
  String.prefix sub s ||
  match s with
  | EmptyString => false
  | String _ r => includes r sub
  end.

Definition is_digit (c : ascii) : bool :=
  match JsNum.digit_val c with Some _ => true | None => false end.

Fixpoint all_chars (p : ascii -> bool) (s : string) : bool :=
  match s with
  | EmptyString => true
  | String c r => p c && all_chars p r
  end.

(** Number of ['.'] characters. *)
Fixpoint count_dots (s : string) : nat :=
  match s with
  | EmptyString => O
  | String c r => (if Ascii.eqb c "."%char then 1 else 0) + count_dots r
  end.

End StrOps.

(* ------------------------------------------------------------------ *)
(** ** [Number(string)] (StringToNumber, ECMA-262 7.1.4.1.1)

    Only applied to the parts of [s.split('.')], which contain no ['.'];
    the StringNumericLiteral forms without a decimal point are written out:
    empty, [Infinity] with a sign, decimal integers with a sign and an
    exponent, and the [0x], [0o], [0b] forms. The mathematical value is
    rounded correctly (ECMAScript lets an engine round differently beyond
    20 significant digits). *)

Module JsToNumber.
Import JsNum.

Definition hex_val (c : ascii) : option Z :=
  let n := nat_of_ascii c in
  if ((48 <=? n) && (n <=? 57))%nat then Some (Z.of_nat n - 48)
  else if ((97 <=? n) && (n <=? 102))%nat then Some (Z.of_nat n - 87)
  else if ((65 <=? n) && (n <=? 70))%nat then Some (Z.of_nat n - 55)
  else None.

(** All characters are digits of radix [b]; their value, [None] otherwise
    or when empty. *)
Fixpoint radix_digits (b : Z) (s : string) (acc : option Z) : option Z :=
  match s with
  | EmptyString => acc
  | String c r =>
      match hex_val c, acc with
      | Some d, Some a => if d <? b then radix_digits b r (Some (a * b + d)) else None
      | Some d, None => if d <? b then radix_digits b r (Some d) else None
      | None, _ => None
      end
  end.

Definition unsigned_int (s : string) : option Z :=
  match s with EmptyString => None | _ => radix_digits 10 s None end.

(** Split at the first [e] or [E]. *)
Fixpoint split_exp (s : string) : string * option string :=
  match s with
  | EmptyString => (EmptyString, None)
  | String c r =>
      if Ascii.eqb c "e"%char || Ascii.eqb c "E"%char then (EmptyString, Some r)
      else let '(a, b) := split_exp r in (String c a, b)
  end.

Definition signed (s : string) : Z * string := split_sign s.

(** [d * 10 ^ e], rounded; exponents far outside the double range are
    decided without building the power. *)
Definition scaled (d e : Z) : number :=
  if d =? 0 then NFin 0
  else if 400 <? e then NInf
  else if e <? - (400 + Z.of_nat (String.length (JsNum.decimal d))) then NFin 0
  else round_double (inject_Z d * pow10Q e)%Q.

Definition unsigned_decimal (s : string) : option number :=
  if String.eqb s "Infinity" then Some NInf else
  let '(mant, ex) := split_exp s in
  match unsigned_int mant, ex with
  | Some d, None => Some (round_double (inject_Z d))
  | Some d, Some es =>
      let '(esg, eds) := signed es in
      match unsigned_int eds with
      | Some e => Some (scaled d (esg * e))
      | None => None
      end
  | None, _ => None
  end.

Definition prefixed (s : string) : option number :=
  match s with
  | String "0"%char (String c r) =>
      let b := if Ascii.eqb c "x"%char || Ascii.eqb c "X"%char then 16
               else if Ascii.eqb c "o"%char || Ascii.eqb c "O"%char then 8
               else if Ascii.eqb c "b"%char || Ascii.eqb c "B"%char then 2
               else 0 in
      if b =? 0 then None
      else match r with
           | EmptyString => None
           | _ => option_map (fun v => round_double (inject_Z v)) (radix_digits b r None)
           end
  | _ => None
  end.

Definition StringToNumber (str : string) : number :=
  let s := Str.js_trim str in
  if String.eqb s EmptyString then NFin 0 else
  match prefixed s with
  | Some v => v
  | None =>
      let '(sg, body) := signed s in
      match unsigned_decimal body with
      | Some v => if sg =? 1 then v else neg v
      | None => NNaN
      end
  end.

End JsToNumber.

(* ------------------------------------------------------------------ *)
(** ** Hierarchical requirement numbers (lib/requirementNumber.ts) *)

Module ReqNum.
Import JsNum.

(** [isValidRequirementNumber]: empty, or [/^\d+(\.\d+)*$/]: every
    ['.']-separated part is a non-empty run of ASCII digits. *)
Definition is_segment (seg : string) : bool :=
  negb (String.eqb seg EmptyString) && StrOps.all_chars StrOps.is_digit seg.

Definition isValidRequirementNumber (value : string) : bool :=
  String.eqb value EmptyString || forallb is_segment (StrOps.split_dot value).

(** The integer a run of decimal digits denotes. *)
Definition segment_value (seg : string) : Z := digits_value (digits_prefix seg).

(** Segment-wise comparison of integer lists, a missing segment reading
    as [0]: the order "natural numeric comparison segment by segment". *)
Definition seg_cmp (xs ys : list Z) : comparison :=
  fold_right (fun i acc => match Z.compare (nth i xs 0) (nth i ys 0) with
                           | Eq => acc | c => c end)
             Eq (seq 0 (Nat.max (length xs) (length ys))).

(** The integer segments of a requirement number. *)
Definition segments (s : string) : list Z := map segment_value (StrOps.split_dot s).

(** The double [Number(seg)] yields for a digit run of value [n], read as an
    integer; infinity reads as [2 ^ 1024], above every finite double. *)
Definition double_key (n : Z) : Z :=
  match of_Z n with NFin q => Qfloor q | _ => 2 ^ 1024 end.

(** The order on requirement numbers the comparison computes: the empty
    string after every other, two empty strings equal, otherwise the
    segment-wise comparison of the doubles the segments read as. *)
Definition segment_order (a b : string) : comparison :=
  match String.eqb a EmptyString, String.eqb b EmptyString with
  | true, true => Eq
  | true, false => Gt
  | false, true => Lt
  | false, false => seg_cmp (map double_key (segments a)) (map double_key (segments b))
  end.

(** [getDepth] *)
Definition getDepth (reqNum : string) : nat :=
  if String.eqb reqNum EmptyString then O else StrOps.count_dots reqNum.

(** The loop of [compareRequirementNumbers]: index [i] runs to the longer
    length, a missing part reads as [0] ([aParts[i] ?? 0]), and the first
    pair that is not [===] returns [aVal - bVal]. *)
Fixpoint first_diff (pairs : list (number * number)) : number :=
  match pairs with
  | [] => NFin 0
  | (aVal, bVal) :: r => if negb (strict_eq aVal bVal) then sub aVal bVal else first_diff r
  end.

Definition compare_parts (aParts bParts : list number) : number :=
  first_diff (map (fun i => (nth i aParts (NFin 0), nth i bParts (NFin 0)))
                  (seq 0 (Nat.max (length aParts) (length bParts)))).

Definition compareRequirementNumbers (a b : string) : number :=
  if String.eqb a EmptyString && String.eqb b EmptyString then NFin 0
  else if String.eqb a EmptyString then NFin 1
  else if String.eqb b EmptyString then NFin (-1)
  else compare_parts (map JsToNumber.StringToNumber (StrOps.split_dot a))
                     (map JsToNumber.StringToNumber (StrOps.split_dot b)).

(** [outdentNumber] *)
Definition outdentNumber (current : string) : string :=
  if String.eqb current EmptyString then "1" else
  let parts := StrOps.split_dot current in
  if (length parts <=? 1)%nat then current else
  let parts := removelast parts in
  let lastPart := parseInt10 (last parts EmptyString) in
  StrOps.join_dot (removelast parts ++ [toString (add lastPart (NFin 1))]).

End ReqNum.

(* ------------------------------------------------------------------ *)
(** ** Spreadsheet ingestion (excel/importer.ts, over the XLSX sheet object) *)

Module Importer.
Import JsNum.

(** A JavaScript value as [cell.v] or [unknown] can hold it; a [Date]
    carries the text its [toString()] yields. *)
Inductive JsValue :=
  | JUndefined | JNull | JBool (b : bool) | JNum (n : number) | JStr (s : string)
  | JDate (text : string).

Definition value_toString (v : JsValue) : string :=
  match v with
  | JUndefined => "undefined"
  | JNull => "null"
  | JBool true => "true"
  | JBool false => "false"
  | JNum n => toString n
  | JStr s => s
  | JDate t => t
  end.

(** [XLSX.CellObject]: raw value [v] and formatted text [w]. *)
Record CellObject := { v : JsValue; w : option string }.

(** A decoded [!ref] range (0-based); [None] stands for a missing or empty
    [!ref], which the code replaces by ['A1']. *)
Record Range := { s_r : Z; s_c : Z; e_r : Z; e_c : Z }.

Record WorkSheet := {
  ref : option Range;
  cells : list ((Z * Z) * CellObject)
}.

(** [XLSX.utils.decode_range(sheet['!ref'] || 'A1')] *)
Definition decode_range (sheet : WorkSheet) : Range :=
  match ref sheet with
  | Some rg => rg
  | None => {| s_r := 0; s_c := 0; e_r := 0; e_c := 0 |}
  end.

(** [sheet[XLSX.utils.encode_cell({ r, c })]] *)
Fixpoint lookup_cell (r c : Z) (cs : list ((Z * Z) * CellObject)) : option CellObject :=
  match cs with
  | [] => None
  | ((r', c'), cell) :: rest => if (r =? r') && (c =? c') then Some cell else lookup_cell r c rest
  end.

Definition cell_at (sheet : WorkSheet) (r c : Z) : option CellObject :=
  lookup_cell r c (cells sheet).

(** [getCellString] *)
Definition getCellString (cell : option CellObject) : string :=
  match cell with
  | None => ""
  | Some cell =>
      match v cell with
      | JUndefined | JNull => ""
      | val =>
          match w cell with
          | Some wtext => Str.js_trim wtext
          | None => Str.js_trim (value_toString val)
          end
      end
  end.

(** [validateScore] *)
Definition validateScore (value : JsValue) : Score :=
  match value with
  | JNull | JUndefined => None
  | JStr s =>
      if String.eqb s "" then None else
      let trimmed := Str.js_trim s in
      if String.eqb trimmed "" then None else
      let num := parseInt10 trimmed in
      if negb (is_nan num) && le (NFin 0) num && le num (NFin 3)
      then match num with NFin q => Some (Qfloor q) | _ => None end
      else None
  | JNum n =>
      let rounded := math_round n in
      if le (NFin 0) rounded && le rounded (NFin 3)
      then match rounded with NFin q => Some (Qfloor q) | _ => None end
      else None
  | _ => None
  end.

(** [[a, a + 1, ..., a + n - 1]] *)
Fixpoint seqZ (a : Z) (n : nat) : list Z :=
  match n with O => [] | S n' => a :: seqZ (a + 1) n' end.

(** [for (let i = lo; i <= hi; i++)] *)
Definition upto (lo hi : Z) : list Z := seqZ lo (Z.to_nat (hi - lo + 1)).

Record HeaderInfo := {
  hi_row : Z;
  hasReqNumberColumn : bool;
  reqNumberCol : Z;
  requirementsCol : Z;
  scoreCol : Z;
  pastPerfCol : Z;
  commentsCol : Z
}.

Definition is_req_number_header (value : string) : bool :=
  StrOps.includes value "req #" || StrOps.includes value "req#" ||
  String.eqb value "requirement number" || String.eqb value "req number".

Definition is_requirements_header (value : string) : bool :=
  StrOps.includes value "requirement" && negb (StrOps.includes value "#").

(** The column scan of one row: [(foundReqNumber, foundRequirements)]. *)
Definition scan_header_row (sheet : WorkSheet) (rg : Range) (row : Z) : Z * Z :=
  fold_left (fun '(fReq, fText) col =>
               let value := Str.js_to_lower (getCellString (cell_at sheet row col)) in
               if is_req_number_header value then (col, fText)
               else if is_requirements_header value then (fReq, col)
               else (fReq, fText))
            (upto (s_c rg) (e_c rg)) (-1, -1).

Definition header_of (row fReq fText : Z) : HeaderInfo :=
  if 0 <=? fReq then
    {| hi_row := row; hasReqNumberColumn := true; reqNumberCol := fReq;
       requirementsCol := fText; scoreCol := fText + 1;
       pastPerfCol := fText + 2; commentsCol := fText + 3 |}
  else
    {| hi_row := row; hasReqNumberColumn := false; reqNumberCol := -1;
       requirementsCol := fText; scoreCol := fText + 1;
       pastPerfCol := fText + 2; commentsCol := fText + 3 |}.

Definition default_header : HeaderInfo :=
  {| hi_row := 0; hasReqNumberColumn := false; reqNumberCol := -1;
     requirementsCol := 0; scoreCol := 1; pastPerfCol := 2; commentsCol := 3 |}.

Fixpoint first_header (sheet : WorkSheet) (rg : Range) (rows : list Z) : HeaderInfo :=
  match rows with
  | [] => default_header
  | row :: rest =>
      let '(fReq, fText) := scan_header_row sheet rg row in
      if 0 <=? fText then header_of row fReq fText else first_header sheet rg rest
  end.

(** [findHeaderInfo]: rows [0 .. min(e.r, 29)], first row with a
    requirements-text header wins. *)
Definition findHeaderInfo (sheet : WorkSheet) : HeaderInfo :=
  let rg := decode_range sheet in
  first_header sheet rg (upto 0 (Z.min (e_r rg) 29)).

(** [filename.replace(/\.(xlsx?|xls)$/i, '')] *)
Definition strip_excel_ext (filename : string) : string :=
  let n := String.length filename in
  let low := Str.js_to_lower filename in
  if ((5 <=? n)%nat && String.eqb (substring (n - 5) 5 low) ".xlsx")
  then substring 0 (n - 5) filename
  else if ((4 <=? n)%nat && String.eqb (substring (n - 4) 4 low) ".xls")
  then substring 0 (n - 4) filename
  else filename.

(** [extractCompanyName] *)
Definition extractCompanyName (sheet : WorkSheet) (filename : string)
    (sheetName : option string) : string :=
  let rg := decode_range sheet in
  let found :=
    fold_left (fun acc row =>
      match acc with
      | Some _ => acc
      | None =>
          fold_left (fun acc col =>
            match acc with
            | Some _ => acc
            | None =>
                let value := Str.js_to_lower (getCellString (cell_at sheet row col)) in
                if StrOps.includes value "company name" || String.eqb value "company" then
                  let companyName := getCellString (cell_at sheet row (col + 1)) in
                  if String.eqb companyName "" then None else Some companyName
                else None
            end) (upto (s_c rg) (Z.min (e_c rg) 3)) None
      end) (upto 0 (Z.min (e_r rg) 19)) None in
  match found with
  | Some name => name
  | None =>
      let baseName := strip_excel_ext filename in
      match sheetName with
      | Some sn =>
          if negb (String.eqb sn "") && negb (String.eqb sn "Sheet1")
          then baseName +++ " - " +++ sn else baseName
      | None => baseName
      end
  end.

Record ParsedRow := {
  pr_requirementNumber : string;
  pr_requirements : string;
  pr_experienceAndCapability : Score;
  pr_pastPerformance : string;
  pr_comments : string
}.

Record ParsedMatrix := {
  pm_name : string;
  pm_sourceFile : string;
  pm_sheetName : option string;
  pm_rows : list ParsedRow
}.

(** Body of the data-row loop of [parseWorksheet]; the state is
    [(rows, autoNumber)]. *)
Definition visit_data_row (sheet : WorkSheet) (h : HeaderInfo)
    (acc : list ParsedRow * number) (row : Z) : list ParsedRow * number :=
  let '(rows, autoNumber) := acc in
  let requirements := getCellString (cell_at sheet row (requirementsCol h)) in
  if String.eqb requirements "" then acc else
  let requirementNumber :=
    if hasReqNumberColumn h && (0 <=? reqNumberCol h)
    then getCellString (cell_at sheet row (reqNumberCol h)) else ""%string in
  let '(requirementNumber, autoNumber) :=
    if String.eqb requirementNumber ""
    then (toString autoNumber, add autoNumber (NFin 1))
    else (requirementNumber, autoNumber) in
  let scoreValue := match cell_at sheet row (scoreCol h) with
                    | Some c => v c | None => JUndefined end in
  let experienceAndCapability := validateScore scoreValue in
  let pastPerformance := getCellString (cell_at sheet row (pastPerfCol h)) in
  let comments := getCellString (cell_at sheet row (commentsCol h)) in
  (rows ++ [{| pr_requirementNumber := requirementNumber;
               pr_requirements := requirements;
               pr_experienceAndCapability := experienceAndCapability;
               pr_pastPerformance := pastPerformance;
               pr_comments := comments |}], autoNumber).

(** The data rows [parseWorksheet] collects. *)
Definition worksheet_rows (sheet : WorkSheet) : list ParsedRow :=
  let rg := decode_range sheet in
  let h := findHeaderInfo sheet in
  fst (fold_left (visit_data_row sheet h) (upto (hi_row h + 1) (e_r rg)) ([], NFin 1)).

(** [parseWorksheet] *)
Definition parseWorksheet (sheet : WorkSheet) (filename : string)
    (sheetName : option string) : option ParsedMatrix :=
  let name := extractCompanyName sheet filename sheetName in
  match worksheet_rows sheet with
  | [] => None
  | rows => Some {| pm_name := name; pm_sourceFile := filename;
                    pm_sheetName := sheetName; pm_rows := rows |}
  end.

(** A thrown value: an [Error] with its message, or anything else. *)
Inductive Exn := ExnError (message : string) | ExnOther.

Definition exn_message (e : Exn) : string :=
  match e with ExnError m => m | ExnOther => "Unknown error" end.

Record WorkBook := {
  SheetNames : list string;
  Sheets : list (string * WorkSheet)
}.

Fixpoint lookup_sheet (name : string) (ss : list (string * WorkSheet)) : option WorkSheet :=
  match ss with
  | [] => None
  | (n, sh) :: r => if String.eqb name n then Some sh else lookup_sheet name r
  end.

(** [parseWorksheet(workbook.Sheets[sheetName], ...)]: an absent sheet is
    [undefined], and reading its ['!ref'] throws a [TypeError]. *)
Definition parse_sheet (sheet : option WorkSheet) (filename : string)
    (sheetName : option string) : Exn + option ParsedMatrix :=
  match sheet with
  | None => inl (ExnError "Cannot read properties of undefined (reading '!ref')")
  | Some sh => inr (parseWorksheet sh filename sheetName)
  end.

(** The one-character string holding a double quote. *)
Definition dquote : string := String (ascii_of_nat 34) EmptyString.

(** The message pushed when parsing sheet [sheetName] throws [e]. *)
Definition sheet_error (filename sheetName : string) (e : Exn) : string :=
  "Error parsing sheet " +++ dquote +++ sheetName +++ dquote +++ " in "
  +++ filename +++ ": " +++ exn_message e.

Record ParseResult := { matrices : list ParsedMatrix; errors : list string }.

Section ParseFile.
(** [XLSX.read(data, { type: 'array' })], which may throw. *)
Variable Data : Type.
Variable read : Data -> Exn + WorkBook.
(** The per-sheet parser [parseWorksheet], taken as a parameter so that any
    exception it may throw is covered. *)
Variable parse : option WorkSheet -> string -> option string -> Exn + option ParsedMatrix.

(** [parseWorksheet(workbook.Sheets[sheetName], filename,
    workbook.SheetNames.length > 1 ? sheetName : undefined)] *)
Definition sheet_outcome (filename : string) (wb : WorkBook) (sheetName : string)
    : Exn + option ParsedMatrix :=
  parse (lookup_sheet sheetName (Sheets wb)) filename
        (if (1 <? length (SheetNames wb))%nat then Some sheetName else None).

Definition visit_sheet (filename : string) (wb : WorkBook)
    (acc : list ParsedMatrix * list string) (sheetName : string)
    : list ParsedMatrix * list string :=
  let '(ms, errs) := acc in
  match sheet_outcome filename wb sheetName with
  | inr (Some parsed) => (ms ++ [parsed], errs)
  | inr None => (ms, errs)
  | inl e => (ms, errs ++ [sheet_error filename sheetName e])
  end.

Definition parseExcelFile_with (data : Data) (filename : string) : ParseResult :=
  match read data with
  | inl e =>
      {| matrices := []; errors := ["Failed to parse " +++ filename +++ ": " +++ exn_message e] |}
  | inr wb =>
      let '(ms, errs) := fold_left (visit_sheet filename wb) (SheetNames wb) ([], []) in
      if (length ms =? 0)%nat && (length errs =? 0)%nat
      then {| matrices := ms; errors := errs ++ ["No valid data found in " +++ filename] |}
      else {| matrices := ms; errors := errs |}
  end.
End ParseFile.

(** [parseExcelFile(data, filename)] *)
Definition parseExcelFile {Data} (read : Data -> Exn + WorkBook) :=
  parseExcelFile_with Data read parse_sheet.

End Importer.

(* ------------------------------------------------------------------ *)
(** ** Spreadsheet export (src/lib/excel/exporter.ts)

    The worksheet is the list of cell-value writes in program order (a later
    write to a cell replaces an earlier one) and the list of
    conditional-formatting blocks; fills, fonts, borders and alignments of
    individual cells are not modelled. *)

Module Exporter.
Import JsNum.

Inductive XValue := XStr (s : string) | XNum (z : Z).

Record CFRule := {
  cf_type : string;
  cf_operator : string;
  cf_formulae : list string;
  cf_fill_argb : string;
  cf_font_argb : string;
  cf_priority : Z
}.

Record CondFormat := { cf_ref : string; cf_rules : list CFRule }.

Record Sheet := {
  sh_name : string;
  sh_values : list ((Z * Z) * XValue);
  sh_condfmt : list CondFormat
}.

Record ExportMetadata := { companyName : string; date : string; version : string }.

(** [SCORE_CONFIG[s].color] and [.description] *)
Definition score_color (s : Z) : string :=
  match s with 3 => "#4472C4" | 2 => "#70AD47" | 1 => "#FFC000" | _ => "#E5E5E5" end.

Definition score_description (s : Z) : string :=
  match s with
  | 3 => "Excellent capability - significant experience and past performance inputs; applicable to NITE SOW"
  | 2 => "Good capability - significant experience and past performance inputs; applicable to NITE SOW and executed on other than Training programs but on related platforms"
  | 1 => "Some capability - minor or scattered experience"
  | _ => "No capability"
  end.

(** [hexToArgb] *)
Fixpoint drop_first_hash (s : string) : string :=
  match s with
  | EmptyString => EmptyString
  | String c r => if Ascii.eqb c "#"%char then r else String c (drop_first_hash r)
  end.

Definition hexToArgb (hex : string) : string := "FF" +++ drop_first_hash hex.

Definition preamble (metadata : ExportMetadata) : list ((Z * Z) * XValue) :=
  [((1, 1), XStr "Draft PWS - Capability Matrix")] ++
  concat (map (fun '(i, s) => [((i + 1, 4), XNum s); ((i + 1, 5), XStr (score_description s))])
              [(0, 3); (1, 2); (2, 1); (3, 0)]) ++
  [((5, 1), XStr "Company Name"); ((5, 3), XStr (companyName metadata));
   ((6, 1), XStr "Date"); ((6, 3), XStr (date metadata));
   ((7, 1), XStr "Version"); ((7, 3), XStr (version metadata));
   ((9, 1), XStr "Req #"); ((9, 2), XStr "Requirements");
   ((9, 3), XStr "Experience and Capability"); ((9, 4), XStr "Past Performance");
   ((9, 5), XStr "Comments")].

(** The five cells written for [sortedRows[i]] in spreadsheet row [10 + i]. *)
Definition data_row (r : Z) (matrixRow : CapabilityMatrixRow) : list ((Z * Z) * XValue) :=
  [((r, 1), XStr (row_requirementNumber matrixRow));
   ((r, 2), XStr (row_requirements matrixRow));
   ((r, 3), match row_experienceAndCapability matrixRow with
            | Some s => XNum s
            | None => XStr ""
            end);
   ((r, 4), XStr (row_pastPerformance matrixRow));
   ((r, 5), XStr (row_comments matrixRow))].

Fixpoint data_rows (r : Z) (rows : list CapabilityMatrixRow) : list ((Z * Z) * XValue) :=
  match rows with
  | [] => []
  | x :: xs => data_row r x ++ data_rows (r + 1) xs
  end.

Definition cf_rule (s : Z) (font : string) (priority : Z) : CFRule :=
  {| cf_type := "cellIs"; cf_operator := "equal"; cf_formulae := [decimal s];
     cf_fill_argb := hexToArgb (score_color s); cf_font_argb := font;
     cf_priority := priority |}.

Definition score_rules : list CFRule :=
  [cf_rule 3 "FFFFFFFF" 1; cf_rule 2 "FFFFFFFF" 2;
   cf_rule 1 "FF000000" 3; cf_rule 0 "FF000000" 4].

(** [(a, b) => compareRequirementNumbers(a.requirementNumber, b.requirementNumber)],
    as the "greater than" test [sort] uses. *)
Definition row_gt (a b : CapabilityMatrixRow) : bool :=
  lt (NFin 0) (ReqNum.compareRequirementNumbers (row_requirementNumber a)
                                                 (row_requirementNumber b)).

(** [exportMatrixToExcel] *)
Definition exportMatrixToExcel (matrix : CapabilityMatrixWithRows)
    (metadata : ExportMetadata) : Sheet :=
  let sortedRows := JsSort.sort row_gt (m_rows matrix) in
  let n := Z.of_nat (length sortedRows) in
  let lastDataRow := add (of_Z (10 + n)) (NFin (-1)) in
  {| sh_name := "Capability Matrix";
     sh_values := preamble metadata ++ data_rows 10 sortedRows;
     sh_condfmt :=
       if 0 <? n
       then [{| cf_ref := "C10:C" +++ toString lastDataRow; cf_rules := score_rules |}]
       else [] |}.

End Exporter.

(* ------------------------------------------------------------------ *)
(** ** The other helpers of lib/requirementNumber.ts *)

Module ReqNumOps.
Import JsNum ReqNum.

(** [suggestNextNumber]: [parts[parts.length - 1] = String(lastPart + 1)]. *)
Definition suggestNextNumber (previousNumber : string) : string :=
  if String.eqb previousNumber EmptyString then "1" else
  let parts := StrOps.split_dot previousNumber in
  let lastPart := parseInt10 (last parts EmptyString) in
  StrOps.join_dot (removelast parts ++ [toString (add lastPart (NFin 1))]).

(** [indentNumber] *)
Definition indentNumber (previousNumber : string) : string :=
  if String.eqb previousNumber EmptyString then "1" else previousNumber +++ ".1".

(** [getParentNumber]: [parts.slice(0, -1).join('.')]. *)
Definition getParentNumber (reqNum : string) : string :=
  if String.eqb reqNum EmptyString then "" else
  let parts := StrOps.split_dot reqNum in
  if (length parts <=? 1)%nat then "" else StrOps.join_dot (removelast parts).

(** [isChildOf]: [child.startsWith(parent + '.')]. *)
Definition isChildOf (child parent : string) : bool :=
  if String.eqb child EmptyString || String.eqb parent EmptyString then false
  else String.prefix (parent +++ ".") child.

(** [parseSegments]: [reqNum.split('.').map(Number)]. *)
Definition parseSegments (reqNum : string) : list number :=
  if String.eqb reqNum EmptyString || negb (isValidRequirementNumber reqNum) then []
  else map JsToNumber.StringToNumber (StrOps.split_dot reqNum).

End ReqNumOps.

(* ------------------------------------------------------------------ *)
(** ** The delete-confirmation and tooltip helpers of lib/comparison.ts *)

Module ComparisonOps.
Import Comparison.

Record CompanyWithData := {
  cw_matrixId : string;
  cw_matrixName : string;
  cw_score : Score;
  cw_hasComments : bool;
  cw_hasPastPerformance : bool
}.

Record RequirementDeleteInfo := {
  rdi_requirement : string;
  rdi_companiesWithData : list CompanyWithData
}.

(** [s.trim() !== ""] *)
Definition not_blank (s : string) : bool := negb (String.eqb (Str.js_trim s) "").

(** [hasData]: [cell.score !== null || cell.pastPerformance.trim() !== "" ||
    cell.comments.trim() !== ""]. *)
Definition has_data (cell : ComparisonCellData) : bool :=
  match cell_score cell with Some _ => true | None => false end
  || not_blank (cell_pastPerformance cell) || not_blank (cell_comments cell).

(** Body of [for (const matrix of comparisonData.matrices)]. *)
Definition visit_company (row : ComparisonRow) (acc : list CompanyWithData)
    (matrix : string * string) : list CompanyWithData :=
  let '(mid, mname) := matrix in
  match JsMap.get mid (cr_cells row) with
  | Some cell =>
      if has_data cell
      then acc ++ [{| cw_matrixId := mid; cw_matrixName := mname;
                      cw_score := cell_score cell;
                      cw_hasComments := not_blank (cell_comments cell);
                      cw_hasPastPerformance := not_blank (cell_pastPerformance cell) |}]
      else acc
  | None => acc
  end.

(** [getRequirementDeleteInfo] *)
Definition getRequirementDeleteInfo (comparisonData : ComparisonData) (requirement : string)
    : RequirementDeleteInfo :=
  let normalizedReq := normalizeRequirement requirement in
  let row := find (fun r => String.eqb (cr_normalizedRequirement r) normalizedReq)
                  (cd_rows comparisonData) in
  let companiesWithData :=
    match row with
    | Some row => fold_left (visit_company row) (cd_matrices comparisonData) []
    | None => []
    end in
  {| rdi_requirement := requirement; rdi_companiesWithData := companiesWithData |}.

(** [cellHasTooltipContent] *)
Definition cellHasTooltipContent (cell : option ComparisonCellData) : bool :=
  match cell with
  | None => false
  | Some cell => not_blank (cell_pastPerformance cell) || not_blank (cell_comments cell)
  end.

End ComparisonOps.

(* ------------------------------------------------------------------ *)
(** ** The other operations of the Expo SQLite store
    (packages/core/src/theme/typography.ts, class ExpoSQLiteDatabase)

    [generateId(...)] and [getCurrentTimestamp()] are arguments. An
    [INSERT] whose [id] is already in the table violates the [PRIMARY KEY]
    and rejects the call's promise: the result is [None]. SQLite does not
    enforce the [FOREIGN KEY] clauses unless asked to, so they check nothing. *)

Module LedgerOps.
Import Ledger.

Record CapabilityMatrix := {
  cm_id : string;
  cm_name : string;
  cm_isImported : bool;
  cm_sourceFile : option string;
  cm_parentMatrixId : option string;
  cm_createdAt : string;
  cm_updatedAt : string
}.

(** [mapMatrixRow] *)
Definition mapMatrixRow (row : MatrixDbRow) : CapabilityMatrix :=
  {| cm_id := mt_id row;
     cm_name := mt_name row;
     cm_isImported := Z.eqb (mt_is_imported row) 1;
     cm_sourceFile := mt_source_file row;
     cm_parentMatrixId := mt_parent_matrix_id row;
     cm_createdAt := mt_created_at row;
     cm_updatedAt := mt_updated_at row |}.

(** [getMatrixById]: [getFirstAsync('SELECT * FROM matrices WHERE id = ?')]. *)
Definition getMatrixById (id : string) (st : Store) : option CapabilityMatrix :=
  option_map mapMatrixRow (find (fun m => String.eqb (mt_id m) id) (matrices st)).

(** [CreateMatrixInput]; an absent optional field and [null] read alike
    through [??] and the truth test. *)
Record CreateMatrixInput := {
  cmi_name : string;
  cmi_isImported : option bool;
  cmi_sourceFile : option string;
  cmi_parentMatrixId : option string
}.

Definition isImported_of (input : CreateMatrixInput) : bool :=
  match cmi_isImported input with Some b => b | None => false end.

(** [createMatrix(input)] with [id = generateId('matrix')] and [now]. *)
Definition createMatrix (id now : string) (input : CreateMatrixInput) (st : Store)
    : option (Store * CapabilityMatrix) :=
  if existsb (fun m => String.eqb (mt_id m) id) (matrices st) then None else
  let row := {| mt_id := id; mt_name := cmi_name input;
                mt_is_imported := if isImported_of input then 1 else 0;
                mt_source_file := cmi_sourceFile input;
                mt_parent_matrix_id := cmi_parentMatrixId input;
                mt_created_at := now; mt_updated_at := now |} in
  Some ({| matrices := matrices st ++ [row]; matrix_rows := matrix_rows st |},
        {| cm_id := id; cm_name := cmi_name input;
           cm_isImported := isImported_of input;
           cm_sourceFile := cmi_sourceFile input;
           cm_parentMatrixId := cmi_parentMatrixId input;
           cm_createdAt := now; cm_updatedAt := now |}).

(** [updateMatrixName]: [UPDATE matrices SET name = ?, updated_at = ? WHERE id = ?]. *)
Definition updateMatrixName (now id name : string) (st : Store) : Store :=
  {| matrices :=
       map (fun m => if String.eqb (mt_id m) id
                     then {| mt_id := mt_id m; mt_name := name;
                             mt_is_imported := mt_is_imported m;
                             mt_source_file := mt_source_file m;
                             mt_parent_matrix_id := mt_parent_matrix_id m;
                             mt_created_at := mt_created_at m;
                             mt_updated_at := now |}
                     else m) (matrices st);
     matrix_rows := matrix_rows st |}.

(** [deleteMatrix]: the rows first, then the matrix. *)
Definition deleteMatrix (id : string) (st : Store) : Store :=
  let st1 := {| matrices := matrices st;
                matrix_rows := filter (fun r => negb (String.eqb (db_matrix_id r) id))
                                      (matrix_rows st) |} in
  {| matrices := filter (fun m => negb (String.eqb (mt_id m) id)) (matrices st1);
     matrix_rows := matrix_rows st1 |}.

Record MatrixCounts := { total : Z; user : Z; imported : Z }.

(** [countMatrices]: the three row counts of [matrices]. *)
Definition countMatrices (st : Store) : MatrixCounts :=
  {| total := Z.of_nat (length (matrices st));
     user := Z.of_nat (length (filter (fun m => Z.eqb (mt_is_imported m) 0) (matrices st)));
     imported := Z.of_nat (length (filter (fun m => Z.eqb (mt_is_imported m) 1) (matrices st))) |}.

(** [CreateMatrixRowInput]; the code also reads [input.requirementNumber]. A
    score left out and a [null] score both store and return [null]. *)
Record CreateMatrixRowInput := {
  cri_matrixId : string;
  cri_requirementNumber : option string;
  cri_requirements : option string;
  cri_experienceAndCapability : Score;
  cri_pastPerformance : option string;
  cri_comments : option string;
  cri_rowOrder : option Z
}.

(** [SELECT MAX(row_order) as max_order FROM matrix_rows WHERE matrix_id = ?] *)
Definition max_order (matrixId : string) (st : Store) : option Z :=
  fold_left (fun acc r =>
               if String.eqb (db_matrix_id r) matrixId
               then match acc with
                    | None => Some (db_row_order r)
                    | Some m => Some (Z.max m (db_row_order r))
                    end
               else acc) (matrix_rows st) None.

Definition updateMatrixTimestamp (now matrixId : string) (st : Store) : Store :=
  set_updated_at now matrixId st.

Definition str_default (v : option string) : string :=
  match v with Some s => s | None => EmptyString end.

(** [createMatrixRow(input)] with [id = generateId('row')]; [now] is the
    timestamp taken by [updateMatrixTimestamp]. *)
Definition createMatrixRow (id now : string) (input : CreateMatrixRowInput) (st : Store)
    : option (Store * CapabilityMatrixRow) :=
  let rowOrder :=
    match cri_rowOrder input with
    | Some o => o
    | None => match max_order (cri_matrixId input) st with Some m => m | None => -1 end + 1
    end in
  let row := {| row_id := id;
                row_matrixId := cri_matrixId input;
                row_requirementNumber := str_default (cri_requirementNumber input);
                row_requirements := str_default (cri_requirements input);
                row_experienceAndCapability := cri_experienceAndCapability input;
                row_pastPerformance := str_default (cri_pastPerformance input);
                row_comments := str_default (cri_comments input);
                row_rowOrder := rowOrder |} in
  if existsb (fun r => String.eqb (db_id r) id) (matrix_rows st) then None else
  let st1 := {| matrices := matrices st; matrix_rows := matrix_rows st ++ [rowToDb row] |} in
  Some (updateMatrixTimestamp now (cri_matrixId input) st1, row).

(** [UpdateMatrixRowInput]: [None] is a field left [undefined]; a score
    field [Some None] is an explicit [null]. *)
Record UpdateMatrixRowInput := {
  uri_requirementNumber : option string;
  uri_requirements : option string;
  uri_experienceAndCapability : option Score;
  uri_pastPerformance : option string;
  uri_comments : option string;
  uri_rowOrder : option Z
}.

Definition is_some {A} (o : option A) : bool := match o with Some _ => true | None => false end.

(** [updates.length === 0] is [has_updates input = false]. *)
Definition has_updates (input : UpdateMatrixRowInput) : bool :=
  is_some (uri_requirementNumber input) || is_some (uri_requirements input)
  || is_some (uri_experienceAndCapability input) || is_some (uri_pastPerformance input)
  || is_some (uri_comments input) || is_some (uri_rowOrder input).

(** The [SET] list built from the provided fields. *)
Definition apply_update (input : UpdateMatrixRowInput) (r : MatrixRowDbRow) : MatrixRowDbRow :=
  {| db_id := db_id r;
     db_matrix_id := db_matrix_id r;
     db_requirement_number :=
       match uri_requirementNumber input with Some v => v | None => db_requirement_number r end;
     db_requirements := match uri_requirements input with Some v => v | None => db_requirements r end;
     db_experience_and_capability :=
       match uri_experienceAndCapability input with
       | Some s => scoreToDb s
       | None => db_experience_and_capability r
       end;
     db_past_performance :=
       match uri_pastPerformance input with Some v => v | None => db_past_performance r end;
     db_comments := match uri_comments input with Some v => v | None => db_comments r end;
     db_row_order := match uri_rowOrder input with Some v => v | None => db_row_order r end |}.

(** [updateMatrixRow(id, input)] *)
Definition updateMatrixRow (now id : string) (input : UpdateMatrixRowInput) (st : Store) : Store :=
  if negb (has_updates input) then st else
  let st1 := {| matrices := matrices st;
                matrix_rows := map (fun r => if String.eqb (db_id r) id then apply_update input r else r)
                                   (matrix_rows st) |} in
  match find (fun r => String.eqb (db_id r) id) (matrix_rows st1) with
  | Some r => updateMatrixTimestamp now (db_matrix_id r) st1
  | None => st1
  end.

(** [deleteMatrixRow(id)]: the [matrix_id] is read before the [DELETE]. *)
Definition deleteMatrixRow (now id : string) (st : Store) : Store :=
  let row := find (fun r => String.eqb (db_id r) id) (matrix_rows st) in
  let st1 := {| matrices := matrices st;
                matrix_rows := filter (fun r => negb (String.eqb (db_id r) id)) (matrix_rows st) |} in
  match row with
  | Some r => updateMatrixTimestamp now (db_matrix_id r) st1
  | None => st1
  end.

(** [createEmptyRows(matrixId, count)] for an integer [count]: the [i]-th call
    [createMatrixRow({ matrixId, rowOrder: i })] uses the id [ids i] and the
    timestamp [clock i]; a rejected call rejects the whole loop. *)
Definition empty_row_input (matrixId : string) (i : Z) : CreateMatrixRowInput :=
  {| cri_matrixId := matrixId; cri_requirementNumber := None; cri_requirements := None;
     cri_experienceAndCapability := None; cri_pastPerformance := None; cri_comments := None;
     cri_rowOrder := Some i |}.

Definition createEmptyRows (ids clock : nat -> string) (matrixId : string) (count : Z) (st : Store)
    : option (Store * list CapabilityMatrixRow) :=
  fold_left (fun acc i =>
               match acc with
               | None => None
               | Some (s, rows) =>
                   match createMatrixRow (ids i) (clock i) (empty_row_input matrixId (Z.of_nat i)) s with
                   | Some (s', row) => Some (s', rows ++ [row])
                   | None => None
                   end
               end) (seq 0 (Z.to_nat count)) (Some (st, [])).

(** The [app_settings] table ([key TEXT PRIMARY KEY], [value TEXT]) in table order. *)
Definition Settings := list (string * option string).

(** [getSetting]: [result?.value ?? null]. *)
Definition getSetting (key : string) (s : Settings) : option string :=
  match find (fun kv => String.eqb (fst kv) key) s with
  | Some kv => snd kv
  | None => None
  end.

(** [setSetting]: [INSERT ... ON CONFLICT(key) DO UPDATE SET value = ?]. *)
Definition setSetting (key : string) (value : option string) (s : Settings) : Settings :=
  if existsb (fun kv => String.eqb (fst kv) key) s
  then map (fun kv => if String.eqb (fst kv) key then (fst kv, value) else kv) s
  else s ++ [(key, value)].

Definition getActiveMatrixId (s : Settings) : option string := getSetting "activeMatrixId" s.

Definition setActiveMatrixId (id : option string) (s : Settings) : Settings :=
  setSetting "activeMatrixId" id s.

Inductive Theme := light | dark.

Definition theme_string (t : Theme) : string :=
  match t with light => "light" | dark => "dark" end.

(** [getTheme]: [value === 'light' || value === 'dark'], else [null]. *)
Definition getTheme (s : Settings) : option Theme :=
  match getSetting "theme" s with
  | Some v => if String.eqb v "light" then Some light
              else if String.eqb v "dark" then Some dark else None
  | None => None
  end.

Definition setTheme (theme : option Theme) (s : Settings) : Settings :=
  setSetting "theme" (option_map theme_string theme) s.

End LedgerOps.

(* ------------------------------------------------------------------ *)
(** ** The other helpers of excel/importer.ts *)

Module ImporterOps.
Import Importer.

(** The class [[/\\]]: a slash or a backslash. *)
Definition is_path_sep (c : ascii) : bool := Ascii.eqb c "/"%char || Ascii.eqb c "\"%char.

(** [s.split(/[/\\]/)] *)
Fixpoint split_path (s : string) : list string :=
  match s with
  | EmptyString => [EmptyString]
  | String c r =>
      match split_path r with
      | [] => [String c EmptyString]
      | seg :: segs =>
          if is_path_sep c then EmptyString :: seg :: segs else String c seg :: segs
      end
  end.

(** [getFilenameFromPath]: [parts[parts.length - 1] || path]. *)
Definition getFilenameFromPath (path : string) : string :=
  let parts := split_path path in
  let lastPart := last parts EmptyString in
  if String.eqb lastPart EmptyString then path else lastPart.

Section ParseFiles.
Variable Data : Type.
Variable read : Data -> Exn + WorkBook.

(** [parseExcelFiles(files)]: each file's matrices and errors pushed in turn. *)
Definition parseExcelFiles (files : list (Data * string)) : ParseResult :=
  let '(allMatrices, allErrors) :=
    fold_left (fun '(ms, errs) (file : Data * string) =>
                 let result := parseExcelFile read (fst file) (snd file) in
                 (ms ++ matrices result, errs ++ errors result)) files ([], []) in
  {| matrices := allMatrices; errors := allErrors |}.
End ParseFiles.

End ImporterOps.

(* ------------------------------------------------------------------ *)
(** ** [generateExportFilename] (excel/exporter.ts) *)

Module ExporterOps.

(** [[a-zA-Z0-9]] *)
Definition is_alnum (c : ascii) : bool :=
  let n := nat_of_ascii c in
  ((48 <=? n) && (n <=? 57))%nat || ((65 <=? n) && (n <=? 90))%nat
  || ((97 <=? n) && (n <=? 122))%nat.

(** [s.replace(/[^a-zA-Z0-9\s-]/g, '')]; [\s] on U+0000..U+00FF is [Str.is_js_ws]. *)
Fixpoint drop_unsafe (s : string) : string :=
  match s with
  | EmptyString => EmptyString
  | String c r =>
      if is_alnum c || Str.is_js_ws c || Ascii.eqb c "-"%char
      then String c (drop_unsafe r) else drop_unsafe r
  end.

(** [s.replace(/\s+/g, '_')]; [in_run] says the previous character was
    white space, already replaced. *)
Fixpoint replace_ws_runs (in_run : bool) (s : string) : string :=
  match s with
  | EmptyString => EmptyString
  | String c r =>
      if Str.is_js_ws c
      then if in_run then replace_ws_runs true r else String "_"%char (replace_ws_runs true r)
      else String c (replace_ws_runs false r)
  end.

(** The company part of the file name: [sanitizedName.replace(/\s+/g, '_')]. *)
Definition export_name (companyName : string) : string :=
  let sanitizedName := Str.js_trim (drop_unsafe companyName) in
  replace_ws_runs false sanitizedName.

(** [generateExportFilename] *)
Definition generateExportFilename (companyName date : string) : string :=
  "Capability_Matrix_" +++ export_name companyName +++ "_" +++ date +++ ".xlsx".

End ExporterOps.

(* ------------------------------------------------------------------ *)
(** ** Derived views used in the statements and proofs below *)

(** The scan of [buildComparisonData] seen as a list of (matrix id, row)
    pairs, and the values its maps hold after the scan. *)
Module ComparisonView.
Import Comparison.

(** The rows in scan order, each with the id of its matrix. *)
Definition scan (ms : list CapabilityMatrixWithRows) : list (string * CapabilityMatrixRow) :=
  flat_map (fun m => map (fun r => (m_id m, r)) (m_rows m)) ms.

Definition row_key (r : CapabilityMatrixRow) : string := normalizeRequirement (row_requirements r).

Definition scan_keys (sc : list (string * CapabilityMatrixRow)) : list string :=
  filter (fun k => negb (String.eqb k EmptyString)) (map (fun q => row_key (snd q)) sc).

Definition first_occurrence (sc : list (string * CapabilityMatrixRow)) (k : string)
    : option (string * CapabilityMatrixRow) :=
  find (fun q => String.eqb (row_key (snd q)) k) sc.

Definition last_cell (sc : list (string * CapabilityMatrixRow)) (k mid : string)
    : option CapabilityMatrixRow :=
  last (map (fun q => Some (snd q))
            (filter (fun q => String.eqb (fst q) mid && String.eqb (row_key (snd q)) k) sc))
       None.

Definition cells_of (sc : list (string * CapabilityMatrixRow)) (k : string)
    : JsMap.t ComparisonCellData :=
  fold_left (fun c q => if String.eqb (row_key (snd q)) k
                        then JsMap.set (fst q) (cell_of_row (snd q)) c else c) sc [].

Definition comp_row (sc : list (string * CapabilityMatrixRow)) (k : string) : ComparisonRow :=
  {| cr_requirement := match first_occurrence sc k with
                       | Some q => Str.js_trim (row_requirements (snd q))
                       | None => EmptyString
                       end;
     cr_normalizedRequirement := k;
     cr_cells := cells_of sc k |}.

Fixpoint number_from (n : Z) (D : list string) : JsMap.t Z :=
  match D with
  | [] => []
  | k :: D' => (k, n) :: number_from (n + 1) D'
  end.


(** The state reached by [buildComparisonData] after scanning [sc]. *)
Definition inv (sc : list (string * CapabilityMatrixRow)) (st : BuildState) : Prop :=
  bs_requirementMap st = map (fun k => (k, comp_row sc k)) (dedup_first (scan_keys sc)) /\
  bs_orderMap st = number_from 0 (dedup_first (scan_keys sc)) /\
  bs_order st = Z.of_nat (length (dedup_first (scan_keys sc))).

(** The display position [number_from] gives a key. *)
Definition ord (n : Z) (D : list string) (k : string) : Z :=
  match JsMap.get k (number_from n D) with Some o => o | None => 0 end.

End ComparisonView.

(** A stored row as the app reads it back, and the effect of the timestamp update. *)
Module LedgerView.
Import Ledger.

Definition norm (r : MatrixRowDbRow) : MatrixRowDbRow := rowToDb (mapMatrixRowRow r).

Definition upd (now : string) (m : MatrixDbRow) : MatrixDbRow :=
  {| mt_id := mt_id m; mt_name := mt_name m; mt_is_imported := mt_is_imported m;
     mt_source_file := mt_source_file m; mt_parent_matrix_id := mt_parent_matrix_id m;
     mt_created_at := mt_created_at m; mt_updated_at := now |}.

End LedgerView.

(** The rows whose requirement number the numbering accepts. *)
Module ExportView.
Import Exporter.

Definition valid_row (r : CapabilityMatrixRow) : Prop :=
  ReqNum.isValidRequirementNumber (row_requirementNumber r) = true.

End ExportView.

(** The first index of [L] at which [X] and [Y] differ, as a comparison. *)
Module ReqNumView.

Definition fc (X Y : nat -> Z) (L : list nat) : comparison :=
  fold_right (fun i acc => match Z.compare (X i) (Y i) with Eq => acc | c => c end) Eq L.

End ReqNumView.

(** Characters other than the underscore. *)
Module ExportNameView.

Definition no_us (c : ascii) : bool := negb (Ascii.eqb c "_"%char).

End ExportNameView.

(** One iteration of the loop of [createEmptyRows], in the option monad. *)
Module EmptyRowsView.
Import Ledger LedgerOps.

Definition step (ids clock : nat -> string) (mid : string) :=
  fun (acc : option (Store * list CapabilityMatrixRow)) (i : nat) =>
    match acc with
    | None => None
    | Some (s, rows) =>
        match createMatrixRow (ids i) (clock i) (empty_row_input mid (Z.of_nat i)) s with
        | Some (s', row) => Some (s', rows ++ [row])
        | None => None
        end
    end.

End EmptyRowsView.

(* ------------------------------------------------------------------ *)
(** ** Properties *)

Module StrFacts.

Lemma append_assoc (a b c : string) : (a +++ b) +++ c = a +++ (b +++ c).
Proof. induction a as [|x a IH]; simpl; [reflexivity|]. rewrite IH. reflexivity. Qed.

Lemma append_empty_r (a : string) : a +++ EmptyString = a.
Proof. induction a as [|x a IH]; simpl; [reflexivity|]. rewrite IH. reflexivity. Qed.

Lemma length_append (a b : string) :
  String.length (a +++ b) = (String.length a + String.length b)%nat.
Proof. induction a as [|x a IH]; simpl; [reflexivity|]. rewrite IH. reflexivity. Qed.

End StrFacts.

Module NumFacts.
Import JsNum.

Lemma Qred_inject_Z (z : Z) : Qred (inject_Z z) = inject_Z z.
Proof.
  unfold Qred, inject_Z; simpl.
  pose proof (Z.ggcd_gcd z 1) as Hg. pose proof (Z.ggcd_correct_divisors z 1) as Hd.
  destruct (Z.ggcd z 1) as [g [aa bb]]; simpl in *.
  rewrite Z.gcd_1_r in Hg; subst g. destruct Hd as [H1 H2].
  rewrite Z.mul_1_l in H1, H2. subst. reflexivity.
Qed.

Lemma flog2_int (w : Z) : 1 <= w -> flog2 w 1 = Z.log2 w.
Proof.
  intros Hw. unfold flog2. change (Z.log2 1) with 0. rewrite Z.sub_0_r.
  pose proof (Z.log2_nonneg w). pose proof (Z.log2_spec w ltac:(lia)) as [Hl _].
  destruct (Z.leb_spec 0 (Z.log2 w)); [|lia].
  destruct (Z.leb_spec (1 * 2 ^ Z.log2 w) w); lia.
Qed.

Lemma rhe_exact (x y : Z) : 0 < y -> rhe (x * y) y = x.
Proof.
  intros Hy. unfold rhe. rewrite Z.div_mul by lia. rewrite Z.mod_mul by lia.
  destruct (Z.ltb_spec (2 * 0) y); lia.
Qed.

Lemma rhe_one (x : Z) : rhe x 1 = x.
Proof. rewrite <- (Z.mul_1_r x) at 1. apply rhe_exact. lia. Qed.

Lemma rhe_ge (x y : Z) : 0 < y -> x / y <= rhe x y.
Proof.
  intros Hy. unfold rhe.
  destruct (_ <? _); [lia|]. destruct (_ <? _); [lia|]. destruct (Z.even _); lia.
Qed.

Lemma round_double_inject_Z (w : Z) :
  round_double (inject_Z w) =
  if 0 <? w then round_pos w 1 else if w <? 0 then neg (round_pos (- w) 1) else NFin 0.
Proof. reflexivity. Qed.

Lemma round_pos_small (w : Z) : 1 <= w <= 2 ^ 53 -> round_pos w 1 = NFin (inject_Z w).
Proof.
  intros Hw.
  destruct (Z.eq_dec w (2 ^ 53)) as [->|Hne]; [reflexivity|].
  assert (HL : Z.log2 w <= 52).
  { assert (w < 2 ^ 53) by lia.
    destruct (Z.le_gt_cases (Z.log2 w) 52); [assumption|].
    pose proof (Z.log2_spec w ltac:(lia)) as [Hl _].
    pose proof (Z.pow_le_mono_r 2 53 (Z.log2 w) ltac:(lia) ltac:(lia)). lia. }
  pose proof (Z.log2_nonneg w).
  unfold round_pos. rewrite flog2_int by lia.
  replace (Z.max (Z.log2 w - 52) (-1074)) with (Z.log2 w - 52) by lia.
  set (e := Z.log2 w - 52).
  destruct (Z.leb_spec 0 e).
  - assert (e = 0) as He by lia. rewrite He. change (0 <=? 0) with true.
    change (2 ^ 0) with 1. rewrite Z.mul_1_l.
    rewrite rhe_one.
    destruct (Z.leb_spec (2 ^ 1024) (w * 1)); [lia|].
    unfold dyadic. change (0 <=? 0) with true. change (2 ^ 0) with 1.
    rewrite Z.mul_1_r. f_equal. apply Qred_inject_Z.
  - assert (Hp : 0 < 2 ^ (- e)) by (apply Z.pow_pos_nonneg; lia).
    rewrite rhe_one.
    destruct (Z.leb_spec (2 ^ (1024 - e)) (w * 2 ^ (- e))) as [Hov|Hov].
    + exfalso.
      replace (1024 - e) with (1024 + - e) in Hov by lia.
      rewrite Z.pow_add_r in Hov by lia.
      assert (w * 2 ^ (- e) <= 2 ^ 53 * 2 ^ (- e)) by (apply Z.mul_le_mono_nonneg_r; lia).
      assert (2 ^ 53 * 2 ^ (- e) < 2 ^ 1024 * 2 ^ (- e)) by (apply Z.mul_lt_mono_pos_r; [lia|]; reflexivity).
      lia.
    + unfold dyadic. destruct (Z.leb_spec 0 e); [lia|].
      rewrite <- (Qred_inject_Z w). f_equal. apply Qred_complete.
      unfold Qeq; simpl. rewrite Z2Pos.id by lia. lia.
Qed.

Lemma round_pos_big (w : Z) : 2 ^ 53 <= w ->
  round_pos w 1 = NInf \/
  exists y, 2 ^ 53 <= y < 2 ^ 1024 /\ round_pos w 1 = NFin (inject_Z y).
Proof.
  intros Hw.
  pose proof (Z.log2_spec w ltac:(lia)) as [Hl _].
  assert (HL : 53 <= Z.log2 w).
  { rewrite <- (Z.log2_pow2 53) by lia. apply Z.log2_le_mono. lia. }
  unfold round_pos. rewrite flog2_int by lia.
  replace (Z.max (Z.log2 w - 52) (-1074)) with (Z.log2 w - 52) by lia.
  set (e := Z.log2 w - 52).
  destruct (Z.leb_spec 0 e); [|lia].
  rewrite Z.mul_1_l.
  set (m := rhe w (2 ^ e)).
  destruct (Z.leb_spec (2 ^ 1024) (m * 2 ^ e)) as [Hov|Hov]; [left; reflexivity|right].
  exists (m * 2 ^ e). split; [split; [|exact Hov]|].
  - assert (Hp : 0 < 2 ^ e) by (apply Z.pow_pos_nonneg; lia).
    assert (H52 : 2 ^ 52 <= w / 2 ^ e).
    { apply Z.div_le_lower_bound; [lia|].
      rewrite <- Z.pow_add_r by lia. replace (e + 52) with (Z.log2 w) by lia. lia. }
    pose proof (rhe_ge w (2 ^ e) Hp).
    assert (Hm : 2 ^ 52 * 2 ^ e <= m * 2 ^ e) by (apply Z.mul_le_mono_nonneg_r; lia).
    rewrite <- Z.pow_add_r in Hm by lia.
    assert (2 ^ 53 <= 2 ^ (52 + e)) by (apply Z.pow_le_mono_r; lia). lia.
  - unfold dyadic. destruct (Z.leb_spec 0 e); [|lia]. rewrite Qred_inject_Z. reflexivity.
Qed.

Lemma round_pos_pos_int (w : Z) : 1 <= w ->
  round_pos w 1 = NInf \/ exists y, 1 <= y /\ round_pos w 1 = NFin (inject_Z y).
Proof.
  intros Hw. destruct (Z.le_gt_cases w (2 ^ 53)).
  - right. exists w. split; [lia|]. apply round_pos_small. lia.
  - destruct (round_pos_big w ltac:(lia)) as [H1|[y [Hy H1]]]; [left; exact H1|].
    right. exists y. split; [|exact H1]. assert (0 < 2 ^ 53) by reflexivity. lia.
Qed.

Lemma of_Z_small (w : Z) : 0 <= w <= 2 ^ 53 -> of_Z w = NFin (inject_Z w).
Proof.
  intros Hw. unfold of_Z. rewrite round_double_inject_Z.
  destruct (Z.ltb_spec 0 w).
  - apply round_pos_small. lia.
  - assert (w = 0) by lia. subst. reflexivity.
Qed.

(** exact integers: a double equal to [z] that rounds from an integer [Y] *)
Lemma roundtrip_int (Y z : Z) (v : Q) : 1 <= Y -> 1 <= z <= 2 ^ 53 - 1 ->
  round_double (inject_Z Y) = NFin v -> Qeq_bool v (inject_Z z) = true -> Y = z.
Proof.
  intros HY Hz Hr Hq. rewrite round_double_inject_Z in Hr.
  destruct (Z.ltb_spec 0 Y); [|lia].
  apply Qeq_bool_iff in Hq.
  destruct (Z.le_gt_cases Y (2 ^ 53)).
  - rewrite round_pos_small in Hr by lia. injection Hr as <-.
    unfold Qeq in Hq; simpl in Hq. lia.
  - destruct (round_pos_big Y ltac:(lia)) as [H1|[y [Hy H1]]]; rewrite H1 in Hr; [discriminate|].
    injection Hr as <-. unfold Qeq in Hq; simpl in Hq. lia.
Qed.

(** *** Decimal digits *)

Lemma dec_aux_acc (f : nat) (n : Z) (acc : string) :
  dec_aux f n acc = dec_aux f n EmptyString +++ acc.
Proof.
  revert n acc. induction f as [|f IH]; intros n acc; simpl; [reflexivity|].
  destruct (n <? 10); [reflexivity|].
  rewrite IH. rewrite (IH (n / 10) (String _ EmptyString)).
  rewrite StrFacts.append_assoc. reflexivity.
Qed.

Lemma dec_aux_fuel (f1 f2 : nat) (n : Z) (acc : string) :
  0 <= n -> n < 10 ^ Z.of_nat f1 -> n < 10 ^ Z.of_nat f2 -> (1 <= f1)%nat -> (1 <= f2)%nat ->
  dec_aux f1 n acc = dec_aux f2 n acc.
Proof.
  revert f2 n acc. induction f1 as [|f1 IH]; intros f2 n acc Hn H1 H2 Hf1 Hf2; [lia|].
  destruct f2 as [|f2]; [lia|]. simpl.
  destruct (Z.ltb_spec n 10); [reflexivity|].
  assert (Hf1' : (1 <= f1)%nat).
  { destruct f1; [simpl in H1; lia | lia]. }
  assert (Hf2' : (1 <= f2)%nat).
  { destruct f2; [simpl in H2; lia | lia]. }
  apply IH; auto.
  - apply Z.div_pos; lia.
  - rewrite Nat2Z.inj_succ, Z.pow_succ_r in H1 by lia.
    apply Z.div_lt_upper_bound; lia.
  - rewrite Nat2Z.inj_succ, Z.pow_succ_r in H2 by lia.
    apply Z.div_lt_upper_bound; lia.
Qed.

Lemma decimal_fuel_ok (n : Z) : 0 <= n -> n < 10 ^ Z.of_nat (S (Z.to_nat (Z.log2 n))).
Proof.
  intros Hn. rewrite Nat2Z.inj_succ, Z2Nat.id by apply Z.log2_nonneg.
  destruct (Z.eq_dec n 0) as [->|]; [reflexivity|].
  pose proof (Z.log2_spec n ltac:(lia)) as [_ Hu].
  rewrite <- Z.add_1_r.
  assert (2 ^ (Z.log2 n + 1) <= 10 ^ (Z.log2 n + 1)).
  { apply Z.pow_le_mono_l. split; lia. }
  rewrite Z.add_1_r. lia.
Qed.

Lemma decimal_small (n : Z) : 0 <= n < 10 -> decimal n = String (digit_char n) EmptyString.
Proof.
  intros Hn. unfold decimal. simpl. rewrite Z.mod_small by lia.
  destruct (Z.ltb_spec n 10); [reflexivity|lia].
Qed.

Lemma decimal_step (n : Z) : 10 <= n ->
  decimal n = decimal (n / 10) +++ String (digit_char (n mod 10)) EmptyString.
Proof.
  intros Hn. unfold decimal at 1. simpl.
  destruct (Z.ltb_spec n 10); [lia|].
  rewrite dec_aux_acc. f_equal. unfold decimal.
  assert (H1 : 1 <= n / 10) by (apply Z.div_le_lower_bound; lia).
  pose proof (decimal_fuel_ok n ltac:(lia)) as Hf.
  pose proof (Z.log2_le_mono 8 n ltac:(lia)) as Hl. change (Z.log2 8) with 3 in Hl.
  apply dec_aux_fuel.
  - lia.
  - rewrite Nat2Z.inj_succ, Z.pow_succ_r in Hf by lia.
    rewrite Z2Nat.id in Hf |- * by lia. apply Z.div_lt_upper_bound; lia.
  - apply decimal_fuel_ok. lia.
  - lia.
  - lia.
Qed.

Lemma decimal_mul10 (s : Z) : 1 <= s -> decimal (s * 10) = decimal s +++ "0".
Proof.
  intros Hs. rewrite decimal_step by lia.
  rewrite Z.div_mul by lia. rewrite Z.mod_mul by lia. reflexivity.
Qed.

Lemma zeros_snoc (j : nat) : zeros j +++ "0" = zeros (S j).
Proof. induction j as [|j IH]; simpl; [reflexivity|]. rewrite IH. reflexivity. Qed.

Lemma decimal_zeros (s : Z) (j : nat) : 1 <= s ->
  decimal (s * 10 ^ Z.of_nat j) = decimal s +++ zeros j.
Proof.
  intros Hs. induction j as [|j IH].
  - simpl. rewrite Z.mul_1_r, StrFacts.append_empty_r. reflexivity.
  - rewrite Nat2Z.inj_succ, Z.pow_succ_r by lia.
    replace (s * (10 * 10 ^ Z.of_nat j)) with ((s * 10 ^ Z.of_nat j) * 10) by ring.
    assert (0 < 10 ^ Z.of_nat j) by (apply Z.pow_pos_nonneg; lia).
    rewrite decimal_mul10 by nia. rewrite IH.
    rewrite StrFacts.append_assoc, zeros_snoc. reflexivity.
Qed.

Lemma decimal_length (n : Z) : 1 <= n ->
  let D := Z.of_nat (String.length (decimal n)) in
  1 <= D /\ 10 ^ (D - 1) <= n < 10 ^ D.
Proof.
  induction n as [n IH] using (well_founded_induction (Zwf_well_founded 1)).
  intros Hn D. subst D.
  destruct (Z.ltb_spec n 10).
  - rewrite decimal_small by lia. simpl. lia.
  - rewrite decimal_step by lia. rewrite StrFacts.length_append. simpl.
    assert (H1 : 1 <= n / 10) by (apply Z.div_le_lower_bound; lia).
    destruct (IH (n / 10)) as [Ha [Hb Hc]]; [unfold Zwf; split; [lia|]; apply Z.div_lt; lia | lia |].
    set (l := Z.of_nat (String.length (decimal (n / 10)))) in *.
    rewrite Nat2Z.inj_add. simpl Z.of_nat. fold l.
    replace (l + 1 - 1) with l by lia.
    pose proof (Z.div_mod n 10 ltac:(lia)). pose proof (Z.mod_pos_bound n 10 ltac:(lia)).
    split; [lia|]. split.
    + replace l with ((l - 1) + 1) at 1 by lia. rewrite Z.pow_add_r by lia. lia.
    + rewrite Z.pow_add_r by lia. lia.
Qed.

(** *** [Number::toString] on safe integers *)

Lemma pow10Q_nonneg (j : Z) : 0 <= j -> pow10Q j = inject_Z (10 ^ j).
Proof. intros Hj. unfold pow10Q. destruct (Z.leb_spec 0 j); [reflexivity | lia]. Qed.

Lemma dec_exp_Z (z : Z) : 1 <= z -> dec_exp (inject_Z z) = Z.of_nat (String.length (decimal z)).
Proof. intros Hz. unfold dec_exp. rewrite Qfloor_Z. destruct (Z.leb_spec 1 z); [reflexivity|lia]. Qed.

Lemma in_filter_pair {A} (f : A -> bool) (x a b : A) :
  In x (filter f [a; b]) -> (x = a \/ x = b) /\ f x = true.
Proof.
  intros H. apply filter_In in H as [H1 H2]. split; [|exact H2].
  destruct H1 as [<-|[<-|[]]]; auto.
Qed.

Lemma closer_cases (m : Q) (k : Z) (a b : Z * Z) : closer m k a b = a \/ closer m k a b = b.
Proof.
  unfold closer. destruct (Qlt_bool _ _); [right; reflexivity|].
  destruct (Qlt_bool _ _); [left; reflexivity|]. destruct (Z.even _); auto.
Qed.

Lemma fold_closer_in (m : Q) (k : Z) (cs : list (Z * Z)) (c : Z * Z) :
  In (fold_left (closer m k) cs c) (c :: cs).
Proof.
  revert c. induction cs as [|c' cs IH]; intros c; simpl; [left; reflexivity|].
  destruct (closer_cases m k c c') as [E|E]; rewrite E.
  - destruct (IH c) as [H|H]; [left; exact H | right; right; exact H].
  - right. apply IH.
Qed.

Section SafeInt.
Variable z : Z.
Hypothesis Hz : 1 <= z <= 2 ^ 53 - 1.

Let D := Z.of_nat (String.length (decimal z)).

Lemma D_bounds : 1 <= D /\ 10 ^ (D - 1) <= z < 10 ^ D /\ D <= 16.
Proof.
  destruct (decimal_length z ltac:(lia)) as [H1 [H2 H3]]. fold D in H1, H2, H3.
  split; [exact H1|]. split; [lia|].
  destruct (Z.le_gt_cases D 16) as [|HD]; [assumption|].
  assert (10 ^ 16 <= 10 ^ (D - 1)) by (apply Z.pow_le_mono_r; lia).
  assert (2 ^ 53 - 1 < 10 ^ 16) by reflexivity. lia.
Qed.

Lemma cand_cond (s j k : Z) : 0 <= j -> 1 <= k ->
  ((10 ^ (k - 1) <=? s) && (s <? 10 ^ k) &&
   match round_double (inject_Z s * pow10Q j)%Q with
   | NFin v => Qeq_bool v (inject_Z z)
   | _ => false
   end) = true ->
  10 ^ (k - 1) <= s /\ s * 10 ^ j = z.
Proof.
  intros Hj Hk H. apply andb_true_iff in H as [H Hr]. apply andb_true_iff in H as [H1 _].
  apply Z.leb_le in H1. split; [exact H1|].
  rewrite pow10Q_nonneg in Hr by exact Hj. rewrite <- inject_Z_mult in Hr.
  destruct (round_double (inject_Z (s * 10 ^ j))) eqn:E; try discriminate.
  assert (1 <= 10 ^ (k - 1)) by (apply (Z.pow_le_mono_r 10 0); lia).
  assert (1 <= 10 ^ j) by (apply (Z.pow_le_mono_r 10 0); lia).
  apply (roundtrip_int _ z q); [nia | lia | exact E | exact Hr].
Qed.

Lemma cand_spec (k s n : Z) : 1 <= k <= D ->
  In (s, n) (candidates (inject_Z z) k) -> n = D /\ s * 10 ^ (D - k) = z.
Proof.
  intros Hk Hin. destruct D_bounds as [HD1 [[HDa HDb] HD16]].
  unfold candidates in Hin. rewrite dec_exp_Z in Hin by lia. fold D in Hin.
  apply in_app_or in Hin as [Hin|Hin]; apply in_filter_pair in Hin as [Heq Hc];
    cbv beta iota in Hc.
  - assert (n = D) as -> by (destruct Heq as [E|E]; injection E; auto).
    apply cand_cond in Hc as [_ Hc]; [auto | lia | lia].
  - exfalso. assert (n = D + 1) as -> by (destruct Heq as [E|E]; injection E; auto).
    apply cand_cond in Hc as [Hs Hc]; [|lia|lia].
    assert (H : 10 ^ (k - 1) * 10 ^ (D + 1 - k) <= z) by
      (rewrite <- Hc; apply Z.mul_le_mono_nonneg_r; [apply Z.pow_nonneg; lia | exact Hs]).
    rewrite <- Z.pow_add_r in H by lia.
    replace (k - 1 + (D + 1 - k)) with D in H by lia. lia.
Qed.

Lemma cand_top : In (z, D) (candidates (inject_Z z) D).
Proof.
  destruct D_bounds as [HD1 [[HDa HDb] HD16]].
  unfold candidates. rewrite dec_exp_Z by lia. fold D.
  apply in_or_app. left. apply filter_In. split.
  - left. f_equal. rewrite Z.sub_diag. unfold pow10Q. simpl.
    unfold Qfloor. simpl. rewrite Z.mul_1_r. apply Z.div_1_r.
  - rewrite Z.sub_diag. rewrite pow10Q_nonneg by lia. rewrite <- inject_Z_mult.
    rewrite Z.pow_0_r, Z.mul_1_r.
    change (round_double (inject_Z z)) with (of_Z z). rewrite of_Z_small by lia.
    apply andb_true_iff. split; [apply andb_true_iff; split; [apply Z.leb_le | apply Z.ltb_lt]; lia|].
    apply Qeq_bool_iff. reflexivity.
Qed.

Lemma choose_digits_safe (fuel : nat) (k : Z) : 1 <= k <= D -> D - k < Z.of_nat fuel ->
  exists s k', choose_digits fuel (inject_Z z) k = Some (s, k', D) /\ 1 <= k' <= D /\
    s * 10 ^ (D - k') = z.
Proof.
  revert k. induction fuel as [|f IH]; intros k Hk Hf; [lia|].
  simpl. destruct (candidates (inject_Z z) k) as [|c cs] eqn:E.
  - destruct (Z.eq_dec k D) as [->|Hne].
    + pose proof cand_top as H. rewrite E in H. destruct H.
    + apply IH; lia.
  - pose proof (fold_closer_in (inject_Z z) k cs c) as Hin.
    destruct (fold_left (closer (inject_Z z) k) cs c) as [s n] eqn:Ef.
    rewrite <- E in Hin. apply cand_spec in Hin as [-> Hs]; [|lia].
    exists s, k. auto.
Qed.

End SafeInt.

Lemma toString_of_Z (z : Z) : 0 <= z <= 2 ^ 53 - 1 -> toString (of_Z z) = decimal z.
Proof.
  intros Hz. rewrite of_Z_small by lia.
  destruct (Z.eq_dec z 0) as [->|Hz0]; [reflexivity|].
  unfold toString.
  replace (Qeq_bool (inject_Z z) 0) with false
    by (symmetry; apply not_true_iff_false; intros H; apply Qeq_bool_iff in H;
        unfold Qeq in H; simpl in H; lia).
  replace (Qlt_bool (inject_Z z) 0) with false
    by (unfold Qlt_bool; symmetry; apply negb_false_iff; apply Qle_bool_iff;
        unfold Qle; simpl; lia).
  unfold pos_to_string.
  set (D := Z.of_nat (String.length (decimal z))).
  destruct (D_bounds z ltac:(lia)) as [HD1 [[HDa HDb] HD16]]. fold D in HD1, HDa, HDb, HD16.
  destruct (choose_digits_safe z ltac:(lia) 17 1) as [s [k' [Hc [Hk' Hs]]]].
  { fold D. lia. }
  { fold D. simpl. lia. }
  fold D in Hc, Hk', Hs. rewrite Hc. unfold format_digits.
  destruct (Z.leb_spec k' D); [|lia]. destruct (Z.leb_spec D 21); [|lia]. simpl andb. cbv iota.
  rewrite <- (Z2Nat.id (D - k')) in Hs by lia.
  assert (1 <= s).
  { destruct (Z.le_gt_cases 1 s); [assumption|].
    assert (0 < 10 ^ Z.of_nat (Z.to_nat (D - k'))) by (apply Z.pow_pos_nonneg; lia). nia. }
  rewrite <- decimal_zeros by assumption. rewrite Hs. reflexivity.
Qed.

End NumFacts.

Module StrOpsFacts.
Import StrOps.

Lemma split_dot_nonempty (s : string) : split_dot s <> [].
Proof.
  induction s as [|c r IH]; simpl; [discriminate|].
  destruct (split_dot r) as [|seg segs]; [discriminate|].
  destruct (Ascii.eqb c "."%char); discriminate.
Qed.

Lemma split_dot_nodot (s : string) : count_dots s = O -> split_dot s = [s].
Proof.
  induction s as [|c r IH]; simpl; intros H; [reflexivity|].
  destruct (Ascii.eqb c "."%char); [discriminate|].
  rewrite IH by exact H. reflexivity.
Qed.

Lemma split_dot_app (p r : string) : count_dots p = O ->
  split_dot (p +++ String "."%char r) = p :: split_dot r.
Proof.
  induction p as [|c p IH]; simpl; intros H.
  - destruct (split_dot r) as [|seg segs] eqn:E; [exfalso; exact (split_dot_nonempty r E)|].
    reflexivity.
  - destruct (Ascii.eqb c "."%char); [discriminate|].
    rewrite IH by exact H. reflexivity.
Qed.

Lemma split_join (l : list string) : l <> [] -> Forall (fun p => count_dots p = O) l ->
  split_dot (join_dot l) = l.
Proof.
  induction l as [|p ps IH]; intros Hne HF; [congruence|].
  inversion HF as [|? ? Hp Hps]; subst.
  destruct ps as [|p' ps'].
  - simpl. apply split_dot_nodot. exact Hp.
  - change (join_dot (p :: p' :: ps')) with (p +++ String "."%char (join_dot (p' :: ps'))).
    rewrite split_dot_app by exact Hp.
    rewrite IH; [reflexivity | discriminate | exact Hps].
Qed.

Lemma join_nonempty (p : string) (ps : list string) : ps <> [] ->
  String.eqb (join_dot (p :: ps)) EmptyString = false.
Proof.
  intros H. destruct ps as [|p' ps']; [congruence|].
  change (join_dot (p :: p' :: ps')) with (p +++ "." +++ join_dot (p' :: ps')).
  destruct p; reflexivity.
Qed.

Lemma digit_cases (c : ascii) : is_digit c = true ->
  c = "0"%char \/ c = "1"%char \/ c = "2"%char \/ c = "3"%char \/ c = "4"%char \/
  c = "5"%char \/ c = "6"%char \/ c = "7"%char \/ c = "8"%char \/ c = "9"%char.
Proof.
  destruct c as [[] [] [] [] [] [] [] []]; unfold is_digit, JsNum.digit_val; simpl;
    intros H; try discriminate; auto 10.
Qed.

Lemma all_digits_nodot (s : string) : all_chars is_digit s = true -> count_dots s = O.
Proof.
  induction s as [|c r IH]; simpl; [reflexivity|]. intros H.
  apply andb_true_iff in H as [Hc Hr].
  destruct (digit_cases c Hc) as [->|[->|[->|[->|[->|[->|[->|[->|[->| ->]]]]]]]]];
    simpl; apply IH; exact Hr.
Qed.

End StrOpsFacts.

Module ParseIntFacts.
Import JsNum.

Lemma digits_prefix_cons (c : ascii) (r : string) (d : Z) :
  digit_val c = Some d -> digits_prefix (String c r) = d :: digits_prefix r.
Proof. intros H. simpl. rewrite H. reflexivity. Qed.

Lemma parseInt10_digits (s : string) : s <> EmptyString ->
  StrOps.all_chars StrOps.is_digit s = true ->
  parseInt10 s = of_Z (digits_value (digits_prefix s)).
Proof.
  destruct s as [|c r]; intros Hne H; [congruence|].
  simpl in H. apply andb_true_iff in H as [Hc _].
  destruct (StrOpsFacts.digit_cases c Hc) as [->|[->|[->|[->|[->|[->|[->|[->|[->| ->]]]]]]]]];
    unfold parseInt10;
    match goal with |- context [Str.trim_start_by Str.is_js_ws (String ?c r)] =>
      change (Str.trim_start_by Str.is_js_ws (String c r)) with (String c r);
      cbv beta iota delta [split_sign]; rewrite (digits_prefix_cons c r _ eq_refl) end;
    cbv beta iota; rewrite Z.mul_1_l; reflexivity.
Qed.

End ParseIntFacts.

Module C8.
Import JsNum ReqNum StrOps.

Lemma digits_value_fold_nonneg (ds : list Z) (a : Z) : 0 <= a -> Forall (fun d => 0 <= d) ds ->
  0 <= fold_left (fun acc d => acc * 10 + d) ds a.
Proof.
  revert a. induction ds as [|d ds IH]; intros a Ha HF; simpl; [exact Ha|].
  inversion HF; subst. apply IH; [lia | assumption].
Qed.

Lemma digits_prefix_nonneg (s : string) : Forall (fun d => 0 <= d) (digits_prefix s).
Proof.
  induction s as [|c r IH]; simpl; [constructor|].
  unfold digit_val. destruct (_ && _)%nat eqn:E; [|constructor].
  apply andb_true_iff in E as [E _]. apply Nat.leb_le in E.
  constructor; [lia | exact IH].
Qed.

Lemma segment_value_nonneg (s : string) : 0 <= segment_value s.
Proof. apply digits_value_fold_nonneg; [lia | apply digits_prefix_nonneg]. Qed.

Lemma add_int (a b : Z) : add (NFin (inject_Z a)) (NFin (inject_Z b)) = of_Z (a + b).
Proof. unfold add, of_Z. rewrite inject_Z_plus. reflexivity. Qed.

Lemma segments_nodot (l : list string) : forallb is_segment l = true ->
  Forall (fun p => count_dots p = O) l.
Proof.
  induction l as [|p ps IH]; simpl; intros H; constructor;
    apply andb_true_iff in H as [H1 H2]; [|apply IH; exact H2].
  apply StrOpsFacts.all_digits_nodot. unfold is_segment in H1.
  apply andb_true_iff in H1 as [_ H1]. exact H1.
Qed.

(** C8 (amended): [outdentNumber] of the empty string is 1, not the empty
    string. A non-empty number with no dot is returned unchanged. A number
    made of valid segments with at least one dot loses its last segment and
    has its new last segment incremented, as long as that segment plus one
    is a safe integer (at most 2^53 - 1). *)
Lemma outdentNumber_amended :
  outdentNumber "" = "1"%string /\
  (forall s, s <> EmptyString -> count_dots s = O -> outdentNumber s = s) /\
  (forall segs x y, forallb is_segment (segs ++ [x; y]) = true ->
     segment_value x + 1 <= 2 ^ 53 - 1 ->
     outdentNumber (join_dot (segs ++ [x; y])) = join_dot (segs ++ [decimal (segment_value x + 1)])).
Proof.
  split; [reflexivity|]. split.
  - intros s Hne Hd. unfold outdentNumber.
    destruct (String.eqb_spec s EmptyString); [congruence|].
    rewrite StrOpsFacts.split_dot_nodot by exact Hd. reflexivity.
  - intros segs x y Hseg Hv. unfold outdentNumber.
    assert (Hne : String.eqb (join_dot (segs ++ [x; y])) EmptyString = false).
    { destruct segs as [|s0 segs']; [apply StrOpsFacts.join_nonempty; discriminate|].
      apply StrOpsFacts.join_nonempty. destruct segs'; discriminate. }
    rewrite Hne.
    rewrite StrOpsFacts.split_join;
      [| destruct segs; discriminate | apply segments_nodot; exact Hseg].
    rewrite length_app. simpl length.
    replace (length segs + 2 <=? 1)%nat with false by (symmetry; apply Nat.leb_gt; lia).
    rewrite removelast_app by discriminate. simpl removelast.
    rewrite last_last, removelast_last.
    assert (Hx : is_segment x = true).
    { rewrite forallb_app in Hseg. apply andb_true_iff in Hseg as [_ Hseg].
      simpl in Hseg. apply andb_true_iff in Hseg as [Hseg _]. exact Hseg. }
    unfold is_segment in Hx. apply andb_true_iff in Hx as [Hx1 Hx2].
    rewrite ParseIntFacts.parseInt10_digits;
      [| intros E; subst; discriminate | exact Hx2].
    pose proof (segment_value_nonneg x) as H0. unfold segment_value in *.
    rewrite NumFacts.of_Z_small by lia.
    change (NFin 1) with (NFin (inject_Z 1)). rewrite add_int.
    rewrite NumFacts.toString_of_Z by lia. reflexivity.
Qed.

(** C8 (counterexample): the empty string has depth 0, yet [outdentNumber]
    returns 1 for it. Incrementing a segment past 2^53 is rounded: the
    number 9007199254740993.1 outdents to 9007199254740992. *)
Lemma outdentNumber_counterexample :
  outdentNumber "" <> ""%string /\
  outdentNumber "9007199254740993.1" = "9007199254740992"%string.
Proof. split; [discriminate | vm_compute; reflexivity]. Qed.

End C8.

Module C4.
Import JsNum Importer.

Lemma ws_not_digit (c : ascii) : StrOps.is_digit c = true -> Str.is_js_ws c = false.
Proof.
  intros H.
  destruct (StrOpsFacts.digit_cases c H) as [->|[->|[->|[->|[->|[->|[->|[->|[->| ->]]]]]]]]];
    reflexivity.
Qed.

Lemma digits_prefix_trim_end (u : string) :
  digits_prefix (Str.trim_end_by Str.is_js_ws u) = digits_prefix u.
Proof.
  induction u as [|c r IH]; simpl; [reflexivity|].
  destruct (digit_val c) as [d|] eqn:Ed.
  - assert (Hw : Str.is_js_ws c = false).
    { apply ws_not_digit. unfold StrOps.is_digit. rewrite Ed. reflexivity. }
    rewrite Hw, andb_false_r. simpl. rewrite Ed, IH. reflexivity.
  - destruct (_ && _); simpl; [reflexivity|]. rewrite Ed. reflexivity.
Qed.

Lemma split_sign_other (c : ascii) (u : string) : c <> "-"%char -> c <> "+"%char ->
  split_sign (String c u) = (1, String c u).
Proof.
  intros H1 H2. destruct c as [[] [] [] [] [] [] [] []]; try reflexivity;
    exfalso; [apply H2 | apply H1]; reflexivity.
Qed.

Lemma trim_start_idem (p : ascii -> bool) (s : string) :
  Str.trim_start_by p (Str.trim_start_by p s) = Str.trim_start_by p s.
Proof.
  induction s as [|c r IH]; simpl; [reflexivity|].
  destruct (p c) eqn:E; [exact IH|]. simpl. rewrite E. reflexivity.
Qed.

Lemma trim_start_first (p : ascii -> bool) (s : string) (c : ascii) (r : string) :
  Str.trim_start_by p s = String c r -> p c = false.
Proof.
  induction s as [|c' r' IH]; simpl; [discriminate|].
  destruct (p c') eqn:E; [exact IH|]. intros H. injection H as <- _. exact E.
Qed.

Lemma parseInt10_js_trim (s : string) : parseInt10 (Str.js_trim s) = parseInt10 s.
Proof.
  unfold parseInt10, Str.js_trim, Str.trim_by.
  destruct (Str.trim_start_by Str.is_js_ws s) as [|c r] eqn:E; [reflexivity|].
  pose proof (trim_start_first _ _ _ _ E) as Hc.
  simpl Str.trim_end_by. rewrite Hc, andb_false_r. simpl Str.trim_start_by. rewrite Hc.
  destruct (ascii_dec c "-"%char) as [->|H1]; [|destruct (ascii_dec c "+"%char) as [->|H2]].
  - cbv beta iota delta [split_sign]. rewrite digits_prefix_trim_end. reflexivity.
  - cbv beta iota delta [split_sign]. rewrite digits_prefix_trim_end. reflexivity.
  - rewrite !split_sign_other by assumption. cbv beta iota.
    assert (Hd : digits_prefix (String c (Str.trim_end_by Str.is_js_ws r)) =
                 digits_prefix (String c r)).
    { simpl digits_prefix. rewrite digits_prefix_trim_end. reflexivity. }
    rewrite Hd. reflexivity.
Qed.

Lemma js_trim_empty (s : string) : Str.js_trim s = EmptyString -> parseInt10 s = NNaN.
Proof.
  unfold Str.js_trim, Str.trim_by, parseInt10. intros H.
  destruct (Str.trim_start_by Str.is_js_ws s) as [|c r] eqn:E; [reflexivity|].
  pose proof (trim_start_first _ _ _ _ E) as Hc.
  simpl in H. rewrite Hc, andb_false_r in H. discriminate.
Qed.

Lemma le_fin (a b : Q) : le (NFin a) (NFin b) = Qle_bool a b.
Proof.
  unfold le, cmp3. destruct (Qle_bool a b) eqn:E.
  - apply Qle_bool_iff in E. destruct (Qcompare a b) eqn:C; try reflexivity.
    exfalso. apply Qgt_alt in C. apply (Qlt_not_le b a C). exact E.
  - destruct (Qcompare a b) eqn:C; try reflexivity; exfalso;
      apply not_true_iff_false in E; apply E; apply Qle_bool_iff.
    + apply Qeq_alt in C. rewrite C. apply Qle_refl.
    + apply Qlt_alt in C. apply Qlt_le_weak. exact C.
Qed.

Lemma Qle_bool_int (a b : Z) : Qle_bool (inject_Z a) (inject_Z b) = (a <=? b).
Proof. unfold Qle_bool. simpl. rewrite !Z.mul_1_r. reflexivity. Qed.

(** The score the code reads from a cell value. *)
Lemma validateScore_cases (value : JsValue) :
  validateScore value =
  match value with
  | JNum (NFin x) =>
      let r := Qfloor (x + (1 # 2))%Q in if (0 <=? r) && (r <=? 3) then Some r else None
  | JStr s =>
      match parseInt10 s with
      | NFin q => if Qle_bool 0 q && Qle_bool q 3 then Some (Qfloor q) else None
      | _ => None
      end
  | _ => None
  end.
Proof.
  destruct value as [| |b|n|s|t]; try reflexivity.
  - destruct n as [x| | |]; try reflexivity. unfold validateScore, math_round.
    rewrite !le_fin. change 0%Q with (inject_Z 0). change 3%Q with (inject_Z 3).
    rewrite !Qle_bool_int, Qfloor_Z. reflexivity.
  - unfold validateScore.
    destruct (String.eqb_spec s EmptyString) as [->|Hs]; [reflexivity|].
    destruct (String.eqb_spec (Str.js_trim s) EmptyString) as [Ht|Ht].
    + rewrite js_trim_empty by exact Ht. reflexivity.
    + rewrite parseInt10_js_trim.
      destruct (parseInt10 s) as [q| | |]; try reflexivity.
Qed.

Lemma validateScore_examples :
  validateScore (JNum (of_Z 3)) = Some 3 /\ validateScore (JStr "3") = Some 3 /\
  validateScore (JNum (round_double (34 # 10))) = Some 3 /\
  validateScore (JNum (round_double (26 # 10))) = Some 3 /\
  validateScore (JNum (of_Z (-1))) = None /\ validateScore (JNum (of_Z 4)) = None /\
  validateScore (JStr "abc") = None /\ validateScore (JStr "") = None /\
  validateScore JNull = None.
Proof. vm_compute. repeat split. Qed.

(** C4: [validateScore] is a total function on cell values. A finite number
    [x] gives [Math.round x], the floor of [x + 1/2], when that lies in 0..3.
    A string gives its [parseInt] value when that is a number in 0..3; an
    integer parse is its own floor. Every other value gives [None] (unrated):
    numbers rounding outside 0..3, NaN and infinities, strings that are
    empty, blank, out of range or do not start with digits, [null],
    [undefined], booleans and dates. The listed examples follow: 3, the
    string 3, 3.4 and 2.6 give 3; -1, 4, the string abc, the empty string
    and [null] give [None]. *)
Lemma validateScore_spec :
  (forall value : JsValue,
     validateScore value =
     match value with
     | JNum (NFin x) =>
         let r := Qfloor (x + (1 # 2))%Q in if (0 <=? r) && (r <=? 3) then Some r else None
     | JStr s =>
         match parseInt10 s with
         | NFin q => if Qle_bool 0 q && Qle_bool q 3 then Some (Qfloor q) else None
         | _ => None
         end
     | _ => None
     end) /\
  (validateScore (JNum (of_Z 3)) = Some 3 /\ validateScore (JStr "3") = Some 3 /\
   validateScore (JNum (round_double (34 # 10))) = Some 3 /\
   validateScore (JNum (round_double (26 # 10))) = Some 3 /\
   validateScore (JNum (of_Z (-1))) = None /\ validateScore (JNum (of_Z 4)) = None /\
   validateScore (JStr "abc") = None /\ validateScore (JStr "") = None /\
   validateScore JNull = None).
Proof. split; [exact validateScore_cases | exact validateScore_examples]. Qed.

End C4.

Module C5.
Import Importer.

Lemma visit_sheets_spec parse filename wb (names : list string)
    (ms : list ParsedMatrix) (errs : list string) :
  fold_left (visit_sheet parse filename wb) names (ms, errs) =
  (ms ++ flat_map (fun sn => match sheet_outcome parse filename wb sn with
                             | inr (Some p) => [p] | _ => [] end) names,
   errs ++ flat_map (fun sn => match sheet_outcome parse filename wb sn with
                               | inl e => [sheet_error filename sn e] | _ => [] end) names).
Proof.
  revert ms errs. induction names as [|sn names IH]; intros ms errs; simpl.
  - rewrite !app_nil_r. reflexivity.
  - destruct (sheet_outcome _ _ _ _) as [e|[p|]]; rewrite IH;
      simpl; repeat rewrite <- app_assoc; reflexivity.
Qed.

(** C5: for any workbook reader and any per-sheet parser (which may
    throw), the result of [parseExcelFile] has a matrix or an error. When the
    workbook is read, its matrices are those of the sheets whose parse
    succeeded with a matrix, in sheet order, whatever the other sheets did.
    Its errors are one message per sheet whose parse threw, in sheet order,
    or else, when every sheet gave nothing, the single message
    No valid data found. *)
Lemma parseExcelFile_errors (Data : Type) (read : Data -> Exn + WorkBook)
    (parse : option WorkSheet -> string -> option string -> Exn + option ParsedMatrix)
    (data : Data) (filename : string) :
  let r := parseExcelFile_with Data read parse data filename in
  (matrices r <> [] \/ errors r <> []) /\
  forall wb, read data = inr wb ->
    matrices r = flat_map (fun sn => match sheet_outcome parse filename wb sn with
                                     | inr (Some p) => [p] | _ => [] end) (SheetNames wb) /\
    (errors r = flat_map (fun sn => match sheet_outcome parse filename wb sn with
                                    | inl e => [sheet_error filename sn e] | _ => [] end)
                         (SheetNames wb)
     \/ (matrices r = [] /\
         (forall sn, In sn (SheetNames wb) -> sheet_outcome parse filename wb sn = inr None) /\
         errors r = ["No valid data found in " +++ filename])).
Proof.
  intros r. subst r. unfold parseExcelFile_with. split.
  - destruct (read data) as [e|wb]; [right; discriminate|].
    destruct (fold_left _ _ _) as [ms errs].
    destruct ms; destruct errs; simpl; try (left; discriminate); right;
      try discriminate; destruct errs; discriminate.
  - intros wb Hr. rewrite Hr.
    rewrite (visit_sheets_spec parse filename wb (SheetNames wb) [] []). simpl.
    set (okl := flat_map (fun sn => match sheet_outcome parse filename wb sn with
                                    | inr (Some p) => [p] | _ => [] end) (SheetNames wb)).
    set (errl := flat_map (fun sn => match sheet_outcome parse filename wb sn with
                                     | inl e => [sheet_error filename sn e] | _ => [] end)
                          (SheetNames wb)).
    destruct ((length okl =? 0)%nat && (length errl =? 0)%nat) eqn:E; simpl.
    + apply andb_true_iff in E as [E1 E2]. apply Nat.eqb_eq, length_zero_iff_nil in E1, E2.
      split; [reflexivity|]. right. split; [exact E1|]. split.
      * intros sn Hin.
        destruct (sheet_outcome parse filename wb sn) as [e|[p|]] eqn:Eo;
          [| |reflexivity]; exfalso.
        -- assert (H : In (sheet_error filename sn e) errl)
             by (apply in_flat_map; exists sn; rewrite Eo; simpl; auto).
           rewrite E2 in H. destruct H.
        -- assert (H : In p okl) by (apply in_flat_map; exists sn; rewrite Eo; simpl; auto).
           rewrite E1 in H. destruct H.
      * rewrite E2. reflexivity.
    + split; [reflexivity | left; reflexivity].
Qed.

End C5.

Module C10.
Import Comparison.

(** C10: the matrices of [buildComparisonData ms] are the pairs (id, name)
    of all the input matrices, once each, in the input order, whether or not
    they contributed a comparison row. *)
Lemma buildComparisonData_matrices (ms : list CapabilityMatrixWithRows) :
  cd_matrices (buildComparisonData ms) = map (fun m => (m_id m, m_name m)) ms.
Proof. reflexivity. Qed.

End C10.

Module C2.
Import Ledger Comparison.

(** C2 (code bug): the ledger's SQL key LOWER(TRIM(requirements)) is not
    the aggregator's [normalizeRequirement]. SQLite's TRIM removes only
    spaces, while JavaScript's [trim] also removes line breaks and other
    white space. A row whose text is Foo followed by a line feed has the same
    [normalizeRequirement] key as Foo, so the aggregator groups it under foo,
    yet [deleteRowsByRequirement] on Foo deletes nothing and leaves it
    stored. *)
Lemma delete_misses_trailing_newline :
  let row := {| db_id := "r1"; db_matrix_id := "m1"; db_requirement_number := "1";
                db_requirements := "Foo" +++ String (ascii_of_nat 10) EmptyString;
                db_experience_and_capability := Some "3"%string; db_past_performance := "";
                db_comments := ""; db_row_order := 0 |} in
  let st := {| matrices := []; matrix_rows := [row] |} in
  let '(st', res, _) := deleteRowsByRequirement "t" "Foo" st in
  normalizeRequirement (db_requirements row) = normalizeRequirement "Foo" /\
  deletedCount res = 0 /\ matrix_rows st' = [row].
Proof. vm_compute. repeat split. Qed.

End C2.

Module C6.
Import JsNum Importer.

Lemma seqZ_length (a : Z) (n : nat) : length (seqZ a n) = n.
Proof. revert a; induction n; intros a; simpl; [reflexivity | rewrite IHn; reflexivity]. Qed.

Lemma seqZ_ge (a : Z) (n : nat) : Forall (fun x => a <= x) (seqZ a n).
Proof.
  revert a; induction n as [|n IH]; intros a; simpl; constructor; [lia|].
  eapply Forall_impl; [|apply IH]. simpl. intros; lia.
Qed.

Lemma first_header_row_nonneg (sheet : WorkSheet) (rg : Range) (rows : list Z) :
  Forall (fun x => 0 <= x) rows -> 0 <= hi_row (first_header sheet rg rows).
Proof.
  induction rows as [|r rs IH]; simpl; intros HF; [lia|].
  inversion HF; subst. destruct (scan_header_row sheet rg r) as [fReq fText].
  destruct (0 <=? fText); [|apply IH; assumption].
  unfold header_of. destruct (0 <=? fReq); simpl; assumption.
Qed.

Lemma findHeaderInfo_row_nonneg (sheet : WorkSheet) : 0 <= hi_row (findHeaderInfo sheet).
Proof. apply first_header_row_nonneg. apply seqZ_ge. Qed.

Section Rows.
Variable sheet : WorkSheet.
Variable h : HeaderInfo.

Let text (r : Z) : string := getCellString (cell_at sheet r (requirementsCol h)).
Let keep (r : Z) : bool := negb (String.eqb (text r) "").
Let fields (p : ParsedRow) := (pr_requirements p, pr_experienceAndCapability p,
                               pr_pastPerformance p, pr_comments p).
Let cells_of (r : Z) :=
  (text r,
   validateScore (match cell_at sheet r (scoreCol h) with Some c => v c | None => JUndefined end),
   getCellString (cell_at sheet r (pastPerfCol h)),
   getCellString (cell_at sheet r (commentsCol h))).

Lemma rows_fields (rs : list Z) (acc : list ParsedRow) (an : number) :
  map fields (fst (fold_left (visit_data_row sheet h) rs (acc, an))) =
  map fields acc ++ map cells_of (filter keep rs).
Proof.
  revert acc an. induction rs as [|r rs IH]; intros acc an; simpl; [rewrite app_nil_r; reflexivity|].
  unfold keep at 1, text at 1.
  destruct (String.eqb (getCellString (cell_at sheet r (requirementsCol h))) "") eqn:E;
    simpl; [apply IH|].
  match goal with |- context [if ?b then _ else _] => destruct b end;
  rewrite IH, map_app, <- app_assoc; reflexivity.
Qed.

Lemma rows_numbers (rs : list Z) (acc : list ParsedRow) (a : Z) :
  hasReqNumberColumn h = false -> 1 <= a -> a + Z.of_nat (length rs) <= 2 ^ 53 - 1 ->
  map pr_requirementNumber (fst (fold_left (visit_data_row sheet h) rs (acc, NFin (inject_Z a)))) =
  map pr_requirementNumber acc ++
  map (fun i => decimal (Z.of_nat i)) (seq (Z.to_nat a) (length (filter keep rs))).
Proof.
  intros Hh. revert acc a. induction rs as [|r rs IH]; intros acc a Ha Hlen;
    cbn [fold_left filter]; [simpl; rewrite app_nil_r; reflexivity|].
  simpl length in Hlen.
  unfold visit_data_row at 2. unfold keep at 1, text at 1.
  destruct (String.eqb (getCellString (cell_at sheet r (requirementsCol h))) "") eqn:E;
    cbv iota beta.
  - apply IH; lia.
  - rewrite Hh. simpl andb. cbv iota. change (String.eqb "" "") with true. cbv iota.
    change (NFin 1) with (NFin (inject_Z 1)). rewrite C8.add_int.
    rewrite <- (NumFacts.of_Z_small a) by lia. rewrite NumFacts.toString_of_Z by lia.
    rewrite (NumFacts.of_Z_small (a + 1)) by lia.
    rewrite IH by lia. rewrite map_app, <- app_assoc. simpl.
    rewrite Z2Nat.id by lia. f_equal. f_equal.
    replace (Z.to_nat (a + 1)) with (S (Z.to_nat a)) by lia. reflexivity.
Qed.

End Rows.

(** C6: the rows extracted from a sheet (up to the spreadsheet's row limit)
    are exactly the rows after the header row whose requirements cell reads
    as a non-empty string, in sheet order. The text, score, past performance
    and comments of each are read from its own cells, whether or not those are
    empty. When no requirement-number column was detected, their numbers are
    1, 2, 3, ... in order, counted within this sheet. *)
Lemma worksheet_rows_spec (sheet : WorkSheet) :
  let rg := decode_range sheet in
  let h := findHeaderInfo sheet in
  let text r := getCellString (cell_at sheet r (requirementsCol h)) in
  let kept := filter (fun r => negb (String.eqb (text r) "")) (upto (hi_row h + 1) (e_r rg)) in
  e_r rg <= 1048575 ->
  map (fun p => (pr_requirements p, pr_experienceAndCapability p,
                 pr_pastPerformance p, pr_comments p)) (worksheet_rows sheet) =
  map (fun r => (text r,
                 validateScore (match cell_at sheet r (scoreCol h) with
                                | Some c => v c | None => JUndefined end),
                 getCellString (cell_at sheet r (pastPerfCol h)),
                 getCellString (cell_at sheet r (commentsCol h)))) kept /\
  (hasReqNumberColumn h = false ->
   map pr_requirementNumber (worksheet_rows sheet) =
   map (fun i => decimal (Z.of_nat i)) (seq 1 (length kept))).
Proof.
  intros rg h text kept Hr. unfold worksheet_rows. fold rg h. split.
  - apply (rows_fields sheet h _ [] (NFin 1)).
  - intros Hh. change (NFin 1) with (NFin (inject_Z 1)).
    apply (rows_numbers sheet h _ [] 1 Hh); [lia|].
    unfold upto. rewrite seqZ_length.
    pose proof (findHeaderInfo_row_nonneg sheet). fold h in H. lia.
Qed.

End C6.

Module C7T.
Import JsNum ReqNum.

Ltac digit_case c H :=
  destruct (StrOpsFacts.digit_cases c H) as [->|[->|[->|[->|[->|[->|[->|[->|[->| ->]]]]]]]]].

Lemma trim_end_digits (s : string) : StrOps.all_chars StrOps.is_digit s = true ->
  Str.trim_end_by Str.is_js_ws s = s.
Proof.
  induction s as [|c r IH]; simpl; intros H; [reflexivity|].
  apply andb_true_iff in H as [Hc Hr]. rewrite (C4.ws_not_digit c Hc), andb_false_r.
  rewrite IH by exact Hr. reflexivity.
Qed.

Lemma js_trim_segment (s : string) : StrOps.all_chars StrOps.is_digit s = true ->
  Str.js_trim s = s.
Proof.
  intros H. unfold Str.js_trim, Str.trim_by. destruct s as [|c r]; [reflexivity|].
  simpl Str.trim_start_by. simpl in H. apply andb_true_iff in H as [Hc Hr].
  rewrite (C4.ws_not_digit c Hc). apply trim_end_digits. simpl. rewrite Hc, Hr. reflexivity.
Qed.

Lemma split_exp_digits (s : string) : StrOps.all_chars StrOps.is_digit s = true ->
  JsToNumber.split_exp s = (s, None).
Proof.
  induction s as [|c r IH]; intros H; [reflexivity|].
  simpl in H. apply andb_true_iff in H as [Hc Hr].
  digit_case c Hc; simpl; rewrite IH by exact Hr; reflexivity.
Qed.

Lemma radix_digits_some (s : string) (a : Z) : StrOps.all_chars StrOps.is_digit s = true ->
  JsToNumber.radix_digits 10 s (Some a) =
  Some (fold_left (fun acc d => acc * 10 + d) (digits_prefix s) a).
Proof.
  revert a. induction s as [|c r IH]; intros a H; [reflexivity|].
  simpl in H. apply andb_true_iff in H as [Hc Hr].
  digit_case c Hc; simpl; apply IH; exact Hr.
Qed.

Lemma StringToNumber_segment (s : string) : is_segment s = true ->
  JsToNumber.StringToNumber s = of_Z (segment_value s).
Proof.
  unfold is_segment. intros H. apply andb_true_iff in H as [Hne Hd].
  destruct s as [|c r]; [discriminate|].
  unfold JsToNumber.StringToNumber. rewrite js_trim_segment by exact Hd.
  assert (Hp : JsToNumber.prefixed (String c r) = None).
  { simpl in Hd. apply andb_true_iff in Hd as [Hc Hr].
    digit_case c Hc; try reflexivity.
    destruct r as [|c2 r2]; [reflexivity|].
    simpl in Hr. apply andb_true_iff in Hr as [Hc2 _]. digit_case c2 Hc2; reflexivity. }
  assert (Hu : JsToNumber.unsigned_decimal (String c r) = Some (of_Z (segment_value (String c r)))).
  { unfold JsToNumber.unsigned_decimal. rewrite split_exp_digits by exact Hd.
    simpl in Hd. apply andb_true_iff in Hd as [Hc Hr].
    unfold segment_value, of_Z.
    digit_case c Hc; simpl JsToNumber.unsigned_int; cbn -[JsToNumber.radix_digits round_double];
      rewrite radix_digits_some by exact Hr; reflexivity. }
  simpl String.eqb. cbv iota. rewrite Hp.
  unfold JsToNumber.signed. simpl in Hd. apply andb_true_iff in Hd as [Hc _].
  rewrite C4.split_sign_other;
    [| intros ->; discriminate | intros ->; discriminate].
  cbv iota beta. rewrite Hu. reflexivity.
Qed.

End C7T.

Module C7N.
Import JsNum ReqNum.

Lemma of_Z_repr (n : Z) : 0 <= n ->
  (of_Z n = NInf /\ double_key n = 2 ^ 1024) \/
  (exists y, of_Z n = NFin (inject_Z y) /\ double_key n = y /\ 0 <= y < 2 ^ 1024).
Proof.
  intros Hn. unfold double_key.
  assert (Hp : 2 ^ 53 < 2 ^ 1024) by (vm_compute; reflexivity).
  destruct (Z.le_gt_cases n (2 ^ 53)) as [Hs|Hb].
  - right. exists n. rewrite NumFacts.of_Z_small by lia. rewrite Qfloor_Z.
    split; [reflexivity|]. split; [reflexivity|lia].
  - unfold of_Z. rewrite NumFacts.round_double_inject_Z.
    destruct (Z.ltb_spec 0 n); [|lia].
    destruct (NumFacts.round_pos_big n ltac:(lia)) as [E|[y [Hy E]]]; rewrite E.
    + left. split; reflexivity.
    + right. exists y. rewrite Qfloor_Z.
      split; [reflexivity|]. split; [reflexivity|lia].
Qed.

Lemma Qcompare_inject_Z (x y : Z) : Qcompare (inject_Z x) (inject_Z y) = Z.compare x y.
Proof. unfold Qcompare, inject_Z. simpl. rewrite !Z.mul_1_r. reflexivity. Qed.

Lemma sign_of_int (d : Z) : cmp3 (of_Z d) (NFin 0) = Some (Z.compare d 0).
Proof.
  unfold of_Z. rewrite NumFacts.round_double_inject_Z.
  destruct (Z.ltb_spec 0 d).
  - destruct (NumFacts.round_pos_pos_int d ltac:(lia)) as [E|[y [Hy E]]]; rewrite E.
    + simpl. destruct d; [lia|reflexivity|lia].
    + unfold cmp3. change 0%Q with (inject_Z 0). rewrite Qcompare_inject_Z.
      f_equal. rewrite (proj2 (Z.compare_gt_iff y 0)) by lia.
      rewrite (proj2 (Z.compare_gt_iff d 0)) by lia. reflexivity.
  - destruct (Z.ltb_spec d 0).
    + destruct (NumFacts.round_pos_pos_int (- d) ltac:(lia)) as [E|[y [Hy E]]]; rewrite E.
      * simpl. destruct d; [lia|lia|reflexivity].
      * unfold neg, cmp3. change 0%Q with (inject_Z 0). rewrite <- inject_Z_opp.
        rewrite Qcompare_inject_Z.
        f_equal. rewrite (proj2 (Z.compare_lt_iff (- y) 0)) by lia.
        rewrite (proj2 (Z.compare_lt_iff d 0)) by lia. reflexivity.
    + assert (d = 0) as -> by lia. reflexivity.
Qed.

Lemma sub_int (x y : Z) : sub (NFin (inject_Z x)) (NFin (inject_Z y)) = of_Z (x - y).
Proof.
  unfold sub, neg. rewrite <- inject_Z_opp. rewrite C8.add_int. reflexivity.
Qed.

Lemma pair_compare (x y : Z) : 0 <= x -> 0 <= y ->
  strict_eq (of_Z x) (of_Z y) = (double_key x =? double_key y) /\
  (double_key x <> double_key y ->
   cmp3 (sub (of_Z x) (of_Z y)) (NFin 0) = Some (Z.compare (double_key x) (double_key y))).
Proof.
  intros Hx Hy.
  destruct (of_Z_repr x Hx) as [[Ex Kx]|[a [Ex [Kx Ha]]]];
  destruct (of_Z_repr y Hy) as [[Ey Ky]|[b [Ey [Ky Hb]]]];
  rewrite Ex, Ey, Kx, Ky.
  - split; [reflexivity|]. intros H; congruence.
  - split.
    + unfold strict_eq, cmp3. symmetry. apply Z.eqb_neq. lia.
    + intros _. transitivity (Some Gt); [reflexivity|]. f_equal. symmetry. apply Z.compare_gt_iff. lia.
  - split.
    + unfold strict_eq, cmp3. symmetry. apply Z.eqb_neq. lia.
    + intros _. transitivity (Some Lt); [reflexivity|]. f_equal. symmetry. apply Z.compare_lt_iff. lia.
  - split.
    + unfold strict_eq, cmp3. rewrite Qcompare_inject_Z.
      destruct (Z.compare_spec a b) as [->|C|C].
      * symmetry. apply Z.eqb_refl.
      * symmetry. apply Z.eqb_neq. lia.
      * symmetry. apply Z.eqb_neq. lia.
    + intros Hne. rewrite sub_int, sign_of_int. f_equal.
      destruct (Z.compare_spec a b) as [->|C|C].
      * congruence.
      * rewrite (proj2 (Z.compare_lt_iff (a - b) 0)) by lia. reflexivity.
      * rewrite (proj2 (Z.compare_gt_iff (a - b) 0)) by lia. reflexivity.
Qed.

Lemma first_diff_ints (X Y : nat -> Z) (L : list nat) :
  (forall i, 0 <= X i) -> (forall i, 0 <= Y i) ->
  cmp3 (first_diff (map (fun i => (of_Z (X i), of_Z (Y i))) L)) (NFin 0) =
  Some (fold_right (fun i acc => match Z.compare (double_key (X i)) (double_key (Y i)) with
                                 | Eq => acc | c => c end) Eq L).
Proof.
  intros HX HY. induction L as [|i L IH]; [reflexivity|].
  cbn [map first_diff fold_right].
  destruct (pair_compare (X i) (Y i) (HX i) (HY i)) as [Hs Hc].
  rewrite Hs.
  destruct (Z.eqb_spec (double_key (X i)) (double_key (Y i))) as [E|E].
  - simpl negb. cbv iota. rewrite IH. rewrite E, Z.compare_refl. reflexivity.
  - simpl negb. cbv iota. rewrite (Hc E).
    destruct (Z.compare _ _) eqn:C; try reflexivity.
    apply Z.compare_eq_iff in C. congruence.
Qed.

Lemma nth_map0 (f : Z -> Z) (xs : list Z) (i : nat) : f 0 = 0 ->
  nth i (map f xs) 0 = f (nth i xs 0).
Proof. intros H. rewrite <- H at 1. apply map_nth. Qed.

Lemma compare_parts_ints (xs ys : list Z) :
  Forall (fun n => 0 <= n) xs -> Forall (fun n => 0 <= n) ys ->
  cmp3 (compare_parts (map of_Z xs) (map of_Z ys)) (NFin 0) =
  Some (seg_cmp (map double_key xs) (map double_key ys)).
Proof.
  intros Hx Hy. unfold compare_parts, seg_cmp. rewrite !length_map.
  assert (E : map (fun i => (nth i (map of_Z xs) (NFin 0), nth i (map of_Z ys) (NFin 0)))
                  (seq 0 (Nat.max (length xs) (length ys))) =
              map (fun i => (of_Z (nth i xs 0), of_Z (nth i ys 0)))
                  (seq 0 (Nat.max (length xs) (length ys)))).
  { apply map_ext. intros i. change (NFin 0) with (of_Z 0). rewrite !map_nth. reflexivity. }
  rewrite E. rewrite first_diff_ints.
  - f_equal. clear E. induction (seq 0 (Nat.max (length xs) (length ys))) as [|i L IH]; [reflexivity|].
    cbn [fold_right]. rewrite IH, !(nth_map0 double_key) by reflexivity. reflexivity.
  - intros i. destruct (Nat.lt_ge_cases i (length xs)).
    + apply (proj1 (Forall_nth _ _) Hx); exact H.
    + rewrite nth_overflow by exact H. lia.
  - intros i. destruct (Nat.lt_ge_cases i (length ys)).
    + apply (proj1 (Forall_nth _ _) Hy); exact H.
    + rewrite nth_overflow by exact H. lia.
Qed.

End C7N.

Module C7S.
Import JsNum ReqNum ReqNumView.


Lemma fc_app (X Y : nat -> Z) (L1 L2 : list nat) :
  fc X Y L2 = Eq -> fc X Y (L1 ++ L2) = fc X Y L1.
Proof.
  intros H. unfold fc in *. rewrite fold_right_app, H. reflexivity.
Qed.

Lemma fc_tail (xs ys : list Z) (m k : nat) : (length xs <= m)%nat -> (length ys <= m)%nat ->
  fc (fun i => nth i xs 0) (fun i => nth i ys 0) (seq m k) = Eq.
Proof.
  revert m. induction k as [|k IH]; intros m Hx Hy; [reflexivity|].
  simpl. rewrite !nth_overflow by lia. simpl. apply IH; lia.
Qed.

Lemma seg_cmp_pad (xs ys : list Z) (N : nat) :
  (length xs <= N)%nat -> (length ys <= N)%nat ->
  seg_cmp xs ys = fc (fun i => nth i xs 0) (fun i => nth i ys 0) (seq 0 N).
Proof.
  intros Hx Hy. unfold seg_cmp.
  set (M := Nat.max (length xs) (length ys)).
  replace N with (M + (N - M))%nat by lia. rewrite seq_app.
  rewrite fc_app by (apply fc_tail; lia). reflexivity.
Qed.

Lemma fc_antisym (X Y : nat -> Z) (L : list nat) : fc Y X L = CompOpp (fc X Y L).
Proof.
  induction L as [|i L IH]; [reflexivity|]. simpl. rewrite (Z.compare_antisym (X i) (Y i)).
  destruct (Z.compare (X i) (Y i)); simpl; [exact IH|reflexivity|reflexivity].
Qed.

Lemma fc_trans (X Y W : nat -> Z) (L : list nat) :
  fc X Y L <> Gt -> fc Y W L <> Gt -> fc X W L <> Gt.
Proof.
  induction L as [|i L IH]; simpl; [auto|]. intros H1 H2.
  destruct (Z.compare_spec (X i) (Y i)) as [E1|E1|E1];
  destruct (Z.compare_spec (Y i) (W i)) as [E2|E2|E2]; try congruence.
  - rewrite E1, E2, Z.compare_refl. auto.
  - rewrite (proj2 (Z.compare_lt_iff (X i) (W i))) by lia. discriminate.
  - rewrite (proj2 (Z.compare_lt_iff (X i) (W i))) by lia. discriminate.
  - rewrite (proj2 (Z.compare_lt_iff (X i) (W i))) by lia. discriminate.
Qed.

Lemma seg_cmp_antisym (xs ys : list Z) : seg_cmp ys xs = CompOpp (seg_cmp xs ys).
Proof.
  set (N := Nat.max (length xs) (length ys)).
  rewrite (seg_cmp_pad ys xs N), (seg_cmp_pad xs ys N) by lia. apply fc_antisym.
Qed.

Lemma seg_cmp_trans (xs ys zs : list Z) :
  seg_cmp xs ys <> Gt -> seg_cmp ys zs <> Gt -> seg_cmp xs zs <> Gt.
Proof.
  set (N := Nat.max (length xs) (Nat.max (length ys) (length zs))).
  rewrite (seg_cmp_pad xs ys N), (seg_cmp_pad ys zs N), (seg_cmp_pad xs zs N) by lia.
  apply fc_trans.
Qed.

Lemma segment_order_antisym (a b : string) : segment_order b a = CompOpp (segment_order a b).
Proof.
  unfold segment_order.
  destruct (String.eqb a EmptyString), (String.eqb b EmptyString); try reflexivity.
  apply seg_cmp_antisym.
Qed.

Lemma segment_order_trans (a b c : string) :
  segment_order a b <> Gt -> segment_order b c <> Gt -> segment_order a c <> Gt.
Proof.
  unfold segment_order.
  destruct (String.eqb a EmptyString), (String.eqb b EmptyString), (String.eqb c EmptyString);
    try congruence.
  apply seg_cmp_trans.
Qed.

Lemma valid_segments (a : string) : isValidRequirementNumber a = true -> a <> EmptyString ->
  forallb is_segment (StrOps.split_dot a) = true.
Proof.
  unfold isValidRequirementNumber. intros H Hne.
  apply orb_true_iff in H as [H|H]; [|exact H].
  apply String.eqb_eq in H. congruence.
Qed.

Lemma parts_of_valid (a : string) : isValidRequirementNumber a = true -> a <> EmptyString ->
  map JsToNumber.StringToNumber (StrOps.split_dot a) = map of_Z (segments a).
Proof.
  intros H Hne. pose proof (valid_segments a H Hne) as Hs.
  unfold segments. rewrite map_map. apply map_ext_in. intros s Hin.
  apply C7T.StringToNumber_segment. rewrite forallb_forall in Hs. apply Hs, Hin.
Qed.

Lemma segments_nonneg (a : string) : Forall (fun n => 0 <= n) (segments a).
Proof.
  unfold segments. apply Forall_map. apply Forall_forall. intros s _. apply C8.segment_value_nonneg.
Qed.

Lemma compare_segment_order (a b : string) :
  isValidRequirementNumber a = true -> isValidRequirementNumber b = true ->
  cmp3 (compareRequirementNumbers a b) (NFin 0) = Some (segment_order a b).
Proof.
  intros Ha Hb. unfold compareRequirementNumbers, segment_order.
  destruct (String.eqb_spec a EmptyString) as [Ea|Ea];
  destruct (String.eqb_spec b EmptyString) as [Eb|Eb]; try reflexivity.
  simpl andb. cbv iota.
  rewrite (parts_of_valid a Ha Ea), (parts_of_valid b Hb Eb).
  apply C7N.compare_parts_ints; apply segments_nonneg.
Qed.

Lemma double_key_small (n : Z) : 0 <= n <= 2 ^ 53 -> double_key n = n.
Proof. intros H. unfold double_key. rewrite NumFacts.of_Z_small by exact H. apply Qfloor_Z. Qed.

Lemma map_double_key_small (xs : list Z) : Forall (fun n => 0 <= n <= 2 ^ 53) xs ->
  map double_key xs = xs.
Proof.
  induction 1 as [|x xs Hx _ IH]; [reflexivity|]. simpl. rewrite double_key_small by exact Hx.
  rewrite IH. reflexivity.
Qed.

Lemma le_of_cmp3 (x : number) (c : comparison) : cmp3 x (NFin 0) = Some c ->
  le x (NFin 0) = match c with Gt => false | _ => true end.
Proof. intros H. unfold le. rewrite H. destruct c; reflexivity. Qed.

End C7S.

Module C7.
Import JsNum ReqNum.

(** C7 (amended): on valid requirement numbers, [compareRequirementNumbers]
    agrees in sign with [segment_order]: the empty string is after every
    other one, and two non-empty numbers compare segment by segment as
    doubles, missing segments counting as 0. When every segment is at most
    2^53, the doubles are exact and this is the plain numeric segment-wise
    comparison. Swapping the arguments flips the sign of the result, the
    relation compare a b <= 0 is total and transitive, so it is a total
    preorder. It is not antisymmetric: distinct numbers such as 1 and 1.0
    compare equal. *)
Lemma compareRequirementNumbers_amended :
  compareRequirementNumbers "" "" = NFin 0 /\
  (forall x, isValidRequirementNumber x = true -> x <> EmptyString ->
     lt (NFin 0) (compareRequirementNumbers "" x) = true) /\
  (forall a b, isValidRequirementNumber a = true -> isValidRequirementNumber b = true ->
     cmp3 (compareRequirementNumbers a b) (NFin 0) = Some (segment_order a b)) /\
  (forall a b, isValidRequirementNumber a = true -> isValidRequirementNumber b = true ->
     a <> EmptyString -> b <> EmptyString ->
     Forall (fun n => n <= 2 ^ 53) (segments a) -> Forall (fun n => n <= 2 ^ 53) (segments b) ->
     cmp3 (compareRequirementNumbers a b) (NFin 0) = Some (seg_cmp (segments a) (segments b))) /\
  (forall a b, isValidRequirementNumber a = true -> isValidRequirementNumber b = true ->
     cmp3 (compareRequirementNumbers b a) (NFin 0) =
     option_map CompOpp (cmp3 (compareRequirementNumbers a b) (NFin 0)) /\
     (le (compareRequirementNumbers a b) (NFin 0) ||
      le (compareRequirementNumbers b a) (NFin 0)) = true) /\
  (forall a b c, isValidRequirementNumber a = true -> isValidRequirementNumber b = true ->
     isValidRequirementNumber c = true ->
     le (compareRequirementNumbers a b) (NFin 0) = true ->
     le (compareRequirementNumbers b c) (NFin 0) = true ->
     le (compareRequirementNumbers a c) (NFin 0) = true).
Proof.
  split; [reflexivity|]. split.
  { intros x _ Hx. unfold compareRequirementNumbers.
    destruct (String.eqb_spec x EmptyString); [congruence|]. reflexivity. }
  split; [exact C7S.compare_segment_order|]. split.
  { intros a b Ha Hb Ea Eb Sa Sb. rewrite C7S.compare_segment_order by assumption.
    unfold segment_order.
    destruct (String.eqb_spec a EmptyString); [congruence|].
    destruct (String.eqb_spec b EmptyString); [congruence|].
    rewrite !C7S.map_double_key_small; [reflexivity| |];
      apply Forall_forall; intros k Hk;
      first [ pose proof (proj1 (Forall_forall _ _) (C7S.segments_nonneg a) k Hk);
              pose proof (proj1 (Forall_forall _ _) Sa k Hk)
            | pose proof (proj1 (Forall_forall _ _) (C7S.segments_nonneg b) k Hk);
              pose proof (proj1 (Forall_forall _ _) Sb k Hk) ]; cbv beta in *; lia. }
  split.
  { intros a b Ha Hb. rewrite !C7S.compare_segment_order by assumption.
    rewrite (C7S.segment_order_antisym a b). split; [reflexivity|].
    rewrite (C7S.le_of_cmp3 _ _ (C7S.compare_segment_order a b Ha Hb)).
    rewrite (C7S.le_of_cmp3 _ _ (C7S.compare_segment_order b a Hb Ha)).
    rewrite (C7S.segment_order_antisym a b). destruct (segment_order a b); reflexivity. }
  intros a b c Ha Hb Hc H1 H2.
  rewrite (C7S.le_of_cmp3 _ _ (C7S.compare_segment_order a b Ha Hb)) in H1.
  rewrite (C7S.le_of_cmp3 _ _ (C7S.compare_segment_order b c Hb Hc)) in H2.
  rewrite (C7S.le_of_cmp3 _ _ (C7S.compare_segment_order a c Ha Hc)).
  assert (T : segment_order a c <> Gt).
  { apply (C7S.segment_order_trans a b c).
    - destruct (segment_order a b); congruence.
    - destruct (segment_order b c); congruence. }
  destruct (segment_order a c); congruence.
Qed.

Lemma compareRequirementNumbers_amended_witness :
  cmp3 (compareRequirementNumbers "1" "1.1") (NFin 0) = Some Lt /\
  lt (NFin 0) (compareRequirementNumbers "" "2.3") = true /\
  le (compareRequirementNumbers "1.9" "2") (NFin 0) = true.
Proof.
  destruct compareRequirementNumbers_amended as [_ [Hx [Ho [Hs [Ht Htr]]]]].
  split; [|split].
  - rewrite (Hs "1"%string "1.1"%string eq_refl eq_refl ltac:(discriminate) ltac:(discriminate));
      [vm_compute; reflexivity | |];
      apply Forall_forall; intros k Hk; vm_compute in Hk;
      repeat (destruct Hk as [<-|Hk]; [vm_compute; discriminate|]); destruct Hk.
  - apply Hx; [reflexivity | discriminate].
  - apply (Htr _ "1.10"%string); vm_compute; reflexivity.
Defined.

(** C7 (counterexample): the valid numbers 1 and 1.0 differ yet compare as
    0, so the comparator is not a total order on strings. And a segment of 16
    digits is compared after rounding to a double: 9007199254740993 and
    9007199254740992 differ as integers, yet compare as 0. *)
Lemma compareRequirementNumbers_counterexample :
  isValidRequirementNumber "1" = true /\ isValidRequirementNumber "1.0" = true /\
  compareRequirementNumbers "1" "1.0" = NFin 0 /\
  isValidRequirementNumber "9007199254740993" = true /\
  seg_cmp (segments "9007199254740993") (segments "9007199254740992") = Gt /\
  compareRequirementNumbers "9007199254740993" "9007199254740992" = NFin 0.
Proof. vm_compute. repeat split. Qed.

End C7.

Module SortFacts.

Section Generic.
Context {A : Type} (gt : A -> A -> bool) (P : A -> Prop).
Hypothesis gt_asym : forall x y, P x -> P y -> gt x y = true -> gt y x = false.
Hypothesis ngt_trans : forall x y z, P x -> P y -> P z ->
  gt x y = false -> gt y z = false -> gt x z = false.

Lemma insert_perm (x : A) (l : list A) : Permutation (JsSort.insert gt x l) (x :: l).
Proof.
  induction l as [|y ys IH]; simpl; [reflexivity|].
  destruct (gt y x); [reflexivity|].
  rewrite IH. apply perm_swap.
Qed.

Lemma fold_insert_perm (l acc : list A) :
  Permutation (fold_left (fun acc x => JsSort.insert gt x acc) l acc) (l ++ acc).
Proof.
  revert acc. induction l as [|x l IH]; intros acc; simpl; [reflexivity|].
  rewrite IH, insert_perm. symmetry. apply Permutation_middle.
Qed.

Lemma sort_perm (l : list A) : Permutation (JsSort.sort gt l) l.
Proof. unfold JsSort.sort. rewrite fold_insert_perm, app_nil_r. reflexivity. Qed.

Lemma Forall_perm (l l' : list A) : Permutation l l' -> Forall P l' -> Forall P l.
Proof.
  intros Hp HF. apply Forall_forall. intros z Hz.
  apply (proj1 (Forall_forall _ _) HF). apply (Permutation_in _ Hp Hz).
Qed.

Lemma insert_sorted (x : A) (l : list A) : P x -> Forall P l ->
  StronglySorted (fun a b => gt a b = false) l ->
  StronglySorted (fun a b => gt a b = false) (JsSort.insert gt x l).
Proof.
  intros Px. induction l as [|y ys IH]; intros HF HS; simpl.
  - repeat constructor.
  - inversion HF as [|? ? Py HFys]; subst. inversion HS as [|? ? HSys Hys]; subst.
    destruct (gt y x) eqn:Eyx.
    + constructor; [exact HS|]. constructor.
      * apply gt_asym; assumption.
      * apply Forall_forall. intros z Hz.
        pose proof (proj1 (Forall_forall _ _) HFys z Hz).
        pose proof (proj1 (Forall_forall _ _) Hys z Hz).
        apply (ngt_trans x y z); auto.
    + constructor; [apply IH; assumption|].
      apply Forall_forall. intros z Hz.
      apply (Permutation_in _ (insert_perm x ys)) in Hz. destruct Hz as [<-|Hz]; [exact Eyx|].
      apply (proj1 (Forall_forall _ _) Hys z Hz).
Qed.

Lemma fold_insert_sorted (l acc : list A) : Forall P l -> Forall P acc ->
  StronglySorted (fun a b => gt a b = false) acc ->
  StronglySorted (fun a b => gt a b = false) (fold_left (fun acc x => JsSort.insert gt x acc) l acc).
Proof.
  revert acc. induction l as [|x l IH]; intros acc Hl Hacc HS; simpl; [exact HS|].
  inversion Hl as [|? ? Px Hl']; subst. apply IH; [exact Hl'| |].
  - apply (Forall_perm _ _ (insert_perm x acc)). constructor; assumption.
  - apply insert_sorted; assumption.
Qed.

Lemma sort_sorted (l : list A) : Forall P l ->
  StronglySorted (fun a b => gt a b = false) (JsSort.sort gt l).
Proof. intros H. apply fold_insert_sorted; [exact H|constructor|constructor]. Qed.

End Generic.

Lemma StronglySorted_weaken {A} (P : A -> Prop) (R R' : A -> A -> Prop) (l : list A) :
  (forall x y, P x -> P y -> R x y -> R' x y) -> Forall P l ->
  StronglySorted R l -> StronglySorted R' l.
Proof.
  intros HR HF HS. induction HS as [|a l HS IH Ha]; constructor.
  - inversion HF; subst. apply IH. assumption.
  - inversion HF as [|? ? Pa Pl]; subst. apply Forall_forall. intros z Hz.
    apply HR; [exact Pa | apply (proj1 (Forall_forall _ _) Pl z Hz) |].
    apply (proj1 (Forall_forall _ _) Ha z Hz).
Qed.

End SortFacts.

Module C9.
Import JsNum Exporter ExportView.

Lemma lt_zero (x : number) :
  lt (NFin 0) x = match cmp3 x (NFin 0) with Some Gt => true | _ => false end.
Proof.
  destruct x as [q| | |]; try reflexivity. unfold lt, cmp3. rewrite <- (Qcompare_antisym q 0).
  destruct (Qcompare q 0); reflexivity.
Qed.

Lemma row_gt_order (a b : CapabilityMatrixRow) :
  ReqNum.isValidRequirementNumber (row_requirementNumber a) = true ->
  ReqNum.isValidRequirementNumber (row_requirementNumber b) = true ->
  row_gt a b = match ReqNum.segment_order (row_requirementNumber a) (row_requirementNumber b)
               with Gt => true | _ => false end.
Proof.
  intros Ha Hb. unfold row_gt. rewrite lt_zero, C7S.compare_segment_order by assumption.
  reflexivity.
Qed.


Lemma row_gt_asym (x y : CapabilityMatrixRow) : valid_row x -> valid_row y ->
  row_gt x y = true -> row_gt y x = false.
Proof.
  unfold valid_row. intros Hx Hy. rewrite !row_gt_order by assumption.
  rewrite (C7S.segment_order_antisym (row_requirementNumber x)).
  destruct (ReqNum.segment_order _ _); simpl; congruence.
Qed.

Lemma row_ngt_trans (x y z : CapabilityMatrixRow) : valid_row x -> valid_row y -> valid_row z ->
  row_gt x y = false -> row_gt y z = false -> row_gt x z = false.
Proof.
  unfold valid_row. intros Hx Hy Hz. rewrite !row_gt_order by assumption. intros H1 H2.
  assert (T : ReqNum.segment_order (row_requirementNumber x) (row_requirementNumber z) <> Gt).
  { apply (C7S.segment_order_trans _ (row_requirementNumber y)).
    - destruct (ReqNum.segment_order (row_requirementNumber x) (row_requirementNumber y));
        congruence.
    - destruct (ReqNum.segment_order (row_requirementNumber y) (row_requirementNumber z));
        congruence. }
  destruct (ReqNum.segment_order (row_requirementNumber x) (row_requirementNumber z));
    congruence.
Qed.

Lemma last_row (n : Z) : 0 <= n -> 10 + n <= 2 ^ 53 ->
  toString (add (of_Z (10 + n)) (NFin (-1))) = decimal (9 + n).
Proof.
  intros H0 H1. rewrite NumFacts.of_Z_small by lia.
  change (NFin (-1)) with (NFin (inject_Z (-1))). rewrite C8.add_int.
  replace (10 + n + -1) with (9 + n) by lia. apply NumFacts.toString_of_Z. lia.
Qed.

(** C9: for a matrix whose requirement numbers are valid (and that has at
    most 2^53 - 10 rows), the export's data rows are the matrix rows, one
    each, sorted by [compareRequirementNumbers] (the sort reads no display
    order), written from spreadsheet row 10 on after the fixed preamble.
    Conditional formatting is added
    only for a non-empty matrix, over C10:C(9 + row count), with the rules
    for the scores 3, 2, 1 and 0 in that order. *)
Lemma exportMatrixToExcel_rows (matrix : CapabilityMatrixWithRows) (metadata : ExportMetadata) :
  Forall valid_row (m_rows matrix) ->
  Z.of_nat (length (m_rows matrix)) + 10 <= 2 ^ 53 ->
  let sortedRows := JsSort.sort row_gt (m_rows matrix) in
  let sheet := exportMatrixToExcel matrix metadata in
  Permutation sortedRows (m_rows matrix) /\
  StronglySorted (fun a b => le (ReqNum.compareRequirementNumbers (row_requirementNumber a)
                                                               (row_requirementNumber b))
                                (NFin 0) = true) sortedRows /\
  sh_values sheet = preamble metadata ++ data_rows 10 sortedRows /\
  sh_condfmt sheet =
    match m_rows matrix with
    | [] => []
    | _ => [{| cf_ref := "C10:C" +++ decimal (9 + Z.of_nat (length (m_rows matrix)));
               cf_rules := score_rules |}]
    end /\
  map cf_formulae score_rules = [["3"%string]; ["2"%string]; ["1"%string]; ["0"%string]].
Proof.
  intros HV HL sortedRows sheet.
  assert (Hp : Permutation sortedRows (m_rows matrix))
    by apply SortFacts.sort_perm.
  split; [exact Hp|]. split.
  { apply (SortFacts.StronglySorted_weaken valid_row (fun a b => row_gt a b = false)).
    - unfold valid_row. intros x y Hx Hy H. rewrite row_gt_order in H by assumption.
      rewrite (C7S.le_of_cmp3 _ _ (C7S.compare_segment_order _ _ Hx Hy)).
      destruct (ReqNum.segment_order _ _); congruence.
    - apply (SortFacts.Forall_perm valid_row _ _ Hp HV).
    - apply (SortFacts.sort_sorted row_gt valid_row row_gt_asym row_ngt_trans). exact HV. }
  split; [reflexivity|]. split; [|reflexivity].
  unfold sheet, exportMatrixToExcel. fold sortedRows. cbn [sh_condfmt].
  rewrite (Permutation_length Hp).
  destruct (m_rows matrix) as [|r rs] eqn:E; [reflexivity|].
  cbn [length] in *. rewrite last_row by lia.
  destruct (Z.ltb_spec 0 (Z.of_nat (S (length rs)))); [reflexivity|lia].
Qed.

End C9.

Module C9W.
Import JsNum Exporter.

Lemma exportMatrixToExcel_rows_witness :
  let mk (n : string) :=
    {| row_id := n; row_matrixId := "m"; row_requirementNumber := n;
       row_requirements := "r"; row_experienceAndCapability := Some 2;
       row_pastPerformance := ""; row_comments := ""; row_rowOrder := 0 |} in
  let matrix :=
    {| m_id := "m"; m_name := "Acme"; m_isImported := false; m_sourceFile := None;
       m_parentMatrixId := None; m_createdAt := ""; m_updatedAt := "";
       m_rows := [mk "1.10"%string; mk "2"%string; mk "1.9"%string] |} in
  let md := {| companyName := "Acme"; date := "2026-01-01"; version := "1" |} in
  map row_requirementNumber (JsSort.sort row_gt (m_rows matrix)) =
    ["1.9"%string; "1.10"%string; "2"%string] /\
  sh_condfmt (exportMatrixToExcel matrix md) =
    [{| cf_ref := "C10:C12"; cf_rules := score_rules |}].
Proof.
  intros mk matrix md.
  destruct (C9.exportMatrixToExcel_rows matrix md) as [_ [_ [_ [Hc _]]]].
  - repeat constructor.
  - vm_compute. discriminate.
  - split; [vm_compute; reflexivity|]. rewrite Hc. vm_compute. reflexivity.
Defined.

End C9W.


Module MapFacts.

Lemma get_app_one {V} (k k' : string) (v : V) (m : JsMap.t V) :
  JsMap.get k (m ++ [(k', v)]) =
  match JsMap.get k m with Some w => Some w | None => if String.eqb k k' then Some v else None end.
Proof.
  induction m as [|[k1 v1] m IH]; simpl; [reflexivity|].
  destruct (String.eqb k k1); [reflexivity|exact IH].
Qed.

Lemma get_map {V} (F : string -> V) (k : string) (D : list string) :
  JsMap.get k (map (fun k' => (k', F k')) D) =
  if existsb (String.eqb k) D then Some (F k) else None.
Proof.
  induction D as [|d D IH]; simpl; [reflexivity|].
  destruct (String.eqb_spec k d) as [->|]; [reflexivity|exact IH].
Qed.

Lemma get_set_existing {V} (mid k : string) (v : V) (m : JsMap.t V) :
  JsMap.get mid (JsMap.set_existing k v m) =
  if String.eqb mid k then option_map (fun _ => v) (JsMap.get k m) else JsMap.get mid m.
Proof.
  induction m as [|[k1 v1] m IH]; simpl.
  - destruct (String.eqb mid k); reflexivity.
  - destruct (String.eqb_spec k k1) as [->|Hk]; simpl.
    + destruct (String.eqb mid k1); reflexivity.
    + rewrite IH. destruct (String.eqb_spec mid k) as [->|Hm].
      * destruct (String.eqb_spec k k1); [congruence|reflexivity].
      * reflexivity.
Qed.

Lemma get_set {V} (mid k : string) (v : V) (m : JsMap.t V) :
  JsMap.get mid (JsMap.set k v m) = if String.eqb mid k then Some v else JsMap.get mid m.
Proof.
  unfold JsMap.set. destruct (JsMap.get k m) as [w|] eqn:E.
  - rewrite get_set_existing, E. reflexivity.
  - rewrite get_app_one. destruct (String.eqb_spec mid k) as [->|Hm].
    + rewrite E. reflexivity.
    + destruct (JsMap.get mid m); reflexivity.
Qed.

Lemma set_new {V} (k : string) (v : V) (m : JsMap.t V) :
  JsMap.get k m = None -> JsMap.set k v m = m ++ [(k, v)].
Proof. intros H. unfold JsMap.set. rewrite H. reflexivity. Qed.

Lemma set_old {V} (k : string) (v w : V) (m : JsMap.t V) :
  JsMap.get k m = Some w -> JsMap.set k v m = JsMap.set_existing k v m.
Proof. intros H. unfold JsMap.set. rewrite H. reflexivity. Qed.

Lemma set_existing_map {V} (F : string -> V) (k : string) (v : V) (D : list string) :
  NoDup D ->
  JsMap.set_existing k v (map (fun k' => (k', F k')) D) =
  map (fun k' => (k', if String.eqb k k' then v else F k')) D.
Proof.
  induction 1 as [|d D Hd HD IH]; simpl; [reflexivity|].
  destruct (String.eqb_spec k d) as [->|Hk].
  - f_equal. apply map_ext_in. intros k' Hk'.
    destruct (String.eqb_spec d k'); [subst; contradiction|reflexivity].
  - f_equal. exact IH.
Qed.

Lemma set_existing_none {V} (k : string) (v : V) (m1 m2 : JsMap.t V) :
  JsMap.get k m1 = None ->
  JsMap.set_existing k v (m1 ++ m2) = m1 ++ JsMap.set_existing k v m2.
Proof.
  induction m1 as [|[k1 v1] m1 IH]; simpl; intros H; [reflexivity|].
  destruct (String.eqb k k1); [discriminate|]. rewrite IH by exact H. reflexivity.
Qed.

End MapFacts.

Module DedupFacts.

Lemma existsb_In (x : string) (l : list string) : existsb (String.eqb x) l = true <-> In x l.
Proof.
  rewrite existsb_exists. split.
  - intros [y [Hy E]]. apply String.eqb_eq in E. subst. exact Hy.
  - intros H. exists x. split; [exact H | apply String.eqb_refl].
Qed.

Lemma dedup_seen_snoc (seen l : list string) (x : string) :
  dedup_seen seen (l ++ [x]) =
  dedup_seen seen l ++ (if existsb (String.eqb x) (seen ++ l) then [] else [x]).
Proof.
  revert seen. induction l as [|y l IH]; intros seen; simpl.
  - rewrite app_nil_r. destruct (existsb (String.eqb x) seen); reflexivity.
  - destruct (existsb (String.eqb y) seen) eqn:Ey.
    + rewrite IH. f_equal. rewrite !existsb_app. simpl.
      destruct (String.eqb_spec x y) as [->|]; [rewrite Ey; reflexivity|reflexivity].
    + rewrite IH. simpl. f_equal. f_equal. rewrite !existsb_app. simpl.
      destruct (String.eqb x y), (existsb (String.eqb x) seen), (existsb (String.eqb x) l);
        reflexivity.
Qed.

Lemma dedup_first_snoc (l : list string) (x : string) :
  dedup_first (l ++ [x]) = dedup_first l ++ (if existsb (String.eqb x) l then [] else [x]).
Proof. unfold dedup_first. apply dedup_seen_snoc. Qed.

Lemma dedup_first_In (l : list string) (k : string) : In k (dedup_first l) <-> In k l.
Proof.
  induction l as [|x l IH] using rev_ind; [reflexivity|].
  rewrite dedup_first_snoc. destruct (existsb (String.eqb x) l) eqn:E.
  - rewrite app_nil_r, IH, in_app_iff. apply existsb_In in E. simpl.
    split; [tauto|]. intros [H|[<-|[]]]; assumption.
  - rewrite !in_app_iff, IH. reflexivity.
Qed.

Lemma dedup_first_NoDup (l : list string) : NoDup (dedup_first l).
Proof.
  induction l as [|x l IH] using rev_ind; [constructor|].
  rewrite dedup_first_snoc. destruct (existsb (String.eqb x) l) eqn:E.
  - rewrite app_nil_r. exact IH.
  - apply NoDup_app; [exact IH | repeat constructor; intros [] |].
    intros a Ha [<-|[]]. apply (proj1 (dedup_first_In l x)) in Ha.
    apply (proj2 (existsb_In x l)) in Ha. congruence.
Qed.

End DedupFacts.

Module C3F.
Import Comparison ComparisonView.

Lemma find_snoc {A} (f : A -> bool) (l : list A) (q : A) :
  find f (l ++ [q]) = match find f l with Some x => Some x | None => if f q then Some q else None end.
Proof.
  induction l as [|x l IH]; simpl; [destruct (f q); reflexivity|].
  destruct (f x); [reflexivity|exact IH].
Qed.

Lemma scan_keys_snoc (sc : list (string * CapabilityMatrixRow)) (q : string * CapabilityMatrixRow) :
  scan_keys (sc ++ [q]) =
  scan_keys sc ++ (if String.eqb (row_key (snd q)) EmptyString then [] else [row_key (snd q)]).
Proof.
  unfold scan_keys. rewrite map_app, filter_app. f_equal. simpl.
  destruct (String.eqb (row_key (snd q)) EmptyString); reflexivity.
Qed.

Lemma in_scan_keys (sc : list (string * CapabilityMatrixRow)) (k : string) :
  In k (scan_keys sc) <-> k <> EmptyString /\ exists q, In q sc /\ row_key (snd q) = k.
Proof.
  unfold scan_keys. rewrite filter_In, in_map_iff. split.
  - intros [[q [Hq Hin]] Hk]. split.
    + intros ->. discriminate.
    + exists q. split; assumption.
  - intros [Hk [q [Hin Hq]]]. split.
    + exists q. split; assumption.
    + destruct (String.eqb_spec k EmptyString); [contradiction|reflexivity].
Qed.

Lemma first_occurrence_in (sc : list (string * CapabilityMatrixRow)) (k : string) :
  In k (scan_keys sc) -> exists q, first_occurrence sc k = Some q.
Proof.
  intros H. apply in_scan_keys in H as [_ [q [Hin Hq]]].
  unfold first_occurrence. destruct (find _ sc) as [q'|] eqn:E; [exists q'; reflexivity|].
  exfalso. pose proof (find_none _ _ E q Hin) as F. cbv beta in F.
  rewrite Hq, String.eqb_refl in F. discriminate.
Qed.

Lemma cells_fold_id (sc : list (string * CapabilityMatrixRow)) (k : string) c :
  (forall q, In q sc -> row_key (snd q) <> k) ->
  fold_left (fun c q => if String.eqb (row_key (snd q)) k
                        then JsMap.set (fst q) (cell_of_row (snd q)) c else c) sc c = c.
Proof.
  revert c. induction sc as [|q sc IH]; intros c H; simpl; [reflexivity|].
  destruct (String.eqb_spec (row_key (snd q)) k) as [E|E].
  - exfalso. apply (H q); [left; reflexivity | exact E].
  - apply IH. intros q' Hq'. apply H. right. exact Hq'.
Qed.

Lemma not_in_keys (sc : list (string * CapabilityMatrixRow)) (k : string) :
  k <> EmptyString -> ~ In k (scan_keys sc) ->
  first_occurrence sc k = None /\ cells_of sc k = [].
Proof.
  intros Hk Hn.
  assert (H : forall q, In q sc -> row_key (snd q) <> k).
  { intros q Hq E. apply Hn. apply in_scan_keys. split; [exact Hk|]. exists q. split; assumption. }
  split.
  - unfold first_occurrence. destruct (find _ sc) as [q|] eqn:E; [|reflexivity].
    apply find_some in E as [Hin Heq]. apply String.eqb_eq in Heq. exfalso. exact (H q Hin Heq).
  - apply cells_fold_id. exact H.
Qed.

Lemma comp_row_other (sc : list (string * CapabilityMatrixRow)) q (k : string) :
  row_key (snd q) <> k -> comp_row (sc ++ [q]) k = comp_row sc k.
Proof.
  intros H. unfold comp_row, first_occurrence, cells_of.
  rewrite find_snoc, fold_left_app. simpl.
  destruct (String.eqb_spec (row_key (snd q)) k) as [E|E]; [contradiction|].
  destruct (find _ sc); reflexivity.
Qed.

Lemma comp_row_same (sc : list (string * CapabilityMatrixRow)) (mid : string) r :
  comp_row (sc ++ [(mid, r)]) (row_key r) =
  {| cr_requirement := match first_occurrence sc (row_key r) with
                       | Some q => Str.js_trim (row_requirements (snd q))
                       | None => Str.js_trim (row_requirements r)
                       end;
     cr_normalizedRequirement := row_key r;
     cr_cells := JsMap.set mid (cell_of_row r) (cells_of sc (row_key r)) |}.
Proof.
  unfold comp_row, first_occurrence, cells_of.
  rewrite find_snoc, fold_left_app. simpl. rewrite String.eqb_refl.
  destruct (find _ sc); reflexivity.
Qed.

Lemma number_from_snoc (n : Z) (D : list string) (k : string) :
  number_from n (D ++ [k]) = number_from n D ++ [(k, n + Z.of_nat (length D))].
Proof.
  revert n. induction D as [|d D IH]; intros n; cbn [app number_from length].
  - rewrite Z.add_0_r. reflexivity.
  - rewrite IH, Nat2Z.inj_succ.
    replace (n + Z.succ (Z.of_nat (length D))) with (n + 1 + Z.of_nat (length D)) by lia.
    reflexivity.
Qed.

Lemma get_number_from_none (n : Z) (D : list string) (k : string) :
  ~ In k D -> JsMap.get k (number_from n D) = None.
Proof.
  revert n. induction D as [|d D IH]; intros n H; simpl; [reflexivity|].
  destruct (String.eqb_spec k d) as [->|]; [exfalso; apply H; left; reflexivity|].
  apply IH. intros Hin. apply H. right. exact Hin.
Qed.


Lemma keys_nonempty (sc : list (string * CapabilityMatrixRow)) (k : string) :
  In k (dedup_first (scan_keys sc)) -> k <> EmptyString.
Proof. intros H. apply DedupFacts.dedup_first_In, in_scan_keys in H. apply H. Qed.

Lemma visit_row_inv (sc : list (string * CapabilityMatrixRow)) (st : BuildState) mid r :
  inv sc st -> inv (sc ++ [(mid, r)]) (visit_row mid st r).
Proof.
  intros [Hr [Ho Hc]]. unfold inv, visit_row.
  change (normalizeRequirement (row_requirements r)) with (row_key r).
  rewrite scan_keys_snoc. cbn [snd].
  set (D := dedup_first (scan_keys sc)) in *.
  destruct (String.eqb_spec (row_key r) EmptyString) as [Ek|Ek].
  - (* empty text: the state is unchanged *)
    rewrite app_nil_r. fold D. split; [|split; assumption].
    rewrite Hr. apply map_ext_in. intros k Hk. f_equal. symmetry. apply comp_row_other.
    cbn [snd]. rewrite Ek. intros E. apply (keys_nonempty sc k Hk). congruence.
  - rewrite DedupFacts.dedup_first_snoc. fold D.
    rewrite Hr, MapFacts.get_map.
    destruct (existsb (String.eqb (row_key r)) (scan_keys sc)) eqn:Ein.
    + (* seen key *)
      apply DedupFacts.existsb_In in Ein.
      assert (EinD : In (row_key r) D) by (apply DedupFacts.dedup_first_In; exact Ein).
      assert (Eb : existsb (String.eqb (row_key r)) D = true) by (apply DedupFacts.existsb_In; exact EinD).
      rewrite Eb, app_nil_r. cbv beta iota zeta. cbn [bs_requirementMap bs_orderMap bs_order].
      split; [|split; assumption].
      unfold JsMap.set. rewrite MapFacts.get_map, Eb.
      rewrite MapFacts.set_existing_map by apply DedupFacts.dedup_first_NoDup.
      apply map_ext_in. intros k Hk. f_equal.
      destruct (String.eqb_spec (row_key r) k) as [<-|Hne].
      * rewrite comp_row_same. destruct (first_occurrence_in sc (row_key r) Ein) as [q Eq].
        unfold comp_row. rewrite Eq. reflexivity.
      * symmetry. apply comp_row_other. exact Hne.
    + (* new key *)
      assert (Nin : ~ In (row_key r) (scan_keys sc)).
      { intros H. apply DedupFacts.existsb_In in H. congruence. }
      assert (NinD : ~ In (row_key r) D).
      { intros H. apply Nin. apply DedupFacts.dedup_first_In. exact H. }
      assert (Eb : existsb (String.eqb (row_key r)) D = false).
      { destruct (existsb _ D) eqn:E; [|reflexivity]. apply DedupFacts.existsb_In in E. contradiction. }
      rewrite Eb. cbv beta iota zeta. cbn [bs_requirementMap bs_orderMap bs_order].
      destruct (not_in_keys sc (row_key r) Ek Nin) as [Hf Hcl].
      split; [|split].
      * rewrite (MapFacts.set_new _ _ (map _ D)) by (rewrite MapFacts.get_map, Eb; reflexivity).
        rewrite MapFacts.set_old with (w := {| cr_requirement := Str.js_trim (row_requirements r);
            cr_normalizedRequirement := row_key r; cr_cells := [] |})
          by (rewrite MapFacts.get_app_one, MapFacts.get_map, Eb, String.eqb_refl; reflexivity).
        rewrite MapFacts.set_existing_none by (rewrite MapFacts.get_map, Eb; reflexivity).
        cbn [JsMap.set_existing]. rewrite String.eqb_refl.
        rewrite map_app. cbn [map]. f_equal.
        -- apply map_ext_in. intros k Hk. f_equal. symmetry. apply comp_row_other.
           intros E. apply NinD. cbn [snd] in E. rewrite E. exact Hk.
        -- rewrite comp_row_same, Hf, Hcl. reflexivity.
      * rewrite Ho. unfold JsMap.set. rewrite get_number_from_none by exact NinD.
        rewrite number_from_snoc, Hc. reflexivity.
      * rewrite Hc, length_app. simpl. lia.
Qed.

End C3F.

Module C3G.
Import Comparison ComparisonView.

Lemma fold_left_map' {A B C} (f : A -> B -> A) (g : C -> B) (l : list C) (a : A) :
  fold_left f (map g l) a = fold_left (fun a x => f a (g x)) l a.
Proof. revert a. induction l as [|x l IH]; intros a; simpl; [reflexivity|]. apply IH. Qed.

Lemma fold_matrices (ms : list CapabilityMatrixWithRows) (st : BuildState) :
  fold_left visit_matrix ms st = fold_left (fun st q => visit_row (fst q) st (snd q)) (scan ms) st.
Proof.
  revert st. induction ms as [|m ms IH]; intros st; [reflexivity|].
  cbn [fold_left scan flat_map]. fold (scan ms). rewrite fold_left_app, fold_left_map'.
  rewrite IH. reflexivity.
Qed.

Lemma inv_fold (sc : list (string * CapabilityMatrixRow)) :
  inv sc (fold_left (fun st q => visit_row (fst q) st (snd q)) sc
                {| bs_requirementMap := []; bs_orderMap := []; bs_order := 0 |}).
Proof.
  induction sc as [|[mid r] sc IH] using rev_ind.
  - split; [reflexivity|split; reflexivity].
  - rewrite fold_left_app. cbn [fold_left fst snd]. apply C3F.visit_row_inv. exact IH.
Qed.

Lemma get_number_from_in (n : Z) (D : list string) (k : string) :
  In k D -> exists v, JsMap.get k (number_from n D) = Some v /\ n <= v.
Proof.
  revert n. induction D as [|d D IH]; intros n H; [destruct H|]. cbn [number_from JsMap.get].
  destruct (String.eqb_spec k d) as [->|Hne]; [exists n; split; [reflexivity|lia]|].
  destruct H as [->|H]; [congruence|].
  destruct (IH (n + 1) H) as [v [Hv Hle]]. exists v. split; [exact Hv|lia].
Qed.


Lemma number_from_sorted (D : list string) : NoDup D ->
  forall n, StronglySorted (fun a b => ord n D a <= ord n D b) D.
Proof.
  induction 1 as [|d D Hd HD IH]; intros n; constructor.
  - apply (SortFacts.StronglySorted_weaken (fun k => In k D) (fun a b => ord (n + 1) D a <= ord (n + 1) D b)).
    + intros x y Hx Hy. unfold ord. cbn [number_from JsMap.get].
      destruct (String.eqb_spec x d) as [->|]; [contradiction|].
      destruct (String.eqb_spec y d) as [->|]; [contradiction|]. auto.
    + apply Forall_forall. auto.
    + apply IH.
  - apply Forall_forall. intros k Hk. unfold ord. cbn [number_from JsMap.get].
    rewrite String.eqb_refl. destruct (String.eqb_spec k d) as [->|]; [contradiction|].
    destruct (get_number_from_in (n + 1) D k Hk) as [v [-> Hv]]. lia.
Qed.

Lemma StronglySorted_map {A B} (f : A -> B) (R : A -> A -> Prop) (R' : B -> B -> Prop) (l : list A) :
  (forall a b, R a b -> R' (f a) (f b)) -> StronglySorted R l -> StronglySorted R' (map f l).
Proof.
  intros HR. induction 1 as [|a l HS IH Ha]; simpl; constructor; [exact IH|].
  apply Forall_map. apply (Forall_impl _ (HR a)) in Ha. exact Ha.
Qed.

Lemma StronglySorted_app_rel {A} (R : A -> A -> Prop) (l1 l2 : list A) :
  StronglySorted R (l1 ++ l2) -> forall a b, In a l1 -> In b l2 -> R a b.
Proof.
  induction l1 as [|x l1 IH]; intros HS a b Ha Hb; [destruct Ha|].
  inversion HS as [|? ? HS' Hx]; subst. destruct Ha as [<-|Ha].
  - apply (proj1 (Forall_forall _ _) Hx). apply in_app_iff. right. exact Hb.
  - apply IH; assumption.
Qed.

Lemma insert_last {A} (gt : A -> A -> bool) (x : A) (acc : list A) :
  (forall y, In y acc -> gt y x = false) -> JsSort.insert gt x acc = acc ++ [x].
Proof.
  induction acc as [|y acc IH]; intros H; simpl; [reflexivity|].
  rewrite (H y (or_introl eq_refl)). rewrite IH; [reflexivity|].
  intros z Hz. apply H. right. exact Hz.
Qed.

Lemma sort_sorted_id {A} (gt : A -> A -> bool) (l : list A) :
  StronglySorted (fun a b => gt a b = false) l -> JsSort.sort gt l = l.
Proof.
  intros HS. unfold JsSort.sort.
  assert (G : forall acc, StronglySorted (fun a b => gt a b = false) (acc ++ l) ->
            fold_left (fun acc x => JsSort.insert gt x acc) l acc = acc ++ l).
  { clear HS. induction l as [|x l IH]; intros acc H; simpl; [rewrite app_nil_r; reflexivity|].
    rewrite insert_last.
    - rewrite IH; [rewrite <- app_assoc; reflexivity|]. rewrite <- app_assoc. exact H.
    - intros y Hy. apply (StronglySorted_app_rel _ acc (x :: l) H y x Hy). left. reflexivity. }
  apply (G []). exact HS.
Qed.

Lemma cd_rows_spec (ms : list CapabilityMatrixWithRows) :
  cd_rows (buildComparisonData ms) = map (comp_row (scan ms)) (dedup_first (scan_keys (scan ms))).
Proof.
  unfold buildComparisonData. cbn [cd_rows]. rewrite fold_matrices.
  destruct (inv_fold (scan ms)) as [Hr [Ho _]].
  rewrite Hr, Ho. set (D := dedup_first (scan_keys (scan ms))).
  unfold JsMap.values. rewrite map_map. cbn [snd].
  apply sort_sorted_id.
  apply (StronglySorted_map (comp_row (scan ms)) (fun a b => ord 0 D a <= ord 0 D b)).
  - intros a b H. unfold order_of. cbn [cr_normalizedRequirement comp_row].
    unfold ord in H. apply Z.ltb_ge. lia.
  - apply number_from_sorted. apply DedupFacts.dedup_first_NoDup.
Qed.

Lemma cells_of_get (sc : list (string * CapabilityMatrixRow)) (k mid : string) :
  JsMap.get mid (cells_of sc k) = option_map cell_of_row (last_cell sc k mid).
Proof.
  induction sc as [|q sc IH] using rev_ind; [reflexivity|].
  unfold cells_of, last_cell in *. rewrite fold_left_app, filter_app, map_app. cbn [fold_left filter].
  destruct (String.eqb_spec (row_key (snd q)) k) as [Ek|Ek];
  destruct (String.eqb_spec (fst q) mid) as [Em|Em]; cbn [andb map].
  - rewrite MapFacts.get_set. rewrite Em, String.eqb_refl, last_last. reflexivity.
  - rewrite app_nil_r, MapFacts.get_set.
    destruct (String.eqb_spec mid (fst q)); [congruence|]. exact IH.
  - rewrite app_nil_r. exact IH.
  - rewrite app_nil_r. exact IH.
Qed.

End C3G.

Module C3.
Import Comparison ComparisonView.

Lemma scan_ids (ms : list CapabilityMatrixWithRows) q :
  In q (scan ms) -> In (fst q) (map m_id ms).
Proof.
  induction ms as [|m ms IH]; simpl; [tauto|]. intros H. apply in_app_iff in H as [H|H].
  - left. apply in_map_iff in H as [r [<- _]]. reflexivity.
  - right. apply IH. exact H.
Qed.

Lemma filter_pair (mid id' k : string) (rows : list CapabilityMatrixRow) :
  filter (fun q => String.eqb (fst q) mid && String.eqb (row_key (snd q)) k)
         (map (fun r => (id', r)) rows) =
  if String.eqb id' mid then map (fun r => (id', r)) (filter (fun r => String.eqb (row_key r) k) rows)
  else [].
Proof.
  induction rows as [|r rows IH]; simpl; [destruct (String.eqb id' mid); reflexivity|].
  rewrite IH. destruct (String.eqb id' mid), (String.eqb (row_key r) k); reflexivity.
Qed.

Lemma filter_none (ms : list CapabilityMatrixWithRows) (mid k : string) :
  ~ In mid (map m_id ms) ->
  filter (fun q => String.eqb (fst q) mid && String.eqb (row_key (snd q)) k) (scan ms) = [].
Proof.
  intros H. induction ms as [|m ms IH]; [reflexivity|].
  cbn [scan flat_map]. fold (scan ms). rewrite filter_app, filter_pair.
  cbn [map In] in H. destruct (String.eqb_spec (m_id m) mid) as [E|E]; [tauto|].
  apply IH. tauto.
Qed.

Lemma last_cell_matrix (ms : list CapabilityMatrixWithRows) (m : CapabilityMatrixWithRows) (k : string) :
  NoDup (map m_id ms) -> In m ms ->
  last_cell (scan ms) k (m_id m) =
  last (map Some (filter (fun r => String.eqb (row_key r) k) (m_rows m))) None.
Proof.
  intros HN Hm. unfold last_cell. f_equal.
  induction ms as [|m' ms IH]; [destruct Hm|].
  cbn [map] in HN. inversion HN as [|? ? Hn HN']; subst.
  cbn [scan flat_map]. fold (scan ms). rewrite filter_app, filter_pair, map_app.
  destruct Hm as [<-|Hm].
  - rewrite String.eqb_refl, filter_none by exact Hn. rewrite app_nil_r, map_map. reflexivity.
  - destruct (String.eqb_spec (m_id m') (m_id m)) as [E|E].
    + exfalso. apply Hn. rewrite E. apply in_map. exact Hm.
    + apply IH; assumption.
Qed.

(** C3: the rows of [buildComparisonData ms] are, in order, one per distinct
    non-empty normalized key of the scan (matrices in the given order, rows in
    stored order), in first-seen order; they carry no duplicate key, and a key
    has a row exactly when some scanned row has it and it is not empty. The
    display text of each row is the trimmed text of the first scanned row with
    its key. Its cell for a matrix id is built from the last scanned row with
    that matrix id and key; when the matrix ids are distinct, that is the last
    row of that matrix with the key. *)
Lemma buildComparisonData_rows (ms : list CapabilityMatrixWithRows) :
  let sc := scan ms in
  let rows := cd_rows (buildComparisonData ms) in
  map cr_normalizedRequirement rows = dedup_first (scan_keys sc) /\
  NoDup (map cr_normalizedRequirement rows) /\
  (forall k, In k (map cr_normalizedRequirement rows) <->
             k <> EmptyString /\ exists q, In q sc /\ row_key (snd q) = k) /\
  (forall cr, In cr rows -> exists q,
     first_occurrence sc (cr_normalizedRequirement cr) = Some q /\
     cr_requirement cr = Str.js_trim (row_requirements (snd q))) /\
  (forall cr mid, In cr rows ->
     JsMap.get mid (cr_cells cr) =
     option_map cell_of_row (last_cell sc (cr_normalizedRequirement cr) mid)) /\
  (NoDup (map m_id ms) -> forall m cr, In m ms -> In cr rows ->
     JsMap.get (m_id m) (cr_cells cr) =
     option_map cell_of_row
       (last (map Some (filter (fun r => String.eqb (row_key r) (cr_normalizedRequirement cr))
                               (m_rows m))) None)).
Proof.
  intros sc rows.
  assert (Hrows : rows = map (comp_row sc) (dedup_first (scan_keys sc))) by apply C3G.cd_rows_spec.
  assert (Hkeys : map cr_normalizedRequirement rows = dedup_first (scan_keys sc)).
  { rewrite Hrows, map_map. cbn [cr_normalizedRequirement comp_row]. apply map_id. }
  assert (Hin : forall cr, In cr rows -> cr = comp_row sc (cr_normalizedRequirement cr) /\
                 In (cr_normalizedRequirement cr) (scan_keys sc)).
  { intros cr H. rewrite Hrows in H. apply in_map_iff in H as [k [<- Hk]].
    split; [reflexivity|]. apply DedupFacts.dedup_first_In. exact Hk. }
  split; [exact Hkeys|]. split; [rewrite Hkeys; apply DedupFacts.dedup_first_NoDup|].
  split.
  { intros k. rewrite Hkeys, DedupFacts.dedup_first_In. apply C3F.in_scan_keys. }
  split.
  { intros cr H. destruct (Hin cr H) as [Ecr Hk].
    destruct (C3F.first_occurrence_in sc _ Hk) as [q Eq]. exists q. split; [exact Eq|].
    rewrite Ecr at 1. cbn [cr_requirement comp_row]. rewrite Eq. reflexivity. }
  assert (Hc : forall cr mid, In cr rows ->
     JsMap.get mid (cr_cells cr) =
     option_map cell_of_row (last_cell sc (cr_normalizedRequirement cr) mid)).
  { intros cr mid H. destruct (Hin cr H) as [Ecr _].
    rewrite Ecr at 1. cbn [cr_cells comp_row]. apply C3G.cells_of_get. }
  split; [exact Hc|].
  intros HN m cr Hm H. rewrite Hc by exact H. unfold sc. rewrite last_cell_matrix by assumption.
  reflexivity.
Qed.

End C3.

Module C3W.
Import Comparison ComparisonView.

Lemma buildComparisonData_rows_witness :
  let rowA := {| row_id := "ra"; row_matrixId := "a"; row_requirementNumber := "1";
                 row_requirements := "Foo"; row_experienceAndCapability := Some 3;
                 row_pastPerformance := "p"; row_comments := "c"; row_rowOrder := 0 |} in
  let rowB := {| row_id := "rb"; row_matrixId := "b"; row_requirementNumber := "1";
                 row_requirements := " foo "; row_experienceAndCapability := Some 1;
                 row_pastPerformance := ""; row_comments := ""; row_rowOrder := 0 |} in
  let mA := {| m_id := "a"; m_name := "A"; m_isImported := false; m_sourceFile := None;
               m_parentMatrixId := None; m_createdAt := ""; m_updatedAt := "";
               m_rows := [rowA] |} in
  let mB := {| m_id := "b"; m_name := "B"; m_isImported := false; m_sourceFile := None;
               m_parentMatrixId := None; m_createdAt := ""; m_updatedAt := "";
               m_rows := [rowB] |} in
  let rows := cd_rows (buildComparisonData [mA; mB]) in
  map cr_requirement rows = ["Foo"%string] /\
  JsMap.get "a" (cr_cells (hd (comp_row [] "") rows)) = Some (cell_of_row rowA) /\
  JsMap.get "b" (cr_cells (hd (comp_row [] "") rows)) = Some (cell_of_row rowB).
Proof.
  intros rowA rowB mA mB rows.
  destruct (C3.buildComparisonData_rows [mA; mB]) as [_ [_ [_ [_ [_ Hm]]]]].
  assert (HN : NoDup (map m_id [mA; mB])).
  { constructor; [simpl; intros [H|[]]; discriminate | constructor; [intros []|constructor]]. }
  assert (Hr : In (hd (comp_row [] "") rows) rows) by (vm_compute; left; reflexivity).
  split; [vm_compute; reflexivity|]. split.
  - change (@JsMap.get ComparisonCellData "a"%string) with (@JsMap.get ComparisonCellData (m_id mA)).
    rewrite (Hm HN mA _ (or_introl eq_refl) Hr). vm_compute. reflexivity.
  - change (@JsMap.get ComparisonCellData "b"%string) with (@JsMap.get ComparisonCellData (m_id mB)).
    rewrite (Hm HN mB _ (or_intror (or_introl eq_refl)) Hr). vm_compute. reflexivity.
Defined.

End C3W.

Module C1F.
Import Ledger LedgerView.

Lemma parseScore_range (s : string) (z : Z) : parseScore (Some s) = Some z -> 0 <= z <= 3.
Proof.
  unfold parseScore. destruct (JsNum.parseInt10 s) as [q| | |]; try discriminate.
  destruct (Qle_bool 0 q) eqn:E0, (Qle_bool q 3) eqn:E3; try discriminate. cbn [andb].
  intros H. injection H as <-. apply Qle_bool_iff in E0, E3.
  pose proof (Qfloor_resp_le _ _ E0). pose proof (Qfloor_resp_le _ _ E3).
  change (Qfloor 0) with 0 in *. change (Qfloor 3) with 3 in *. lia.
Qed.

Lemma parseScore_roundtrip (x : option string) :
  parseScore (scoreToDb (parseScore x)) = parseScore x.
Proof.
  destruct x as [s|]; [|reflexivity].
  destruct (parseScore (Some s)) as [z|] eqn:E; [|reflexivity].
  apply parseScore_range in E.
  assert (Hz : z = 0 \/ z = 1 \/ z = 2 \/ z = 3) by lia.
  destruct Hz as [->|[->|[->| ->]]]; vm_compute; reflexivity.
Qed.


Lemma mapRow_norm (r : MatrixRowDbRow) : mapMatrixRowRow (norm r) = mapMatrixRowRow r.
Proof.
  unfold norm, mapMatrixRowRow, rowToDb. cbn. rewrite parseScore_roundtrip. reflexivity.
Qed.


Lemma bump_all_rows (now : string) (A : list string) (s : Store) :
  matrix_rows (bump_all now A s) = matrix_rows s.
Proof.
  unfold bump_all. revert s. induction A as [|a A IH]; intros s; [reflexivity|].
  cbn [fold_left]. rewrite IH. reflexivity.
Qed.

Lemma bump_all_matrices (now : string) (A : list string) (s : Store) :
  matrices (bump_all now A s) =
  map (fun m => if existsb (String.eqb (mt_id m)) A then upd now m else m) (matrices s).
Proof.
  unfold bump_all. revert s. induction A as [|a A IH]; intros s.
  - cbn. symmetry. apply map_id.
  - cbn [fold_left]. rewrite IH. unfold set_updated_at. cbn [matrices]. rewrite map_map.
    apply map_ext. intros m. cbn [existsb].
    destruct (String.eqb (mt_id m) a); cbn [orb];
      [cbn [mt_id]; destruct (existsb (String.eqb (mt_id m)) A); reflexivity | reflexivity].
Qed.

Lemma restore_fold (rows : list CapabilityMatrixRow) (s : Store) :
  let s' := fold_left (fun s row =>
               {| matrices := matrices s; matrix_rows := matrix_rows s ++ [rowToDb row] |})
               rows s in
  matrices s' = matrices s /\ matrix_rows s' = matrix_rows s ++ map rowToDb rows.
Proof.
  revert s. induction rows as [|r rows IH]; intros s; cbn [fold_left].
  - rewrite app_nil_r. split; reflexivity.
  - destruct (IH {| matrices := matrices s; matrix_rows := matrix_rows s ++ [rowToDb r] |}) as [H1 H2].
    rewrite H1, H2. split; [reflexivity|]. cbn [matrix_rows]. rewrite <- app_assoc. reflexivity.
Qed.

Lemma insert_map {A B} (gt : A -> A -> bool) (gt' : B -> B -> bool) (f : A -> B) :
  (forall a b, gt' (f a) (f b) = gt a b) ->
  forall x l, map f (JsSort.insert gt x l) = JsSort.insert gt' (f x) (map f l).
Proof.
  intros H x l. induction l as [|y l IH]; simpl; [reflexivity|].
  rewrite H. destruct (gt y x); simpl; [reflexivity|]. rewrite IH. reflexivity.
Qed.

Lemma sort_map {A B} (gt : A -> A -> bool) (gt' : B -> B -> bool) (f : A -> B) (l : list A) :
  (forall a b, gt' (f a) (f b) = gt a b) ->
  map f (JsSort.sort gt l) = JsSort.sort gt' (map f l).
Proof.
  intros H. unfold JsSort.sort.
  assert (G : forall acc, map f (fold_left (fun acc x => JsSort.insert gt x acc) l acc) =
                          fold_left (fun acc x => JsSort.insert gt' x acc) (map f l) (map f acc)).
  { induction l as [|x l IH]; intros acc; [reflexivity|]. cbn [fold_left map].
    rewrite IH, (insert_map gt gt' f H). reflexivity. }
  apply (G []).
Qed.

Lemma sorted_unique {A} (key : A -> Z) (l1 l2 : list A) :
  StronglySorted (fun a b => key a <= key b) l1 -> StronglySorted (fun a b => key a <= key b) l2 ->
  Permutation l1 l2 -> NoDup (map key l1) -> l1 = l2.
Proof.
  revert l2. induction l1 as [|a l1 IH]; intros l2 S1 S2 P N.
  - symmetry. apply Permutation_nil. exact P.
  - destruct l2 as [|b l2]; [apply Permutation_sym, Permutation_nil in P; discriminate|].
    inversion S1 as [|? ? S1' F1]; subst. inversion S2 as [|? ? S2' F2]; subst.
    inversion N as [|? ? Na N']; subst.
    assert (Eab : a = b).
    { destruct (Permutation_in a P (or_introl eq_refl)) as [->|Ha]; [reflexivity|].
      pose proof (Permutation_in b (Permutation_sym P) (or_introl eq_refl)) as Hb.
      destruct Hb as [->|Hb]; [reflexivity|].
      exfalso. pose proof (proj1 (Forall_forall _ _) F2 a Ha).
      pose proof (proj1 (Forall_forall _ _) F1 b Hb).
      apply Na. cbv beta in *. replace (key a) with (key b) by lia. apply in_map. exact Hb. }
    subst b. f_equal. apply IH; try assumption. apply Permutation_cons_inv in P. exact P.
Qed.

Lemma sort_by_key_sorted {A} (key : A -> Z) (l : list A) :
  StronglySorted (fun a b => key a <= key b) (sort_by_key key l).
Proof.
  apply (SortFacts.StronglySorted_weaken (fun _ => True)
           (fun a b => (key b <? key a) = false)).
  - intros x y _ _ H. apply Z.ltb_ge in H. exact H.
  - apply Forall_forall. auto.
  - apply (SortFacts.sort_sorted _ (fun _ => True)).
    + intros x y _ _ H. apply Z.ltb_lt in H. apply Z.ltb_ge. lia.
    + intros x y z _ _ _ H1 H2. apply Z.ltb_ge in H1, H2. apply Z.ltb_ge. lia.
    + apply Forall_forall. auto.
Qed.

Lemma sort_by_key_perm_eq {A} (key : A -> Z) (l1 l2 : list A) :
  Permutation l1 l2 -> NoDup (map key l1) -> sort_by_key key l1 = sort_by_key key l2.
Proof.
  intros P N. apply (sorted_unique key); try apply sort_by_key_sorted.
  - unfold sort_by_key. rewrite SortFacts.sort_perm, SortFacts.sort_perm. exact P.
  - unfold sort_by_key. apply (Permutation_NoDup (Permutation_map key (Permutation_sym (SortFacts.sort_perm _ l1)))).
    exact N.
Qed.

Lemma getMatrixRows_sorted (mid : string) (st : Store) :
  getMatrixRows mid st =
  sort_by_key row_rowOrder
    (map mapMatrixRowRow (filter (fun r => String.eqb (db_matrix_id r) mid) (matrix_rows st))).
Proof. unfold getMatrixRows, sort_by_key. apply sort_map. reflexivity. Qed.

Lemma filter_partition {A} (p : A -> bool) (l : list A) :
  Permutation l (filter (fun r => negb (p r)) l ++ filter p l).
Proof.
  induction l as [|x l IH]; simpl; [reflexivity|].
  destruct (p x); simpl.
  - rewrite IH at 1. apply Permutation_middle.
  - constructor. exact IH.
Qed.

End C1F.

Module C1.
Import Ledger.

Lemma perm_filter {A} (f : A -> bool) (l l' : list A) :
  Permutation l l' -> Permutation (filter f l) (filter f l').
Proof.
  induction 1; simpl.
  - constructor.
  - destruct (f x); [constructor|]; assumption.
  - destruct (f x), (f y); try constructor; reflexivity.
  - econstructor; eassumption.
Qed.

(** C1: [restoreRows] on the [deletedRows] of [deleteRowsByRequirement]
    undoes the delete. The restore bumps exactly the matrix ids the delete
    bumped. It appends to the rows table exactly the deleted rows, written back
    by [rowToDb]; each of these reads back through [mapMatrixRowRow] as the row
    the delete returned, with the same id, matrix id, number, text, score,
    past performance, comments and order (a stored score is read by
    [parseScore] and written back as its decimal text). Read through
    [mapMatrixRowRow], the restored rows table is a permutation of the one
    before the delete. The matrices table is the original one with the
    bumped matrices stamped by the restore. Whenever the [row_order] values
    of a matrix are distinct, [getMatrixRows] (ORDER BY row_order) returns
    the same list for that matrix as before the delete. *)
Lemma restoreRows_undo (now1 now2 requirement : string) (st : Store) :
  let d := deleteRowsByRequirement now1 requirement st in
  let st1 := fst (fst d) in
  let res := snd (fst d) in
  let bumped1 := snd d in
  let r := restoreRows now2 (deletedRows res) st1 in
  let st2 := fst r in
  snd r = bumped1 /\
  matrix_rows st2 = matrix_rows st1 ++ map rowToDb (deletedRows res) /\
  map mapMatrixRowRow (map rowToDb (deletedRows res)) = deletedRows res /\
  Permutation (map mapMatrixRowRow (matrix_rows st2)) (map mapMatrixRowRow (matrix_rows st)) /\
  matrices st2 = matrices (bump_all now2 bumped1 st) /\
  (forall mid,
     NoDup (map db_row_order (filter (fun r => String.eqb (db_matrix_id r) mid) (matrix_rows st))) ->
     getMatrixRows mid st2 = getMatrixRows mid st).
Proof.
  cbv zeta. unfold deleteRowsByRequirement. cbv zeta.
  set (p := sql_matches (Str.js_to_lower (Str.js_trim requirement))).
  destruct (filter p (matrix_rows st)) as [|x l] eqn:E.
  - cbn [fst snd deletedRows]. unfold restoreRows. cbn.
    split; [reflexivity|]. split; [symmetry; apply app_nil_r|]. split; [reflexivity|].
    split; [reflexivity|]. split; [reflexivity|]. intros; reflexivity.
  - set (M := x :: l) in *. cbn [fst snd deletedRows].
    set (A := dedup_first (map db_matrix_id M)).
    set (st1 := bump_all now1 A {| matrices := matrices st;
                                  matrix_rows := filter (fun r => negb (p r)) (matrix_rows st) |}).
    unfold restoreRows.
    destruct (C1F.restore_fold (map mapMatrixRowRow M) st1) as [Fm Fr].
    set (s' := fold_left _ _ st1) in Fm, Fr |- *.
    assert (EA : dedup_first (map row_matrixId (map mapMatrixRowRow M)) = A)
      by (rewrite map_map; reflexivity).
    rewrite EA. cbn [fst snd].
    assert (Hnorm : map mapMatrixRowRow (map rowToDb (map mapMatrixRowRow M)) = map mapMatrixRowRow M).
    { rewrite !map_map. apply map_ext. apply C1F.mapRow_norm. }
    assert (Hrows : matrix_rows (bump_all now2 A s') =
                    filter (fun r => negb (p r)) (matrix_rows st) ++ map rowToDb (map mapMatrixRowRow M)).
    { rewrite C1F.bump_all_rows, Fr. unfold st1. rewrite C1F.bump_all_rows. reflexivity. }
    assert (Hperm : forall g, (forall a, g (LedgerView.norm a) = g a) -> Permutation
               (map mapMatrixRowRow (filter g (matrix_rows (bump_all now2 A s'))))
               (map mapMatrixRowRow (filter g (matrix_rows st)))).
    { intros g Hg. rewrite Hrows.
      rewrite (perm_filter g _ _ (C1F.filter_partition p (matrix_rows st))).
      rewrite E. fold M. rewrite !filter_app, !map_app. apply Permutation_app; [reflexivity|].
      rewrite !filter_map_swap, !map_map.
      rewrite (filter_ext _ g Hg). apply Permutation_refl'.
      apply map_ext_in. intros y _. apply C1F.mapRow_norm. }
    split; [reflexivity|]. split.
    { rewrite C1F.bump_all_rows, Fr. reflexivity. }
    split; [exact Hnorm|]. split.
    { pose proof (Hperm (fun _ => true) (fun _ => eq_refl)) as H. rewrite !filter_true in H. exact H. }
    split.
    { rewrite !C1F.bump_all_matrices, Fm. unfold st1. rewrite C1F.bump_all_matrices. cbn [matrices].
      rewrite map_map. apply map_ext. intros m.
      destruct (existsb (String.eqb (mt_id m)) A) eqn:Ex; cbn [mt_id LedgerView.upd]; rewrite ?Ex; reflexivity. }
    intros mid HN. rewrite !C1F.getMatrixRows_sorted. symmetry.
    apply C1F.sort_by_key_perm_eq.
    + apply Permutation_sym. apply Hperm. intros a. reflexivity.
    + rewrite map_map. exact HN.
Qed.

End C1.

Module C1W.
Import Ledger.

Lemma restoreRows_undo_witness :
  let ma := {| mt_id := "a"; mt_name := "A"; mt_is_imported := 0; mt_source_file := None;
               mt_parent_matrix_id := None; mt_created_at := "t0"; mt_updated_at := "t0" |} in
  let mb := {| mt_id := "b"; mt_name := "B"; mt_is_imported := 0; mt_source_file := None;
               mt_parent_matrix_id := None; mt_created_at := "t0"; mt_updated_at := "t0" |} in
  let r1 := {| db_id := "r1"; db_matrix_id := "a"; db_requirement_number := "1";
               db_requirements := "Foo"; db_experience_and_capability := Some "3"%string;
               db_past_performance := "p"; db_comments := "c"; db_row_order := 0 |} in
  let r2 := {| db_id := "r2"; db_matrix_id := "a"; db_requirement_number := "2";
               db_requirements := "Bar"; db_experience_and_capability := None;
               db_past_performance := ""; db_comments := ""; db_row_order := 1 |} in
  let r3 := {| db_id := "r3"; db_matrix_id := "b"; db_requirement_number := "1";
               db_requirements := " foo "; db_experience_and_capability := Some "1"%string;
               db_past_performance := ""; db_comments := ""; db_row_order := 0 |} in
  let st := {| matrices := [ma; mb]; matrix_rows := [r1; r2; r3] |} in
  let d := deleteRowsByRequirement "t1" "Foo" st in
  let st2 := fst (restoreRows "t2" (deletedRows (snd (fst d))) (fst (fst d))) in
  NoDup (map db_row_order (filter (fun r => String.eqb (db_matrix_id r) "a") (matrix_rows st))) /\
  getMatrixRows "a" st2 = getMatrixRows "a" st /\
  getMatrixRows "b" st2 = getMatrixRows "b" st /\
  length (deletedRows (snd (fst d))) = 2%nat.
Proof.
  intros ma mb r1 r2 r3 st d st2.
  destruct (C1.restoreRows_undo "t1" "t2" "Foo" st) as (_ & _ & _ & _ & _ & H).
  assert (Ha : NoDup (map db_row_order (filter (fun r => String.eqb (db_matrix_id r) "a") (matrix_rows st)))).
  { vm_compute. constructor; [intros [H0|[]]; discriminate|constructor; [intros []|constructor]]. }
  assert (Hb : NoDup (map db_row_order (filter (fun r => String.eqb (db_matrix_id r) "b") (matrix_rows st)))).
  { vm_compute. constructor; [intros []|constructor]. }
  split; [exact Ha|]. split; [exact (H "a"%string Ha)|]. split; [exact (H "b"%string Hb)|].
  vm_compute. reflexivity.
Defined.

End C1W.

Module C568W.
Import JsNum ReqNum StrOps Importer.

Lemma outdentNumber_amended_witness :
  outdentNumber "1" = "1"%string /\
  outdentNumber "1.2.1" = "1.3"%string /\ outdentNumber "1.1" = "2"%string.
Proof.
  destruct C8.outdentNumber_amended as (_ & H2 & H3).
  split; [apply H2; [discriminate | reflexivity]|]. split.
  - apply (H3 ["1"%string] "2"%string "1"%string); [reflexivity | vm_compute; discriminate].
  - apply (H3 [] "1"%string "1"%string); [reflexivity | vm_compute; discriminate].
Defined.

Lemma parseExcelFile_errors_witness :
  let cell s := {| v := JStr s; w := None |} in
  let good := {| ref := Some {| s_r := 0; s_c := 0; e_r := 1; e_c := 3 |};
                 cells := [((0, 0), cell "Requirements"%string); ((1, 0), cell "Do X"%string)] |} in
  let wb := {| SheetNames := ["Bad"%string; "Good"%string]; Sheets := [("Good"%string, good)] |} in
  let r := parseExcelFile_with unit (fun _ => inr wb) parse_sheet tt "f.xlsx" in
  length (matrices r) = 1%nat /\ length (errors r) = 1%nat.
Proof.
  intros cell good wb r.
  destruct (C5.parseExcelFile_errors unit (fun _ => inr wb) parse_sheet tt "f.xlsx")
    as [_ H].
  destruct (H wb eq_refl) as [Hm [He | (Hm' & _ & _)]].
  - unfold r. rewrite Hm, He. vm_compute. split; reflexivity.
  - exfalso. rewrite Hm' in Hm. vm_compute in Hm. discriminate.
Defined.

Lemma worksheet_rows_spec_witness :
  let cell s := {| v := JStr s; w := None |} in
  let sheet := {| ref := Some {| s_r := 0; s_c := 0; e_r := 8; e_c := 3 |};
                  cells := [((4, 0), cell "Requirements"%string);
                            ((4, 1), cell "Score"%string);
                            ((5, 0), cell "A"%string); ((5, 1), {| v := JNum (of_Z 3); w := None |});
                            ((6, 0), cell "B"%string);
                            ((7, 2), cell "orphan"%string);
                            ((8, 0), cell "C"%string); ((8, 3), cell "note"%string)] |} in
  map pr_requirementNumber (worksheet_rows sheet) = ["1"; "2"; "3"]%string.
Proof.
  intros cell sheet.
  destruct (C6.worksheet_rows_spec sheet) as [_ H]; [vm_compute; discriminate|].
  rewrite H by reflexivity. vm_compute. reflexivity.
Defined.

End C568W.

Module DotFacts.
Import StrOps.

Lemma split_dot_app_dot (a b : string) :
  split_dot (a +++ String "."%char b) = split_dot a ++ split_dot b.
Proof.
  induction a as [|c r IH]; simpl.
  - destruct (split_dot b) as [|seg segs] eqn:E; [exfalso; apply (StrOpsFacts.split_dot_nonempty b E)|].
    reflexivity.
  - rewrite IH. destruct (split_dot r) as [|seg segs] eqn:E;
      [exfalso; apply (StrOpsFacts.split_dot_nonempty r E)|].
    simpl. destruct (Ascii.eqb c "."%char); reflexivity.
Qed.

Lemma join_split (s : string) : join_dot (split_dot s) = s.
Proof.
  induction s as [|c r IH]; [reflexivity|]. simpl.
  destruct (split_dot r) as [|seg segs] eqn:E; [exfalso; apply (StrOpsFacts.split_dot_nonempty r E)|].
  destruct (Ascii.eqb c "."%char) eqn:Ec.
  - apply Ascii.eqb_eq in Ec. subst c.
    change (join_dot (EmptyString :: seg :: segs)) with (EmptyString +++ "." +++ join_dot (seg :: segs)).
    rewrite IH. reflexivity.
  - destruct segs as [|seg' segs']; simpl in *; rewrite <- IH; reflexivity.
Qed.

Lemma join_snoc (l : list string) (x : string) : l <> [] ->
  join_dot (l ++ [x]) = join_dot l +++ "." +++ x.
Proof.
  induction l as [|p ps IH]; intros H; [congruence|].
  destruct ps as [|p' ps'].
  - reflexivity.
  - change (join_dot ((p :: p' :: ps') ++ [x])) with (p +++ "." +++ join_dot ((p' :: ps') ++ [x])).
    change (join_dot (p :: p' :: ps')) with (p +++ "." +++ join_dot (p' :: ps')).
    rewrite IH by discriminate. rewrite !StrFacts.append_assoc. reflexivity.
Qed.

Lemma count_dots_app (a b : string) : count_dots (a +++ b) = (count_dots a + count_dots b)%nat.
Proof. induction a as [|c r IH]; simpl; [reflexivity|]. rewrite IH. lia. Qed.

Lemma count_dots_split (s : string) : S (count_dots s) = length (split_dot s).
Proof.
  induction s as [|c r IH]; [reflexivity|]. simpl.
  destruct (split_dot r) as [|seg segs] eqn:E; [exfalso; apply (StrOpsFacts.split_dot_nonempty r E)|].
  destruct (Ascii.eqb c "."%char); simpl in *; lia.
Qed.

Lemma prefix_app (a b : string) : String.prefix a (a +++ b) = true.
Proof.
  induction a as [|c r IH]; simpl; [destruct b; reflexivity|].
  destruct (ascii_dec c c) as [_|n]; [exact IH|congruence].
Qed.

Lemma prefix_inv (a b : string) : String.prefix a b = true -> exists z, b = a +++ z.
Proof.
  revert b. induction a as [|c r IH]; intros b H.
  - exists b. reflexivity.
  - destruct b as [|c' b']; simpl in H; [discriminate|].
    destruct (ascii_dec c c') as [<-|]; [|discriminate].
    destruct (IH b' H) as [z ->]. exists z. reflexivity.
Qed.

End DotFacts.

Module ReqNumFacts.
Import JsNum ReqNum StrOps ReqNumOps.

Lemma is_digit_char (d : Z) : 0 <= d < 10 -> is_digit (digit_char d) = true.
Proof.
  intros H. unfold is_digit, digit_val, digit_char.
  rewrite Ascii.nat_ascii_embedding by lia.
  replace ((48 <=? 48 + Z.to_nat d)%nat && (48 + Z.to_nat d <=? 57)%nat) with true; [reflexivity|].
  symmetry. apply andb_true_iff. split; apply Nat.leb_le; lia.
Qed.

Lemma dec_aux_digits (f : nat) (n : Z) (acc : string) : 0 <= n ->
  all_chars is_digit (dec_aux f n acc) = all_chars is_digit acc.
Proof.
  revert n acc. induction f as [|f IH]; intros n acc Hn; [reflexivity|]. cbn [dec_aux]. cbv zeta.
  assert (Hd : is_digit (digit_char (n mod 10)) = true)
    by (apply is_digit_char; apply Z.mod_pos_bound; lia).
  destruct (n <? 10).
  - cbn [all_chars]. rewrite Hd. reflexivity.
  - rewrite IH by (apply Z.div_pos; lia). cbn [all_chars]. rewrite Hd. reflexivity.
Qed.

Lemma decimal_segment (n : Z) : 1 <= n -> is_segment (decimal n) = true.
Proof.
  intros Hn. unfold is_segment. apply andb_true_iff. split.
  - destruct (NumFacts.decimal_length n Hn) as [H _].
    destruct (decimal n); [simpl in H; lia | reflexivity].
  - unfold decimal. rewrite dec_aux_digits by lia. reflexivity.
Qed.

Lemma nonempty_eqb (s : string) : s <> EmptyString -> String.eqb s EmptyString = false.
Proof. intros H. destruct (String.eqb_spec s EmptyString); congruence. Qed.

Lemma app_nonempty (a b : string) : a <> EmptyString -> a +++ b <> EmptyString.
Proof. destruct a; simpl; congruence. Qed.

Lemma join_cons_nonempty (p : string) (ps : list string) : p <> EmptyString ->
  join_dot (p :: ps) <> EmptyString.
Proof. intros H. destruct ps; simpl; [exact H | apply app_nonempty; exact H]. Qed.

Lemma getDepth_nonempty (s : string) : s <> EmptyString -> getDepth s = count_dots s.
Proof. intros H. unfold getDepth. rewrite nonempty_eqb by exact H. reflexivity. Qed.

Lemma is_segment_nonempty (p : string) : is_segment p = true -> p <> EmptyString.
Proof. unfold is_segment. intros H E. subst. discriminate. Qed.

(** The parts of a valid non-empty requirement number are segments. *)
Lemma valid_parts (s : string) : isValidRequirementNumber s = true -> s <> EmptyString ->
  forallb is_segment (split_dot s) = true.
Proof.
  unfold isValidRequirementNumber. intros H Hs. rewrite nonempty_eqb in H by exact Hs. exact H.
Qed.

(** X1: [outdentNumber] undoes [indentNumber] one level up: indenting and then
    outdenting a number gives the number [suggestNextNumber] proposes after
    it, for every string. *)
Lemma outdentNumber_indentNumber (p : string) :
  outdentNumber (indentNumber p) = suggestNextNumber p.
Proof.
  unfold indentNumber, suggestNextNumber, outdentNumber.
  destruct (String.eqb_spec p EmptyString) as [->|Hp]; [reflexivity|].
  rewrite nonempty_eqb by (apply app_nonempty; exact Hp).
  change (".1")%string with (String "."%char "1"%string).
  rewrite DotFacts.split_dot_app_dot. change (split_dot "1") with ["1"%string].
  rewrite length_app. simpl length.
  pose proof (StrOpsFacts.split_dot_nonempty p) as Hne.
  replace (length (split_dot p) + 1 <=? 1)%nat with false
    by (destruct (split_dot p); [congruence | simpl; symmetry; apply Nat.leb_gt; lia]).
  rewrite removelast_last. reflexivity.
Qed.

(** X2: [indentNumber] of a non-empty number [p] gives a child of [p], one level
    deeper, whose parent is [p] again. *)
Lemma indentNumber_child (p : string) : p <> EmptyString ->
  getParentNumber (indentNumber p) = p /\ isChildOf (indentNumber p) p = true /\
  getDepth (indentNumber p) = S (getDepth p).
Proof.
  intros Hp. unfold indentNumber. rewrite nonempty_eqb by exact Hp.
  assert (Hi : p +++ ".1" <> EmptyString) by (apply app_nonempty; exact Hp).
  split; [|split].
  - unfold getParentNumber. rewrite nonempty_eqb by exact Hi.
    change (".1")%string with (String "."%char "1"%string).
    rewrite DotFacts.split_dot_app_dot. change (split_dot "1") with ["1"%string].
    rewrite length_app. simpl length.
    pose proof (StrOpsFacts.split_dot_nonempty p) as Hne.
    replace (length (split_dot p) + 1 <=? 1)%nat with false
      by (destruct (split_dot p); [congruence | simpl; symmetry; apply Nat.leb_gt; lia]).
    rewrite removelast_last. apply DotFacts.join_split.
  - unfold isChildOf. rewrite !nonempty_eqb by assumption. simpl orb. cbv iota.
    replace (p +++ ".1") with ((p +++ ".") +++ "1") by apply StrFacts.append_assoc.
    apply DotFacts.prefix_app.
  - rewrite !getDepth_nonempty by assumption. rewrite DotFacts.count_dots_app. simpl. lia.
Qed.

(** X3: The parent of a valid number: a number with no dot has the empty parent;
    one with a dot has a valid non-empty parent, of which it is a child, one
    level up. *)
Lemma getParentNumber_valid (s : string) :
  isValidRequirementNumber s = true -> s <> EmptyString ->
  (getDepth s = O -> getParentNumber s = EmptyString) /\
  ((1 <= getDepth s)%nat ->
   let q := getParentNumber s in
   q <> EmptyString /\ isValidRequirementNumber q = true /\
   isChildOf s q = true /\ S (getDepth q) = getDepth s).
Proof.
  intros Hv Hs. pose proof (valid_parts s Hv Hs) as Hseg.
  rewrite getDepth_nonempty by exact Hs.
  pose proof (DotFacts.count_dots_split s) as Hc.
  split.
  - intros H0. unfold getParentNumber. rewrite nonempty_eqb by exact Hs.
    rewrite H0 in Hc. rewrite <- Hc. reflexivity.
  - intros H1. cbv zeta.
    assert (Hl : (length (split_dot s) <=? 1)%nat = false) by (apply Nat.leb_gt; lia).
    assert (Hpq : getParentNumber s = join_dot (removelast (split_dot s))).
    { unfold getParentNumber. rewrite nonempty_eqb by exact Hs. rewrite Hl. reflexivity. }
    rewrite Hpq.
    pose proof (StrOpsFacts.split_dot_nonempty s) as Hne.
    pose proof (app_removelast_last EmptyString Hne) as Hsplit.
    set (l' := removelast (split_dot s)) in *. set (x := last (split_dot s) EmptyString) in *.
    assert (Hl' : l' <> []).
    { intros E. rewrite E in Hsplit. rewrite Hsplit in Hc. simpl in Hc. lia. }
    assert (Hs' : forallb is_segment l' = true).
    { rewrite Hsplit, forallb_app in Hseg. apply andb_true_iff in Hseg as [H _]. exact H. }
    assert (Hq : join_dot l' <> EmptyString).
    { destruct l' as [|p ps]; [congruence|]. apply join_cons_nonempty.
      simpl in Hs'. apply andb_true_iff in Hs' as [Hp _]. apply is_segment_nonempty. exact Hp. }
    assert (Hsj : split_dot (join_dot l') = l')
      by (apply StrOpsFacts.split_join; [exact Hl' | apply C8.segments_nodot; exact Hs']).
    split; [exact Hq|]. split; [|split].
    + unfold isValidRequirementNumber. rewrite Hsj, Hs'. apply orb_true_r.
    + unfold isChildOf. rewrite !nonempty_eqb by assumption. simpl orb. cbv iota.
      rewrite <- (DotFacts.join_split s), Hsplit, DotFacts.join_snoc by exact Hl'.
      rewrite <- StrFacts.append_assoc. apply DotFacts.prefix_app.
    + rewrite getDepth_nonempty by exact Hq.
      pose proof (DotFacts.count_dots_split (join_dot l')) as Hc'. rewrite Hsj in Hc'.
      rewrite Hsplit, length_app in Hc. simpl in Hc. lia.
Qed.

(** X4: [isChildOf] is a strict order: no number is its own child, a child of a
    child is a child, and a child is deeper than its parent. *)
Lemma isChildOf_strict (a b c : string) :
  isChildOf a a = false /\
  (isChildOf a b = true -> isChildOf b c = true -> isChildOf a c = true) /\
  (isChildOf a b = true -> (getDepth b < getDepth a)%nat).
Proof.
  unfold isChildOf. split; [|split].
  - destruct (String.eqb a EmptyString) eqn:Ea; [reflexivity|]. simpl.
    destruct (String.prefix (a +++ ".") a) eqn:E; [|reflexivity].
    destruct (DotFacts.prefix_inv _ _ E) as [z Hz].
    apply (f_equal String.length) in Hz. rewrite !StrFacts.length_append in Hz. simpl in Hz. lia.
  - destruct (String.eqb a EmptyString), (String.eqb b EmptyString), (String.eqb c EmptyString);
      simpl; try discriminate.
    intros H1 H2. destruct (DotFacts.prefix_inv _ _ H1) as [z1 ->].
    destruct (DotFacts.prefix_inv _ _ H2) as [z2 ->].
    replace ((((c +++ ".") +++ z2) +++ ".") +++ z1) with ((c +++ ".") +++ (z2 +++ "." +++ z1))
      by (rewrite !StrFacts.append_assoc; reflexivity).
    apply DotFacts.prefix_app.
  - destruct (String.eqb_spec a EmptyString), (String.eqb_spec b EmptyString);
      simpl; try discriminate.
    intros H1. destruct (DotFacts.prefix_inv _ _ H1) as [z Hz].
    rewrite !getDepth_nonempty by assumption. rewrite Hz.
    rewrite !DotFacts.count_dots_app. simpl. lia.
Qed.

(** X5: [suggestNextNumber] increments the last segment of a valid number, as
    long as the result is a safe integer; the result is valid and at the same
    depth. An empty number gives 1. *)
Lemma suggestNextNumber_valid :
  suggestNextNumber "" = "1"%string /\
  (forall segs x, forallb is_segment (segs ++ [x]) = true ->
     segment_value x + 1 <= 2 ^ 53 - 1 ->
     let n := join_dot (segs ++ [decimal (segment_value x + 1)]) in
     suggestNextNumber (join_dot (segs ++ [x])) = n /\
     isValidRequirementNumber n = true /\
     getDepth n = getDepth (join_dot (segs ++ [x]))).
Proof.
  split; [reflexivity|]. intros segs x Hseg Hv n.
  assert (Hx : is_segment x = true).
  { rewrite forallb_app in Hseg. apply andb_true_iff in Hseg as [_ Hseg].
    simpl in Hseg. apply andb_true_iff in Hseg as [Hseg _]. exact Hseg. }
  pose proof (C8.segment_value_nonneg x) as H0.
  assert (Hd : is_segment (decimal (segment_value x + 1)) = true) by (apply decimal_segment; lia).
  assert (Hseg' : forallb is_segment (segs ++ [decimal (segment_value x + 1)]) = true).
  { rewrite forallb_app in Hseg |- *. apply andb_true_iff in Hseg as [Hs _]. rewrite Hs.
    cbn [forallb andb]. rewrite Hd. reflexivity. }
  assert (Hne : forall y, is_segment y = true -> join_dot (segs ++ [y]) <> EmptyString).
  { intros y Hy. destruct segs as [|s0 segs'].
    - simpl. apply is_segment_nonempty. exact Hy.
    - apply join_cons_nonempty. simpl in Hseg. apply andb_true_iff in Hseg as [H _].
      apply is_segment_nonempty. exact H. }
  split; [|split].
  - unfold suggestNextNumber. rewrite nonempty_eqb by (apply Hne; exact Hx).
    rewrite StrOpsFacts.split_join;
      [| destruct segs; discriminate | apply C8.segments_nodot; exact Hseg].
    rewrite last_last, removelast_last.
    unfold is_segment in Hx. apply andb_true_iff in Hx as [Hx1 Hx2].
    rewrite ParseIntFacts.parseInt10_digits; [| intros E; subst; discriminate | exact Hx2].
    unfold segment_value in *.
    rewrite NumFacts.of_Z_small by lia.
    change (NFin 1) with (NFin (inject_Z 1)). rewrite C8.add_int.
    rewrite NumFacts.toString_of_Z by lia. reflexivity.
  - unfold isValidRequirementNumber, n.
    rewrite StrOpsFacts.split_join;
      [| destruct segs; discriminate | apply C8.segments_nodot; exact Hseg'].
    rewrite Hseg'. apply orb_true_r.
  - unfold n. rewrite !getDepth_nonempty by (apply Hne; assumption).
    apply Nat.succ_inj. rewrite !DotFacts.count_dots_split.
    rewrite !StrOpsFacts.split_join;
      try (destruct segs; discriminate); try (apply C8.segments_nodot; assumption).
    rewrite !length_app. reflexivity.
Qed.

(** X6: [parseSegments] of a valid non-empty number reads each segment as the
    double of its integer value, one per level; an invalid or empty number
    gives no segment. *)
Lemma parseSegments_spec (s : string) :
  (isValidRequirementNumber s = true -> s <> EmptyString ->
   parseSegments s = map of_Z (segments s) /\ length (parseSegments s) = S (getDepth s)) /\
  (isValidRequirementNumber s = false \/ s = EmptyString -> parseSegments s = []).
Proof.
  split.
  - intros Hv Hs. pose proof (valid_parts s Hv Hs) as Hseg.
    unfold parseSegments. rewrite nonempty_eqb, Hv by exact Hs. simpl.
    assert (E : map JsToNumber.StringToNumber (split_dot s) = map of_Z (segments s)).
    { unfold segments. rewrite map_map. apply map_ext_in. intros p Hp.
      apply C7T.StringToNumber_segment. rewrite forallb_forall in Hseg. apply Hseg, Hp. }
    rewrite E. split; [reflexivity|].
    unfold segments. rewrite !length_map, getDepth_nonempty by exact Hs.
    symmetry. apply DotFacts.count_dots_split.
  - intros [H|H]; unfold parseSegments; [rewrite H, orb_true_r; reflexivity|].
    subst. reflexivity.
Qed.

End ReqNumFacts.

Module DeleteInfoFacts.
Import Comparison ComparisonView ComparisonOps.

Lemma fold_visit_company (row : ComparisonRow) (L : list (string * string)) acc :
  fold_left (visit_company row) L acc =
  acc ++ flat_map (fun '(mid, mname) =>
    match JsMap.get mid (cr_cells row) with
    | Some cell => if has_data cell
        then [{| cw_matrixId := mid; cw_matrixName := mname; cw_score := cell_score cell;
                 cw_hasComments := not_blank (cell_comments cell);
                 cw_hasPastPerformance := not_blank (cell_pastPerformance cell) |}]
        else []
    | None => []
    end) L.
Proof.
  revert acc. induction L as [|[mid mname] L IH]; intros acc; cbn [fold_left flat_map].
  - rewrite app_nil_r. reflexivity.
  - rewrite IH. unfold visit_company.
    destruct (JsMap.get mid (cr_cells row)) as [cell|]; [destruct (has_data cell)|];
      rewrite ?app_assoc, ?app_nil_r; reflexivity.
Qed.

Lemma find_comp_row (sc : list (string * CapabilityMatrixRow)) (D : list string) (k : string) :
  find (fun r => String.eqb (cr_normalizedRequirement r) k) (map (comp_row sc) D) =
  option_map (comp_row sc) (find (fun x => String.eqb x k) D).
Proof.
  induction D as [|x D IH]; cbn [map find]; [reflexivity|].
  cbn [comp_row cr_normalizedRequirement]. destruct (String.eqb x k); [reflexivity|exact IH].
Qed.

Lemma find_key (D : list string) (k : string) :
  (In k D /\ find (fun x => String.eqb x k) D = Some k) \/
  (~ In k D /\ find (fun x => String.eqb x k) D = None).
Proof.
  destruct (find (fun x => String.eqb x k) D) as [x|] eqn:E.
  - left. apply find_some in E as [Hin Hx]. apply String.eqb_eq in Hx. subst x. tauto.
  - right. split; [|reflexivity]. intros Hin. pose proof (find_none _ _ E k Hin) as F.
    cbv beta in F. rewrite String.eqb_refl in F. discriminate.
Qed.

Lemma flat_map_ext_in {A B} (f g : A -> list B) (l : list A) :
  (forall a, In a l -> f a = g a) -> flat_map f l = flat_map g l.
Proof.
  induction l as [|a l IH]; intros H; cbn [flat_map]; [reflexivity|].
  rewrite (H a (or_introl eq_refl)), IH; [reflexivity|]. intros b Hb. apply H. right. exact Hb.
Qed.

Lemma flat_map_nil' {A B} (f : A -> list B) (l : list A) :
  (forall a, In a l -> f a = []) -> flat_map f l = [].
Proof.
  induction l as [|a l IH]; intros H; cbn [flat_map]; [reflexivity|].
  rewrite (H a (or_introl eq_refl)), IH; [reflexivity|]. intros b Hb. apply H. right. exact Hb.
Qed.

Lemma flat_map_map' {A B C} (f : B -> list C) (g : A -> B) (l : list A) :
  flat_map f (map g l) = flat_map (fun a => f (g a)) l.
Proof. induction l as [|a l IH]; cbn [flat_map map]; [reflexivity|]. rewrite IH. reflexivity. Qed.

Lemma in_scan (ms : list CapabilityMatrixWithRows) m r :
  In m ms -> In r (m_rows m) -> In (m_id m, r) (scan ms).
Proof.
  intros Hm Hr. unfold scan. apply in_flat_map. exists m. split; [exact Hm|].
  apply in_map_iff. exists r. split; [reflexivity|exact Hr].
Qed.

End DeleteInfoFacts.

Module DeleteInfo.
Import Comparison ComparisonView ComparisonOps DeleteInfoFacts.

(** X7: [getRequirementDeleteInfo] on the result of [buildComparisonData]: when the matrix
    ids are distinct, the reported companies are, in matrix order, the matrices whose
    last row under the normalized requirement has a score, past performance or comments;
    each entry carries that row's score and which texts are non-blank. A requirement
    that normalizes to the empty string reports no company. *)
Lemma getRequirementDeleteInfo_companies (ms : list CapabilityMatrixWithRows) (t : string) :
  NoDup (map m_id ms) ->
  let info := getRequirementDeleteInfo (buildComparisonData ms) t in
  let k := normalizeRequirement t in
  rdi_requirement info = t /\
  rdi_companiesWithData info =
    if String.eqb k EmptyString then [] else
    flat_map (fun m =>
      match last (map Some (filter (fun r => String.eqb (row_key r) k) (m_rows m))) None with
      | Some r =>
          if has_data (cell_of_row r)
          then [{| cw_matrixId := m_id m; cw_matrixName := m_name m;
                   cw_score := row_experienceAndCapability r;
                   cw_hasComments := not_blank (row_comments r);
                   cw_hasPastPerformance := not_blank (row_pastPerformance r) |}]
          else []
      | None => []
      end) ms.
Proof.
  intros HN. cbv zeta. split; [reflexivity|].
  unfold getRequirementDeleteInfo. cbv zeta. cbn [rdi_companiesWithData].
  rewrite C3G.cd_rows_spec, find_comp_row.
  set (k := normalizeRequirement t). set (D := dedup_first (scan_keys (scan ms))).
  destruct (find_key D k) as [[Hin E]|[Hin E]]; rewrite E; cbn [option_map].
  - unfold D in Hin. apply DedupFacts.dedup_first_In, C3F.in_scan_keys in Hin as [Hk _].
    destruct (String.eqb_spec k EmptyString) as [|_]; [contradiction|].
    rewrite fold_visit_company. cbn [app]. replace (cd_matrices (buildComparisonData ms)) with (map (fun m => (m_id m, m_name m)) ms) by reflexivity.
    rewrite flat_map_map'. apply flat_map_ext_in. intros m Hm.
    cbn [comp_row cr_cells]. rewrite C3G.cells_of_get, (C3.last_cell_matrix ms m k HN Hm).
    destruct (last _ None) as [r|]; reflexivity.
  - destruct (String.eqb_spec k EmptyString) as [|Hk]; [reflexivity|].
    symmetry. apply flat_map_nil'. intros m Hm.
    replace (filter (fun r => String.eqb (row_key r) k) (m_rows m)) with (@nil CapabilityMatrixRow);
      [reflexivity|].
    symmetry. rewrite (filter_ext_in _ (fun _ => false)); [apply filter_false|]. intros r Hr.
    destruct (String.eqb_spec (row_key r) k) as [Er|]; [|reflexivity].
    exfalso. apply Hin. unfold D. apply DedupFacts.dedup_first_In, C3F.in_scan_keys.
    split; [exact Hk|]. exists (m_id m, r). split; [apply in_scan; assumption|exact Er].
Qed.

End DeleteInfo.

Module LedgerOpsFacts.
Import Ledger LedgerOps.

Lemma find_app {A} (f : A -> bool) (l1 l2 : list A) :
  find f (l1 ++ l2) = match find f l1 with Some x => Some x | None => find f l2 end.
Proof. induction l1 as [|a l1 IH]; cbn [find app]; [reflexivity|]. destruct (f a); [reflexivity|exact IH]. Qed.

Lemma find_map_upd (k k' : string) (v : option string) (s : Settings) :
  find (fun kv => String.eqb (fst kv) k')
       (map (fun kv => if String.eqb (fst kv) k then (fst kv, v) else kv) s) =
  option_map (fun kv => if String.eqb (fst kv) k then (fst kv, v) else kv)
             (find (fun kv => String.eqb (fst kv) k') s).
Proof.
  induction s as [|[a b] s IH]; cbn [map find]; [reflexivity|]. cbn [fst].
  destruct (String.eqb a k) eqn:E1; cbn [fst]; destruct (String.eqb a k'); cbn [option_map fst];
    rewrite ?E1; try reflexivity; exact IH.
Qed.

Lemma getSetting_setSetting (k k' : string) (v : option string) (s : Settings) :
  getSetting k' (setSetting k v s) = if String.eqb k' k then v else getSetting k' s.
Proof.
  unfold getSetting, setSetting.
  destruct (existsb (fun kv => String.eqb (fst kv) k) s) eqn:Ex.
  - rewrite find_map_upd.
    destruct (find (fun kv => String.eqb (fst kv) k') s) as [[a b]|] eqn:F.
    + apply find_some in F as [Hin Ha]. cbn [fst] in Ha. apply String.eqb_eq in Ha. subst a.
      cbn [option_map fst snd]. rewrite String.eqb_sym.
      destruct (String.eqb k k'); reflexivity.
    + destruct (String.eqb_spec k' k) as [->|]; [|reflexivity]. exfalso.
      apply existsb_exists in Ex as [kv [Hin Hkv]].
      pose proof (find_none _ _ F kv Hin) as G. cbv beta in G. congruence.
  - rewrite find_app. destruct (find (fun kv => String.eqb (fst kv) k') s) as [[a b]|] eqn:F.
    + apply find_some in F as [Hin Ha]. cbn [fst] in Ha. apply String.eqb_eq in Ha. subst a.
      destruct (String.eqb_spec k' k) as [->|]; [|reflexivity].
      exfalso. assert (existsb (fun kv => String.eqb (fst kv) k) s = true) as E'.
      { apply existsb_exists. exists (k, b). cbn [fst]. rewrite String.eqb_refl. split; auto. }
      congruence.
    + cbn [find fst snd]. rewrite String.eqb_sym. destruct (String.eqb k' k); reflexivity.
Qed.

Lemma setSetting_keys (k : string) (v : option string) (s : Settings) :
  map fst (setSetting k v s) =
  if existsb (fun kv => String.eqb (fst kv) k) s then map fst s else map fst s ++ [k].
Proof.
  unfold setSetting. destruct (existsb _ s); [|rewrite map_app; reflexivity].
  rewrite map_map. apply map_ext. intros [a b]. cbn [fst]. destruct (String.eqb a k); reflexivity.
Qed.

Lemma valid_score_roundtrip (s : Score) :
  (forall z, s = Some z -> 0 <= z <= 3) -> parseScore (scoreToDb s) = s.
Proof.
  intros H. destruct s as [z|]; [|reflexivity].
  assert (Hz : z = 0 \/ z = 1 \/ z = 2 \/ z = 3) by (specialize (H z eq_refl); lia).
  destruct Hz as [->|[->|[->| ->]]]; vm_compute; reflexivity.
Qed.


Lemma sort_by_key_snoc {A} (key : A -> Z) (l : list A) (x : A) :
  (forall y, In y l -> key y < key x) -> sort_by_key key (l ++ [x]) = sort_by_key key l ++ [x].
Proof.
  intros H. unfold sort_by_key, JsSort.sort. rewrite fold_left_app. cbn [fold_left].
  apply C3G.insert_last. intros y Hy. apply Z.ltb_ge.
  apply (Permutation_in _ (SortFacts.sort_perm _ l)) in Hy. specialize (H y Hy). lia.
Qed.

Lemma find_app_absent {A} (f : A -> bool) (l : list A) (x : A) :
  existsb f l = false -> find f (l ++ [x]) = if f x then Some x else None.
Proof.
  induction l as [|a l IH]; cbn [find existsb app]; [reflexivity|].
  destruct (f a); [discriminate|]. exact IH.
Qed.

End LedgerOpsFacts.

Module LedgerOpsFacts2.
Import Ledger LedgerOps LedgerOpsFacts.

Lemma find_filter_other {A} (f g : A -> bool) (l : list A) :
  (forall x, f x = true -> g x = true) -> find f (filter g l) = find f l.
Proof.
  intros H. induction l as [|a l IH]; cbn [filter find]; [reflexivity|].
  destruct (g a) eqn:Ga; cbn [find]; [destruct (f a); [reflexivity|exact IH]|].
  destruct (f a) eqn:Fa; [rewrite (H a Fa) in Ga; discriminate|exact IH].
Qed.

Lemma find_filter_none {A} (f g : A -> bool) (l : list A) :
  (forall x, f x = true -> g x = false) -> find f (filter g l) = None.
Proof.
  intros H. induction l as [|a l IH]; cbn [filter find]; [reflexivity|].
  destruct (g a) eqn:Ga; cbn [find]; [|exact IH].
  destruct (f a) eqn:Fa; [rewrite (H a Fa) in Ga; discriminate|exact IH].
Qed.

Lemma filter_filter_eq (mid id : string) (rows : list MatrixRowDbRow) :
  filter (fun r => String.eqb (db_matrix_id r) mid)
         (filter (fun r => negb (String.eqb (db_matrix_id r) id)) rows) =
  if String.eqb mid id then [] else filter (fun r => String.eqb (db_matrix_id r) mid) rows.
Proof.
  induction rows as [|r rows IH]; cbn [filter].
  - destruct (String.eqb mid id); reflexivity.
  - destruct (String.eqb_spec (db_matrix_id r) id) as [Ei|Ei]; cbn [negb filter].
    + rewrite IH. destruct (String.eqb_spec mid id) as [->|Hm]; [reflexivity|].
      rewrite Ei. destruct (String.eqb_spec id mid); [congruence|reflexivity].
    + rewrite IH. destruct (String.eqb_spec mid id) as [->|Hm];
        [destruct (String.eqb_spec (db_matrix_id r) id); [congruence|reflexivity]|reflexivity].
Qed.

Lemma count_split (ms : list MatrixDbRow) :
  forallb (fun m => Z.eqb (mt_is_imported m) 0 || Z.eqb (mt_is_imported m) 1) ms = true ->
  length ms = (length (filter (fun m => Z.eqb (mt_is_imported m) 0) ms)
               + length (filter (fun m => Z.eqb (mt_is_imported m) 1) ms))%nat.
Proof.
  induction ms as [|m ms IH]; cbn [forallb filter length]; [reflexivity|].
  intros H. apply andb_true_iff in H as [Hm H]. specialize (IH H).
  destruct (Z.eqb_spec (mt_is_imported m) 0) as [E0|E0];
  destruct (Z.eqb_spec (mt_is_imported m) 1) as [E1|E1]; cbn [orb length] in *; try lia;
    discriminate.
Qed.

Lemma rowToDb_roundtrip (row : CapabilityMatrixRow) :
  (forall z, row_experienceAndCapability row = Some z -> 0 <= z <= 3) ->
  mapMatrixRowRow (rowToDb row) = row.
Proof.
  intros H. unfold mapMatrixRowRow, rowToDb. cbn [db_id db_matrix_id db_requirement_number
    db_requirements db_experience_and_capability db_past_performance db_comments db_row_order].
  rewrite (valid_score_roundtrip _ H). destruct row; reflexivity.
Qed.

Lemma filter_absent {A} (f : A -> bool) (l : list A) :
  existsb f l = false -> filter (fun x => negb (f x)) l = l.
Proof.
  induction l as [|a l IH]; cbn [existsb filter]; [reflexivity|].
  destruct (f a); [discriminate|]. cbn [negb]. intros H. rewrite IH by exact H. reflexivity.
Qed.

End LedgerOpsFacts2.

Module LedgerExtra.
Import Ledger LedgerOps LedgerOpsFacts LedgerOpsFacts2.

(** X8: [setSetting] then [getSetting]: reading the key just written gives the value
    written (also [null]); every other key reads as before. The upsert never
    creates a second row for a key. *)
Lemma setSetting_getSetting (k k' : string) (v : option string) (s : Settings) :
  getSetting k' (setSetting k v s) = (if String.eqb k' k then v else getSetting k' s) /\
  (NoDup (map fst s) -> NoDup (map fst (setSetting k v s))).
Proof.
  split; [apply getSetting_setSetting|]. intros N. rewrite setSetting_keys.
  destruct (existsb (fun kv => String.eqb (fst kv) k) s) eqn:Ex; [exact N|].
  apply (Permutation_NoDup (Permutation_cons_append (map fst s) k)). constructor; [|exact N].
  intros Hin. apply in_map_iff in Hin as [kv [Hk Hin]].
  assert (existsb (fun kv => String.eqb (fst kv) k) s = true) as E'.
  { apply existsb_exists. exists kv. rewrite Hk, String.eqb_refl. split; auto. }
  congruence.
Qed.

(** X9: [setTheme] then [getTheme] gives back the theme (also [null]), and
    [setActiveMatrixId] then [getActiveMatrixId] gives back the id; each setter
    leaves what the other getter reads unchanged. *)
Lemma theme_activeMatrixId_roundtrip (th : option Theme) (id : option string) (s : Settings) :
  getTheme (setTheme th s) = th /\
  getActiveMatrixId (setTheme th s) = getActiveMatrixId s /\
  getActiveMatrixId (setActiveMatrixId id s) = id /\
  getTheme (setActiveMatrixId id s) = getTheme s.
Proof.
  unfold getTheme, setTheme, getActiveMatrixId, setActiveMatrixId.
  rewrite !getSetting_setSetting. cbn [String.eqb Ascii.eqb Bool.eqb andb].
  split; [destruct th as [[|]|]; reflexivity|]. split; [reflexivity|]. split; reflexivity.
Qed.


(** X11: [countMatrices]: while every stored [is_imported] flag is 0 or 1, the total
    is the user count plus the imported count. [createMatrix] stores only 0 or 1,
    adds one to the total and one to the user or the imported count, as the
    returned [isImported] says. *)
Lemma countMatrices_createMatrix (id now : string) (input : CreateMatrixInput) (st : Store) :
  (forallb (fun m => Z.eqb (mt_is_imported m) 0 || Z.eqb (mt_is_imported m) 1) (matrices st) = true ->
   total (countMatrices st) = user (countMatrices st) + imported (countMatrices st)) /\
  match createMatrix id now input st with
  | None => True
  | Some (st', m) =>
      forallb (fun m => Z.eqb (mt_is_imported m) 0 || Z.eqb (mt_is_imported m) 1) (matrices st') =
      forallb (fun m => Z.eqb (mt_is_imported m) 0 || Z.eqb (mt_is_imported m) 1) (matrices st) /\
      total (countMatrices st') = total (countMatrices st) + 1 /\
      user (countMatrices st') = user (countMatrices st) + (if cm_isImported m then 0 else 1) /\
      imported (countMatrices st') = imported (countMatrices st) + (if cm_isImported m then 1 else 0)
  end.
Proof.
  split.
  - intros H. unfold countMatrices. cbn [total user imported]. rewrite (count_split _ H). lia.
  - unfold createMatrix. destruct (existsb _ (matrices st)); [exact I|].
    unfold countMatrices. cbn [total user imported matrices cm_isImported].
    rewrite forallb_app, !filter_app, !length_app. cbn [forallb filter length mt_is_imported].
    destruct (isImported_of input); cbn [Z.eqb Pos.eqb orb andb length];
      rewrite ?andb_true_r; repeat split; lia.
Qed.

(** X12: [deleteMatrix]: afterwards the id reads as no matrix and has no rows; every
    other matrix and its rows read as before. *)
Lemma deleteMatrix_spec (id : string) (st : Store) :
  (forall id', getMatrixById id' (deleteMatrix id st) =
               if String.eqb id' id then None else getMatrixById id' st) /\
  (forall mid, getMatrixRows mid (deleteMatrix id st) =
               if String.eqb mid id then [] else getMatrixRows mid st).
Proof.
  split.
  - intros id'. unfold getMatrixById, deleteMatrix. cbn [matrices].
    destruct (String.eqb_spec id' id) as [->|Hne].
    + rewrite find_filter_none; [reflexivity|]. intros x Hx. rewrite Hx. reflexivity.
    + rewrite find_filter_other; [reflexivity|]. intros x Hx. apply String.eqb_eq in Hx.
      rewrite Hx. destruct (String.eqb_spec id' id); [contradiction|reflexivity].
  - intros mid. unfold getMatrixRows, deleteMatrix. cbn [matrix_rows].
    rewrite filter_filter_eq. destruct (String.eqb mid id); reflexivity.
Qed.


(** X14: [deleteMatrixRow] on the row [createMatrixRow] just created gives back the
    rows table as it was before the creation. *)
Lemma deleteMatrixRow_createMatrixRow (id now now' : string) (input : CreateMatrixRowInput) (st : Store) :
  match createMatrixRow id now input st with
  | None => True
  | Some (st', row) => matrix_rows (deleteMatrixRow now' (row_id row) st') = matrix_rows st
  end.
Proof.
  unfold createMatrixRow.
  destruct (existsb (fun r => String.eqb (db_id r) id) (matrix_rows st)) eqn:Ex; [exact I|].
  cbn [row_id]. unfold deleteMatrixRow, updateMatrixTimestamp, set_updated_at. cbn [matrix_rows].
  assert (Hf : filter (fun r => negb (String.eqb (db_id r) id))
     (matrix_rows st ++ [rowToDb {| row_id := id; row_matrixId := cri_matrixId input;
        row_requirementNumber := str_default (cri_requirementNumber input);
        row_requirements := str_default (cri_requirements input);
        row_experienceAndCapability := cri_experienceAndCapability input;
        row_pastPerformance := str_default (cri_pastPerformance input);
        row_comments := str_default (cri_comments input);
        row_rowOrder := match cri_rowOrder input with
          | Some o => o
          | None => match max_order (cri_matrixId input) st with Some m => m | None => -1 end + 1
          end |}]) = matrix_rows st).
  { rewrite filter_app, (filter_absent _ _ Ex). cbn [filter rowToDb db_id].
    rewrite String.eqb_refl. cbn [negb]. apply app_nil_r. }
  destruct (find _ _); cbn [matrix_rows]; exact Hf.
Qed.

(** X15: [updateMatrixRow]: with no field given it changes nothing. In every case it
    keeps each row's id and matrix in place, leaves the rows with other ids as
    they were, and a score in 0..3 or [null] given for the row reads back. *)
Lemma updateMatrixRow_spec (now id : string) (input : UpdateMatrixRowInput) (st : Store) :
  (has_updates input = false -> updateMatrixRow now id input st = st) /\
  map db_id (matrix_rows (updateMatrixRow now id input st)) = map db_id (matrix_rows st) /\
  map db_matrix_id (matrix_rows (updateMatrixRow now id input st)) = map db_matrix_id (matrix_rows st) /\
  (forall r, In r (matrix_rows (updateMatrixRow now id input st)) -> db_id r <> id ->
             In r (matrix_rows st)) /\
  (forall s, uri_experienceAndCapability input = Some s -> (forall z, s = Some z -> 0 <= z <= 3) ->
   forall r, In r (matrix_rows (updateMatrixRow now id input st)) -> db_id r = id ->
             row_experienceAndCapability (mapMatrixRowRow r) = s).
Proof.
  assert (Hrows : has_updates input = true -> matrix_rows (updateMatrixRow now id input st) =
            map (fun r => if String.eqb (db_id r) id then apply_update input r else r) (matrix_rows st)).
  { intros H. unfold updateMatrixRow. rewrite H. cbn [negb].
    destruct (find _ _); reflexivity. }
  destruct (has_updates input) eqn:Hu.
  2:{ unfold updateMatrixRow. rewrite Hu. cbn [negb].
      split; [reflexivity|]. split; [reflexivity|]. split; [reflexivity|]. split; [tauto|].
      intros s Hs. unfold has_updates in Hu. rewrite Hs in Hu.
      cbn [is_some] in Hu. rewrite !orb_true_r in Hu. discriminate. }
  rewrite (Hrows eq_refl). split; [discriminate|].
  split; [rewrite map_map; apply map_ext; intros r; destruct (String.eqb (db_id r) id); reflexivity|].
  split; [rewrite map_map; apply map_ext; intros r; destruct (String.eqb (db_id r) id); reflexivity|].
  split.
  - intros r Hin Hne. apply in_map_iff in Hin as [r0 [E Hin]].
    destruct (String.eqb_spec (db_id r0) id) as [Hid|]; [|subst r; exact Hin].
    exfalso. apply Hne. rewrite <- E. exact Hid.
  - intros s Hs Hv r Hin Hid. apply in_map_iff in Hin as [r0 [E Hin]].
    destruct (String.eqb_spec (db_id r0) id) as [Hid0|Hid0].
    + subst r. unfold mapMatrixRowRow, apply_update. cbn [row_experienceAndCapability
        db_experience_and_capability]. rewrite Hs. apply valid_score_roundtrip. exact Hv.
    + subst r. contradiction.
Qed.

End LedgerExtra.

Module TrimFacts.
Import Str.

Section Trim.
Variable p : ascii -> bool.

Lemma trim_start_shape (s : string) :
  trim_start_by p s = EmptyString \/
  exists c r, trim_start_by p s = String c r /\ p c = false.
Proof.
  induction s as [|c r IH]; cbn [trim_start_by]; [left; reflexivity|].
  destruct (p c) eqn:Pc; [exact IH|]. right. exists c, r. split; [reflexivity|exact Pc].
Qed.

Lemma trim_end_head (c : ascii) (r : string) :
  p c = false -> trim_end_by p (String c r) = String c (trim_end_by p r).
Proof. intros Pc. cbn [trim_end_by]. rewrite Pc, andb_false_r. reflexivity. Qed.

Lemma trim_end_shape (s : string) :
  trim_end_by p s = EmptyString \/
  exists x c, trim_end_by p s = x +++ String c EmptyString /\ p c = false.
Proof.
  induction s as [|c r IH]; cbn [trim_end_by]; [left; reflexivity|].
  destruct (String.eqb_spec (trim_end_by p r) EmptyString) as [E|E].
  - rewrite E. cbn [andb]. destruct (p c) eqn:Pc; [left; reflexivity|].
    right. exists EmptyString, c. split; [reflexivity|exact Pc].
  - cbn [andb]. right. destruct IH as [IH|[x [c' [IH Pc']]]]; [contradiction|].
    exists (String c x), c'. rewrite IH. split; [reflexivity|exact Pc'].
Qed.

Lemma trim_end_fixed (x : string) (c : ascii) :
  p c = false -> trim_end_by p (x +++ String c EmptyString) = x +++ String c EmptyString.
Proof.
  intros Pc. induction x as [|a x IH].
  - cbn [trim_end_by append]. rewrite Pc, andb_false_r. reflexivity.
  - cbn [append trim_end_by]. rewrite IH.
    replace (String.eqb (x +++ String c EmptyString) EmptyString) with false
      by (destruct x; reflexivity).
    reflexivity.
Qed.

Lemma trim_by_shape (s : string) :
  trim_by p s = EmptyString \/
  ((exists c r, trim_by p s = String c r /\ p c = false) /\
   (exists x c, trim_by p s = x +++ String c EmptyString /\ p c = false)).
Proof.
  unfold trim_by. destruct (trim_start_shape s) as [E|[c [r [E Pc]]]]; rewrite E.
  - left. reflexivity.
  - rewrite (trim_end_head c r Pc). right. split.
    + exists c, (trim_end_by p r). split; [reflexivity|exact Pc].
    + rewrite <- (trim_end_head c r Pc).
      destruct (trim_end_shape (String c r)) as [E'|H]; [|exact H].
      rewrite (trim_end_head c r Pc) in E'. discriminate.
Qed.

Lemma trim_by_idem (s : string) : trim_by p (trim_by p s) = trim_by p s.
Proof.
  destruct (trim_by_shape s) as [E|[[c [r [E1 Pc]]] [x [c' [E2 Pc']]]]].
  - rewrite E. reflexivity.
  - unfold trim_by at 1. rewrite E1. cbn [trim_start_by]. rewrite Pc.
    rewrite <- E1, E2. apply trim_end_fixed. exact Pc'.
Qed.

Lemma trim_start_chars (q : ascii -> bool) (s : string) :
  StrOps.all_chars q s = true -> StrOps.all_chars q (trim_start_by p s) = true.
Proof.
  induction s as [|c r IH]; cbn [trim_start_by StrOps.all_chars]; [tauto|].
  intros H. apply andb_true_iff in H as [Hc Hr].
  destruct (p c); [apply IH; exact Hr|]. cbn [StrOps.all_chars]. rewrite Hc, Hr. reflexivity.
Qed.

Lemma trim_end_chars (q : ascii -> bool) (s : string) :
  StrOps.all_chars q s = true -> StrOps.all_chars q (trim_end_by p s) = true.
Proof.
  induction s as [|c r IH]; cbn [trim_end_by StrOps.all_chars]; [tauto|].
  intros H. apply andb_true_iff in H as [Hc Hr].
  destruct (String.eqb (trim_end_by p r) EmptyString && p c); [reflexivity|].
  cbn [StrOps.all_chars]. rewrite Hc, (IH Hr). reflexivity.
Qed.

Lemma trim_by_chars (q : ascii -> bool) (s : string) :
  StrOps.all_chars q s = true -> StrOps.all_chars q (trim_by p s) = true.
Proof. intros H. apply trim_end_chars, trim_start_chars, H. Qed.

End Trim.

Lemma js_trim_idem (s : string) : js_trim (js_trim s) = js_trim s.
Proof. apply trim_by_idem. Qed.

End TrimFacts.

Module CellFacts.
Import Importer.

Lemma getCellString_trimmed (cell : option CellObject) :
  Str.js_trim (getCellString cell) = getCellString cell.
Proof.
  destruct cell as [[val wt]|]; [|reflexivity]. unfold getCellString. cbn [v w].
  destruct val; try reflexivity; destruct wt; apply TrimFacts.js_trim_idem.
Qed.

End CellFacts.

Module ImporterExtra.
Import Importer.

(** X17: [getCellString] never returns text with leading or trailing white space,
    and the rows [parseWorksheet] collects have a non-empty requirements text
    and requirements, past-performance and comments texts that [trim] leaves
    unchanged. *)
Lemma parsed_rows_trimmed (cell : option CellObject) (sheet : WorkSheet) :
  Str.js_trim (getCellString cell) = getCellString cell /\
  Forall (fun p => pr_requirements p <> EmptyString /\
                   Str.js_trim (pr_requirements p) = pr_requirements p /\
                   Str.js_trim (pr_pastPerformance p) = pr_pastPerformance p /\
                   Str.js_trim (pr_comments p) = pr_comments p)
         (worksheet_rows sheet).
Proof.
  split; [apply CellFacts.getCellString_trimmed|].
  pose proof (C6.rows_fields sheet (findHeaderInfo sheet)
                (upto (hi_row (findHeaderInfo sheet) + 1) (e_r (decode_range sheet))) [] (JsNum.NFin 1)) as H.
  fold (worksheet_rows sheet) in H. cbn [map app] in H.
  apply Forall_forall. intros pr Hin.
  apply (in_map (fun p => (pr_requirements p, pr_experienceAndCapability p,
                           pr_pastPerformance p, pr_comments p))) in Hin.
  rewrite H in Hin. apply in_map_iff in Hin as [r [E Hr]]. apply filter_In in Hr as [_ Hk].
  injection E as E1 _ E3 E4. rewrite <- E1, <- E3, <- E4.
  rewrite !CellFacts.getCellString_trimmed. repeat split; try reflexivity.
  intros Z. rewrite Z in Hk. discriminate.
Qed.

End ImporterExtra.

Module ExportNameFacts.
Import ExporterOps StrOps ExportNameView.

Lemma drop_unsafe_chars (s : string) :
  all_chars (fun c => is_alnum c || Str.is_js_ws c || Ascii.eqb c "-"%char) (drop_unsafe s) = true.
Proof.
  induction s as [|c r IH]; cbn [drop_unsafe]; [reflexivity|].
  destruct (is_alnum c || Str.is_js_ws c || Ascii.eqb c "-"%char) eqn:E; [|exact IH].
  cbn [all_chars]. rewrite E, IH. reflexivity.
Qed.

Lemma all_chars_impl (q q' : ascii -> bool) (s : string) :
  (forall c, q c = true -> q' c = true) -> all_chars q s = true -> all_chars q' s = true.
Proof.
  intros H. induction s as [|c r IH]; cbn [all_chars]; [tauto|].
  intros G. apply andb_true_iff in G as [G1 G2]. rewrite (H c G1), (IH G2). reflexivity.
Qed.

Lemma class_no_us (c : ascii) :
  (is_alnum c || Str.is_js_ws c || Ascii.eqb c "-"%char) = true -> no_us c = true.
Proof.
  intros H. unfold no_us. destruct (Ascii.eqb_spec c "_"%char) as [->|]; [|reflexivity].
  vm_compute in H. discriminate.
Qed.

Lemma replace_chars (b : bool) (s : string) :
  all_chars (fun c => is_alnum c || Str.is_js_ws c || Ascii.eqb c "-"%char) s = true ->
  all_chars (fun c => is_alnum c || Ascii.eqb c "-"%char || Ascii.eqb c "_"%char)
            (replace_ws_runs b s) = true.
Proof.
  revert b. induction s as [|c r IH]; intros b H; cbn [replace_ws_runs]; [reflexivity|].
  cbn [all_chars] in H. apply andb_true_iff in H as [Hc Hr].
  destruct (Str.is_js_ws c) eqn:W.
  - destruct b; [apply IH; exact Hr|]. cbn [all_chars]. rewrite (IH true Hr).
    reflexivity.
  - cbn [all_chars]. rewrite (IH false Hr), andb_true_r. cbv beta in Hc |- *. rewrite orb_false_r in Hc.
    apply orb_true_iff in Hc as [Hc|Hc]; rewrite Hc; [reflexivity|].
    rewrite orb_true_r. reflexivity.
Qed.

Lemma replace_run_head (s : string) (r : string) :
  all_chars no_us s = true -> replace_ws_runs true s <> String "_"%char r.
Proof.
  revert r. induction s as [|c s IH]; intros r H; cbn [replace_ws_runs]; [discriminate|].
  cbn [all_chars] in H. apply andb_true_iff in H as [Hc Hs].
  destruct (Str.is_js_ws c); [apply IH; exact Hs|].
  intros E. injection E as Ec _. subst c. vm_compute in Hc. discriminate.
Qed.

Lemma replace_no_double (b : bool) (s x y : string) :
  all_chars no_us s = true -> replace_ws_runs b s <> x +++ "__" +++ y.
Proof.
  revert b x. induction s as [|c s IH]; intros b x H; cbn [replace_ws_runs].
  - destruct x; discriminate.
  - cbn [all_chars] in H. apply andb_true_iff in H as [Hc Hs].
    destruct (Str.is_js_ws c).
    + destruct b; [apply IH; exact Hs|].
      destruct x as [|a x]; cbn [append].
      * intros E. injection E as E. apply (replace_run_head s y Hs). exact E.
      * intros E. injection E as _ E. apply (IH true x Hs). exact E.
    + destruct x as [|a x]; cbn [append].
      * intros E. injection E as Ec _. subst c. vm_compute in Hc. discriminate.
      * intros E. injection E as _ E. apply (IH false x Hs). exact E.
Qed.

Lemma replace_head (c : ascii) (r : string) :
  Str.is_js_ws c = false -> replace_ws_runs false (String c r) = String c (replace_ws_runs false r).
Proof. intros W. cbn [replace_ws_runs]. rewrite W. reflexivity. Qed.

Lemma replace_last (b : bool) (x : string) (c : ascii) :
  Str.is_js_ws c = false ->
  exists w, replace_ws_runs b (x +++ String c EmptyString) = w +++ String c EmptyString.
Proof.
  intros W. revert b. induction x as [|a x IH]; intros b; cbn [append replace_ws_runs].
  - rewrite W. exists EmptyString. reflexivity.
  - destruct (Str.is_js_ws a).
    + destruct b; [apply IH|]. destruct (IH true) as [w E]. rewrite E.
      exists (String "_"%char w). reflexivity.
    + destruct (IH false) as [w E]. rewrite E. exists (String a w). reflexivity.
Qed.

Lemma replace_id (b : bool) (s : string) :
  all_chars (fun c => negb (Str.is_js_ws c)) s = true -> replace_ws_runs b s = s.
Proof.
  revert b. induction s as [|c s IH]; intros b H; cbn [replace_ws_runs]; [reflexivity|].
  cbn [all_chars] in H. apply andb_true_iff in H as [Hc Hs].
  destruct (Str.is_js_ws c); [discriminate|]. rewrite (IH false Hs). reflexivity.
Qed.

Lemma drop_unsafe_id (s : string) :
  all_chars (fun c => is_alnum c || Ascii.eqb c "-"%char) s = true -> drop_unsafe s = s.
Proof.
  induction s as [|c s IH]; intros H; cbn [drop_unsafe]; [reflexivity|].
  cbn [all_chars] in H. apply andb_true_iff in H as [Hc Hs].
  replace (is_alnum c || Str.is_js_ws c || Ascii.eqb c "-"%char) with true
    by (apply orb_true_iff in Hc as [Hc|Hc]; rewrite Hc; [reflexivity|rewrite !orb_true_r; reflexivity]).
  rewrite (IH Hs). reflexivity.
Qed.

Lemma alnum_not_ws (c : ascii) :
  (is_alnum c || Ascii.eqb c "-"%char) = true -> negb (Str.is_js_ws c) = true.
Proof.
  intros H. destruct c as [b0 b1 b2 b3 b4 b5 b6 b7].
  destruct b0, b1, b2, b3, b4, b5, b6, b7; vm_compute in H |- *; try reflexivity; discriminate.
Qed.

Lemma trim_no_ws (s : string) :
  all_chars (fun c => negb (Str.is_js_ws c)) s = true -> Str.js_trim s = s.
Proof.
  intros H. unfold Str.js_trim, Str.trim_by.
  assert (Hs : Str.trim_start_by Str.is_js_ws s = s).
  { destruct s as [|c r]; [reflexivity|]. cbn [all_chars] in H.
    apply andb_true_iff in H as [Hc _]. cbn [Str.trim_start_by].
    destruct (Str.is_js_ws c); [discriminate|reflexivity]. }
  rewrite Hs. clear Hs. induction s as [|c r IH]; [reflexivity|].
  cbn [all_chars] in H. apply andb_true_iff in H as [Hc Hr].
  rewrite TrimFacts.trim_end_head by (destruct (Str.is_js_ws c); [discriminate|reflexivity]).
  rewrite (IH Hr). reflexivity.
Qed.

End ExportNameFacts.

Module ExportNameFacts2.
Import ExporterOps StrOps ExportNameView.

Lemma app_single_inj (a b : string) (c d : ascii) :
  a +++ String c EmptyString = b +++ String d EmptyString -> c = d.
Proof.
  revert b. induction a as [|x a IH]; intros b E; destruct b as [|y b]; cbn [append] in E.
  - injection E as E. exact E.
  - injection E as _ E. destruct b; discriminate.
  - injection E as _ E. destruct a; discriminate.
  - injection E as _ E. apply (IH b E).
Qed.

Lemma all_chars_app (q : ascii -> bool) (a b : string) :
  all_chars q (a +++ b) = all_chars q a && all_chars q b.
Proof.
  induction a as [|c a IH]; cbn [append all_chars]; [reflexivity|]. rewrite IH, andb_assoc. reflexivity.
Qed.

End ExportNameFacts2.

Module ExporterExtra.
Import ExporterOps StrOps ExportNameView ExportNameFacts ExportNameFacts2.

(** X23: [generateExportFilename]: the company part of the name
    ([Capability_Matrix_<name>_<date>.xlsx]) holds only ASCII letters, digits,
    hyphens and underscores, never two underscores in a row, and neither starts
    nor ends with an underscore; a company name made only of letters, digits and
    hyphens is kept as it is. *)
Lemma generateExportFilename_name (companyName date : string) :
  generateExportFilename companyName date =
    "Capability_Matrix_" +++ export_name companyName +++ "_" +++ date +++ ".xlsx" /\
  all_chars (fun c => is_alnum c || Ascii.eqb c "-"%char || Ascii.eqb c "_"%char)
            (export_name companyName) = true /\
  (forall x y, export_name companyName <> x +++ "__" +++ y) /\
  (forall r, export_name companyName <> String "_"%char r) /\
  (forall x, export_name companyName <> x +++ "_") /\
  (all_chars (fun c => is_alnum c || Ascii.eqb c "-"%char) companyName = true ->
   export_name companyName = companyName).
Proof.
  unfold export_name. set (t := Str.js_trim (drop_unsafe companyName)).
  assert (Ht : all_chars (fun c => is_alnum c || Str.is_js_ws c || Ascii.eqb c "-"%char) t = true)
    by (apply TrimFacts.trim_by_chars, drop_unsafe_chars).
  assert (Hu : all_chars no_us t = true) by (apply (all_chars_impl _ _ t class_no_us Ht)).
  split; [reflexivity|]. split; [apply replace_chars, Ht|].
  split; [intros x y; apply replace_no_double, Hu|].
  split; [|split].
  - intros r. destruct (TrimFacts.trim_by_shape Str.is_js_ws (drop_unsafe companyName))
      as [E|[[c [r' [E Pc]]] _]]; fold (Str.js_trim (drop_unsafe companyName)) in E; fold t in E;
      rewrite E; [discriminate|].
    rewrite (replace_head c r' Pc). intros G. injection G as Gc _. subst c.
    rewrite E in Hu. vm_compute in Hu. discriminate.
  - intros x. destruct (TrimFacts.trim_by_shape Str.is_js_ws (drop_unsafe companyName))
      as [E|[_ [x' [c' [E Pc']]]]]; fold (Str.js_trim (drop_unsafe companyName)) in E; fold t in E;
      rewrite E; [destruct x; discriminate|].
    destruct (replace_last false x' c' Pc') as [w Ew]. rewrite Ew. intros G.
    apply app_single_inj in G. subst c'.
    rewrite E, all_chars_app in Hu. apply andb_true_iff in Hu as [_ Hu].
    vm_compute in Hu. discriminate.
  - intros H. unfold t. rewrite (drop_unsafe_id _ H).
    assert (Hw : all_chars (fun c => negb (Str.is_js_ws c)) companyName = true)
      by (apply (all_chars_impl _ _ _ alnum_not_ws H)).
    rewrite (trim_no_ws _ Hw). apply replace_id, Hw.
Qed.

End ExporterExtra.

Module PathFacts.
Import ImporterOps StrOps.

Lemma split_path_nonempty (s : string) : split_path s <> [].
Proof.
  destruct s as [|c r]; cbn [split_path]; [discriminate|].
  destruct (split_path r); [discriminate|]. destruct (is_path_sep c); discriminate.
Qed.

Lemma split_path_app_sep (a b : string) (c : ascii) :
  is_path_sep c = true -> split_path (a +++ String c b) = split_path a ++ split_path b.
Proof.
  intros Hc. induction a as [|x r IH]; cbn [append split_path].
  - destruct (split_path b) as [|seg segs] eqn:E; [exfalso; apply (split_path_nonempty b E)|].
    rewrite Hc. reflexivity.
  - rewrite IH. destruct (split_path r) as [|seg segs] eqn:E;
      [exfalso; apply (split_path_nonempty r E)|].
    cbn [app]. destruct (is_path_sep x); reflexivity.
Qed.

Lemma split_path_nosep (s : string) :
  all_chars (fun c => negb (is_path_sep c)) s = true -> split_path s = [s].
Proof.
  induction s as [|c r IH]; intros H; cbn [split_path]; [reflexivity|].
  cbn [all_chars] in H. apply andb_true_iff in H as [Hc Hr]. rewrite (IH Hr).
  destruct (is_path_sep c); [discriminate|reflexivity].
Qed.

End PathFacts.

Module ExtFacts.
Import Importer.

Lemma substring_prefix (a b : string) : substring 0 (String.length a) (a +++ b) = a.
Proof. induction a as [|c a IH]; cbn; [destruct b; reflexivity|]. rewrite IH. reflexivity. Qed.

Lemma substring_skip (a b : string) (m : nat) :
  substring (String.length a) m (a +++ b) = substring 0 m b.
Proof. induction a as [|c a IH]; [reflexivity|]. cbn [String.length append substring]. exact IH. Qed.

Lemma substring_all (s : string) : substring 0 (String.length s) s = s.
Proof. induction s as [|c s IH]; cbn; [reflexivity|]. rewrite IH. reflexivity. Qed.

Lemma map_chars_length (f : ascii -> ascii) (s : string) :
  String.length (Str.map_chars f s) = String.length s.
Proof. induction s as [|c s IH]; cbn; [reflexivity|]. rewrite IH. reflexivity. Qed.

Lemma map_chars_app (f : ascii -> ascii) (a b : string) :
  Str.map_chars f (a +++ b) = Str.map_chars f a +++ Str.map_chars f b.
Proof. induction a as [|c a IH]; cbn; [reflexivity|]. rewrite IH. reflexivity. Qed.

Lemma string_snoc (s : string) : s <> EmptyString -> exists x c, s = x +++ String c EmptyString.
Proof.
  induction s as [|c s IH]; intros H; [contradiction|].
  destruct s as [|c' s'].
  - exists EmptyString, c. reflexivity.
  - destruct IH as [x [d E]]; [discriminate|]. exists (String c x), d. rewrite E. reflexivity.
Qed.

End ExtFacts.

Module ImporterExtra2.
Import Importer ImporterOps StrOps PathFacts ExtFacts.

(** X20: [getFilenameFromPath] returns the text after the last slash or backslash,
    or the whole path when that text is empty (a path ending in a separator,
    or the empty path); a path without separator is returned as it is. *)
Lemma getFilenameFromPath_spec (path : string) :
  (all_chars (fun c => negb (is_path_sep c)) path = true -> getFilenameFromPath path = path) /\
  (forall dir c name, path = dir +++ String c name -> is_path_sep c = true ->
     all_chars (fun c => negb (is_path_sep c)) name = true ->
     getFilenameFromPath path = if String.eqb name EmptyString then path else name).
Proof.
  split.
  - intros H. unfold getFilenameFromPath. rewrite (split_path_nosep _ H). cbn [last].
    destruct (String.eqb path EmptyString); reflexivity.
  - intros dir c name -> Hc Hn. unfold getFilenameFromPath.
    rewrite (split_path_app_sep _ _ _ Hc), (split_path_nosep _ Hn), last_last. reflexivity.
Qed.

(** X21: [filename.replace(/\.(xlsx?|xls)$/i, '')], the fallback company name of
    [extractCompanyName]: a base name followed by [.xlsx] or [.xls] in any
    letter case gives back the base name. *)
Lemma strip_excel_ext_base (base ext : string) :
  Str.js_to_lower ext = ".xlsx"%string \/ Str.js_to_lower ext = ".xls"%string ->
  strip_excel_ext (base +++ ext) = base.
Proof.
  intros Hext. unfold strip_excel_ext. cbv zeta. unfold Str.js_to_lower in *.
  rewrite StrFacts.length_append, map_chars_app.
  assert (Lb : String.length (Str.map_chars Str.js_lower_char base) = String.length base)
    by apply map_chars_length.
  assert (Le : String.length (Str.map_chars Str.js_lower_char ext) = String.length ext)
    by apply map_chars_length.
  destruct Hext as [H5|H4].
  - rewrite H5 in Le. cbn in Le. rewrite <- Le.
    replace (5 <=? String.length base + 5)%nat with true by (symmetry; apply Nat.leb_le; lia).
    replace (String.length base + 5 - 5)%nat with (String.length base) by lia.
    rewrite <- Lb at 1. rewrite substring_skip, H5. cbn [andb]. rewrite substring_prefix. reflexivity.
  - rewrite H4 in Le. cbn in Le. rewrite <- Le.
    assert (First : ((5 <=? String.length base + 4)%nat &&
       String.eqb (substring (String.length base + 4 - 5) 5
          (Str.map_chars Str.js_lower_char base +++ ".xls")) ".xlsx") = false).
    { destruct (Nat.leb_spec 5 (String.length base + 4)) as [L|L]; [|reflexivity]. cbn [andb].
      destruct (string_snoc base) as [x [b Eb]]; [intros ->; cbn in L; lia|]. subst base.
      rewrite StrFacts.length_append. cbn [String.length].
      replace (String.length x + 1 + 4 - 5)%nat with (String.length (Str.map_chars Str.js_lower_char x))
        by (rewrite map_chars_length; lia).
      rewrite map_chars_app, StrFacts.append_assoc, substring_skip. cbn [Str.map_chars append].
      destruct (String.eqb_spec (substring 0 5 (String (Str.js_lower_char b) ".xls")) ".xlsx") as [E|];
        [|reflexivity].
      cbn in E. injection E as _ E. discriminate. }
    rewrite H4, First.
    replace (4 <=? String.length base + 4)%nat with true by (symmetry; apply Nat.leb_le; lia).
    replace (String.length base + 4 - 4)%nat with (String.length base) by lia.
    rewrite <- Lb at 1. rewrite substring_skip. cbn [andb]. rewrite substring_prefix. reflexivity.
Qed.

End ImporterExtra2.

Module ParseFilesFacts.
Import Importer ImporterOps.

Lemma parseExcelFile_nonempty {Data} (read : Data -> Exn + WorkBook) (data : Data) (filename : string) :
  (1 <= length (matrices (parseExcelFile read data filename)) +
       length (errors (parseExcelFile read data filename)))%nat.
Proof.
  unfold parseExcelFile, parseExcelFile_with. destruct (read data) as [e|wb]; [cbn; lia|].
  destruct (fold_left _ _ _) as [ms errs].
  destruct ms as [|m ms]; destruct errs as [|e errs]; cbn [andb length Nat.eqb matrices errors]; try lia.
  rewrite length_app. cbn. lia.
Qed.

Lemma fold_files {Data} (read : Data -> Exn + WorkBook) (files : list (Data * string)) ms errs :
  fold_left (fun '(ms, errs) (file : Data * string) =>
               let result := parseExcelFile read (fst file) (snd file) in
               (ms ++ matrices result, errs ++ errors result)) files (ms, errs) =
  (ms ++ flat_map (fun f => matrices (parseExcelFile read (fst f) (snd f))) files,
   errs ++ flat_map (fun f => errors (parseExcelFile read (fst f) (snd f))) files).
Proof.
  revert ms errs. induction files as [|f files IH]; intros ms errs; cbn [fold_left flat_map].
  - rewrite !app_nil_r. reflexivity.
  - rewrite IH, !app_assoc. reflexivity.
Qed.

End ParseFilesFacts.

Module ImporterExtra3.
Import Importer ImporterOps ParseFilesFacts.

(** X19: [parseExcelFiles] concatenates, file by file and in order, the matrices and
    the errors of [parseExcelFile]; since each file yields at least one matrix or
    one error, the result holds at least as many items as there are files. *)
Lemma parseExcelFiles_spec {Data} (read : Data -> Exn + WorkBook) (files : list (Data * string)) :
  matrices (parseExcelFiles Data read files) =
    flat_map (fun f => matrices (parseExcelFile read (fst f) (snd f))) files /\
  errors (parseExcelFiles Data read files) =
    flat_map (fun f => errors (parseExcelFile read (fst f) (snd f))) files /\
  (length files <= length (matrices (parseExcelFiles Data read files)) +
                   length (errors (parseExcelFiles Data read files)))%nat.
Proof.
  unfold parseExcelFiles. rewrite fold_files. cbn [matrices errors app].
  split; [reflexivity|]. split; [reflexivity|].
  induction files as [|f files IH]; cbn [flat_map length]; [lia|].
  rewrite !length_app. pose proof (parseExcelFile_nonempty read (fst f) (snd f)). lia.
Qed.

(** X18: [findHeaderInfo] picks a header row among the first 30 rows of the sheet's
    range (row 0 when none matches), reads the score, past-performance and
    comments columns right after a non-negative requirements column, and reports
    a requirement-number column exactly when its index is non-negative (-1 when
    absent). *)
Lemma findHeaderInfo_layout (sheet : WorkSheet) :
  let h := findHeaderInfo sheet in
  0 <= hi_row h <= Z.max 0 (Z.min (e_r (decode_range sheet)) 29) /\
  0 <= requirementsCol h /\
  scoreCol h = requirementsCol h + 1 /\
  pastPerfCol h = requirementsCol h + 2 /\
  commentsCol h = requirementsCol h + 3 /\
  (if hasReqNumberColumn h then 0 <= reqNumberCol h else reqNumberCol h = -1).
Proof.
  unfold findHeaderInfo. set (rg := decode_range sheet).
  assert (G : forall rows, Forall (fun x => 0 <= x <= Z.max 0 (Z.min (e_r rg) 29)) rows ->
    let h := first_header sheet rg rows in
    0 <= hi_row h <= Z.max 0 (Z.min (e_r rg) 29) /\ 0 <= requirementsCol h /\
    scoreCol h = requirementsCol h + 1 /\ pastPerfCol h = requirementsCol h + 2 /\
    commentsCol h = requirementsCol h + 3 /\
    (if hasReqNumberColumn h then 0 <= reqNumberCol h else reqNumberCol h = -1)).
  { induction rows as [|r rows IH]; intros HF; cbn [first_header].
    - cbn. repeat split; lia.
    - inversion HF as [|? ? Hr HF']; subst.
      destruct (scan_header_row sheet rg r) as [fReq fText].
      destruct (Z.leb_spec 0 fText) as [Ht|Ht]; [|apply IH; exact HF'].
      unfold header_of. destruct (Z.leb_spec 0 fReq); cbn; repeat split; lia. }
  apply G. unfold upto. apply Forall_forall. intros x Hx.
  pose proof (proj1 (Forall_forall _ _) (C6.seqZ_ge 0 _) x Hx) as Lo. cbv beta in Lo.
  split; [exact Lo|].
  assert (Up : forall a n y, In y (seqZ a n) -> y < a + Z.of_nat n).
  { intros a n. revert a. induction n as [|n IHn]; intros a y Hy; cbn [seqZ In] in Hy; [contradiction|].
    destruct Hy as [<-|Hy]; [lia|]. specialize (IHn (a + 1) y Hy). lia. }
  specialize (Up _ _ _ Hx). lia.
Qed.

End ImporterExtra3.

Module NormFacts.
Import Str Comparison ComparisonView.

Lemma lower_ws (c : ascii) : is_js_ws (js_lower_char c) = is_js_ws c.
Proof.
  destruct c as [b0 b1 b2 b3 b4 b5 b6 b7].
  destruct b0, b1, b2, b3, b4, b5, b6, b7; vm_compute; reflexivity.
Qed.

Lemma lower_idem (c : ascii) : js_lower_char (js_lower_char c) = js_lower_char c.
Proof.
  destruct c as [b0 b1 b2 b3 b4 b5 b6 b7].
  destruct b0, b1, b2, b3, b4, b5, b6, b7; vm_compute; reflexivity.
Qed.

Lemma map_chars_empty (f : ascii -> ascii) (s : string) :
  String.eqb (map_chars f s) EmptyString = String.eqb s EmptyString.
Proof. destruct s; reflexivity. Qed.

Lemma trim_lower (s : string) : js_trim (js_to_lower s) = js_to_lower (js_trim s).
Proof.
  unfold js_trim, trim_by, js_to_lower.
  assert (Hs : forall s, trim_start_by is_js_ws (map_chars js_lower_char s) =
                         map_chars js_lower_char (trim_start_by is_js_ws s)).
  { induction s0 as [|c r IH]; [reflexivity|]. cbn [map_chars trim_start_by].
    rewrite lower_ws. destruct (is_js_ws c); [exact IH|reflexivity]. }
  assert (He : forall s, trim_end_by is_js_ws (map_chars js_lower_char s) =
                         map_chars js_lower_char (trim_end_by is_js_ws s)).
  { induction s0 as [|c r IH]; [reflexivity|]. cbn [map_chars trim_end_by].
    rewrite IH, map_chars_empty, lower_ws.
    destruct (String.eqb (trim_end_by is_js_ws r) EmptyString && is_js_ws c); reflexivity. }
  rewrite Hs, He. reflexivity.
Qed.

Lemma lower_lower (s : string) : js_to_lower (js_to_lower s) = js_to_lower s.
Proof.
  unfold js_to_lower. induction s as [|c r IH]; [reflexivity|]. cbn [map_chars].
  rewrite lower_idem, IH. reflexivity.
Qed.

Lemma normalize_trim (s : string) : normalizeRequirement (js_trim s) = normalizeRequirement s.
Proof. unfold normalizeRequirement. rewrite TrimFacts.js_trim_idem. reflexivity. Qed.

Lemma normalize_idem (s : string) :
  normalizeRequirement (normalizeRequirement s) = normalizeRequirement s.
Proof.
  unfold normalizeRequirement. rewrite trim_lower, TrimFacts.js_trim_idem, lower_lower. reflexivity.
Qed.

End NormFacts.

Module ComparisonExtra.
Import Str Comparison ComparisonView NormFacts.

(** X22: [normalizeRequirement] is idempotent, and every row [buildComparisonData]
    returns has a display text that normalizes to the row's key, so the display
    text finds the row again wherever rows are matched by normalized text. *)
Lemma comparison_rows_display_key (ms : list CapabilityMatrixWithRows) (t : string) :
  normalizeRequirement (normalizeRequirement t) = normalizeRequirement t /\
  Forall (fun r => normalizeRequirement (cr_requirement r) = cr_normalizedRequirement r)
         (cd_rows (buildComparisonData ms)).
Proof.
  split; [apply normalize_idem|]. rewrite C3G.cd_rows_spec. apply Forall_forall.
  intros r Hr. apply in_map_iff in Hr as [k [<- Hk]]. apply (proj1 (DedupFacts.dedup_first_In _ _)) in Hk.
  destruct (C3F.first_occurrence_in _ _ Hk) as [q Hq]. cbn [comp_row cr_requirement cr_normalizedRequirement].
  rewrite Hq. rewrite normalize_trim. unfold first_occurrence in Hq.
  apply find_some in Hq as [_ Hq]. apply String.eqb_eq in Hq. exact Hq.
Qed.

End ComparisonExtra.

Module HexFacts.
Import Exporter.

(** X24: [hexToArgb]: [hex.replace('#', '')] removes only the first [#]; a color
    written [#RRGGBB] becomes [FFRRGGBB], and a color without [#] only gets the
    [FF] alpha prefix. *)
Lemma hexToArgb_spec (hex : string) :
  hexToArgb (String "#"%char hex) = "FF" +++ hex /\
  (StrOps.all_chars (fun c => negb (Ascii.eqb c "#"%char)) hex = true -> hexToArgb hex = "FF" +++ hex).
Proof.
  split; [reflexivity|]. intros H. unfold hexToArgb. f_equal.
  induction hex as [|c r IH]; [reflexivity|]. cbn [StrOps.all_chars] in H.
  apply andb_true_iff in H as [Hc Hr]. cbn [drop_first_hash].
  destruct (Ascii.eqb c "#"%char); [discriminate|]. rewrite (IH Hr). reflexivity.
Qed.

End HexFacts.

Module EmptyRowsFacts.
Import Ledger LedgerOps LedgerOpsFacts LedgerOpsFacts2 EmptyRowsView.

Lemma fold_step_none (ids clock : nat -> string) (mid : string) (l : list nat) :
  fold_left (step ids clock mid) l None = None.
Proof. induction l as [|i l IH]; [reflexivity|]. exact IH. Qed.

Lemma empty_rows_inv (ids clock : nat -> string) (mid : string) (st : Store) (n : nat) :
  match fold_left (step ids clock mid) (seq 0 n) (Some (st, [])) with
  | None => True
  | Some (s, rows) =>
      map row_rowOrder rows = map Z.of_nat (seq 0 n) /\
      Forall (fun r => row_matrixId r = mid /\ row_requirementNumber r = EmptyString /\
                       row_requirements r = EmptyString /\ row_experienceAndCapability r = None /\
                       row_pastPerformance r = EmptyString /\ row_comments r = EmptyString) rows /\
      matrix_rows s = matrix_rows st ++ map rowToDb rows
  end.
Proof.
  induction n as [|n IH].
  - cbn. split; [reflexivity|]. split; [constructor|]. rewrite app_nil_r. reflexivity.
  - rewrite seq_S, fold_left_app. cbn [fold_left].
    destruct (fold_left (step ids clock mid) (seq 0 n) (Some (st, []))) as [[s rows]|]; [|exact I].
    destruct IH as [IH1 [IH2 IH3]]. unfold step at 1. unfold createMatrixRow.
    destruct (existsb _ (matrix_rows s)); [exact I|].
    split; [rewrite !map_app, IH1; reflexivity|]. split.
    + apply Forall_app. split; [exact IH2|]. repeat constructor.
    + unfold updateMatrixTimestamp, set_updated_at. cbn [matrix_rows]. rewrite IH3, map_app, app_assoc.
      reflexivity.
Qed.

Lemma sort_increasing (rows : list CapabilityMatrixRow) (n : nat) :
  map row_rowOrder rows = map Z.of_nat (seq 0 n) -> sort_by_key row_rowOrder rows = rows.
Proof.
  revert rows. induction n as [|n IH]; intros rows H.
  - destruct rows; [reflexivity|discriminate].
  - rewrite seq_S, map_app in H. destruct rows as [|r rows'] using rev_ind; [destruct n; discriminate|].
    clear IHrows'. rewrite map_app in H. apply app_inj_tail in H as [H1 H2].
    rewrite sort_by_key_snoc, (IH rows' H1); [reflexivity|].
    intros y Hy. apply (in_map row_rowOrder) in Hy. rewrite H1 in Hy. rewrite H2.
    apply in_map_iff in Hy as [k [<- Hk]]. apply in_seq in Hk. lia.
Qed.

End EmptyRowsFacts.

Module EmptyRowsExtra.
Import Ledger LedgerOps LedgerOpsFacts LedgerOpsFacts2 EmptyRowsView EmptyRowsFacts.

(** X16: [createEmptyRows(matrixId, count)], when no insert is rejected, returns
    [count] rows (none for a count of 0 or less) with display orders 0, 1, ...,
    [count - 1], each in that matrix with empty texts and no score; it appends
    exactly these rows to the table, and for a matrix that had no rows
    [getMatrixRows] then returns them in this order. *)
Lemma createEmptyRows_spec (ids clock : nat -> string) (mid : string) (count : Z) (st : Store) :
  match createEmptyRows ids clock mid count st with
  | None => True
  | Some (st', rows) =>
      map row_rowOrder rows = map Z.of_nat (seq 0 (Z.to_nat count)) /\
      Forall (fun r => row_matrixId r = mid /\ row_requirementNumber r = EmptyString /\
                       row_requirements r = EmptyString /\ row_experienceAndCapability r = None /\
                       row_pastPerformance r = EmptyString /\ row_comments r = EmptyString) rows /\
      matrix_rows st' = matrix_rows st ++ map rowToDb rows /\
      (getMatrixRows mid st = [] -> getMatrixRows mid st' = rows)
  end.
Proof.
  pose proof (empty_rows_inv ids clock mid st (Z.to_nat count)) as H.
  unfold createEmptyRows. fold (step ids clock mid).
  destruct (fold_left (step ids clock mid) (seq 0 (Z.to_nat count)) (Some (st, [])))
    as [[st' rows]|]; [|exact I].
  destruct H as [H1 [H2 H3]]. split; [exact H1|]. split; [exact H2|]. split; [exact H3|].
  intros E. rewrite C1F.getMatrixRows_sorted in E |- *.
  assert (F0 : filter (fun r => String.eqb (db_matrix_id r) mid) (matrix_rows st) = []).
  { destruct (filter _ (matrix_rows st)) as [|x l] eqn:Ef; [reflexivity|].
    exfalso. pose proof (SortFacts.sort_perm (fun a b => row_rowOrder b <? row_rowOrder a)
             (map mapMatrixRowRow (x :: l))) as P.
    unfold sort_by_key in E. rewrite E in P. apply Permutation_nil in P. discriminate. }
  rewrite H3, filter_app, F0. cbn [app].
  assert (F1 : filter (fun r => String.eqb (db_matrix_id r) mid) (map rowToDb rows) = map rowToDb rows).
  { rewrite (filter_ext_in _ (fun _ => true)); [apply filter_true|].
    intros a Ha. apply in_map_iff in Ha as [r [<- Hr]].
    destruct (proj1 (Forall_forall _ _) H2 r Hr) as [Hm _]. cbn [rowToDb db_matrix_id].
    rewrite Hm. apply String.eqb_refl. }
  rewrite F1, map_map.
  rewrite (map_ext_in _ (fun r => r)), map_id; [apply (sort_increasing rows _ H1)|].
  intros r Hr. apply rowToDb_roundtrip.
  destruct (proj1 (Forall_forall _ _) H2 r Hr) as [_ [_ [_ [Hs _]]]]. rewrite Hs. discriminate.
Qed.

End EmptyRowsExtra.

Module ReqNumExtraW.
Import JsNum ReqNum StrOps ReqNumOps ReqNumFacts.

Lemma indentNumber_child_witness :
  getParentNumber (indentNumber "1.2") = "1.2"%string /\ isChildOf (indentNumber "1.2") "1.2" = true /\
  getDepth (indentNumber "1.2") = S (getDepth "1.2").
Proof. apply (indentNumber_child "1.2"). discriminate. Defined.

Lemma getParentNumber_valid_witness :
  (getDepth "1.2.3" = O -> getParentNumber "1.2.3" = EmptyString) /\
  ((1 <= getDepth "1.2.3")%nat ->
   let q := getParentNumber "1.2.3" in
   q <> EmptyString /\ isValidRequirementNumber q = true /\
   isChildOf "1.2.3" q = true /\ S (getDepth q) = getDepth "1.2.3").
Proof. apply (getParentNumber_valid "1.2.3"); [vm_compute; reflexivity | discriminate]. Defined.

Lemma isChildOf_strict_witness :
  isChildOf "1.2.3" "1" = true /\ (getDepth "1.2" < getDepth "1.2.3")%nat.
Proof.
  destruct (isChildOf_strict "1.2.3" "1.2" "1") as [_ [T D]]. split.
  - apply T; vm_compute; reflexivity.
  - apply D; vm_compute; reflexivity.
Defined.

Lemma suggestNextNumber_valid_witness :
  let n := join_dot (["1"%string; "2"%string] ++ [decimal (segment_value "9" + 1)]) in
  suggestNextNumber (join_dot (["1"%string; "2"%string] ++ ["9"%string])) = n /\
  isValidRequirementNumber n = true /\
  getDepth n = getDepth (join_dot (["1"%string; "2"%string] ++ ["9"%string])).
Proof.
  apply (proj2 suggestNextNumber_valid).
  - vm_compute; reflexivity.
  - apply Z.leb_le; vm_compute; reflexivity.
Defined.

Lemma parseSegments_spec_witness :
  (parseSegments "1.2" = map of_Z (segments "1.2") /\ length (parseSegments "1.2") = S (getDepth "1.2")) /\
  parseSegments "1..2" = [].
Proof.
  split.
  - apply (proj1 (parseSegments_spec "1.2")); [vm_compute; reflexivity | discriminate].
  - apply (proj2 (parseSegments_spec "1..2")); left; vm_compute; reflexivity.
Defined.

End ReqNumExtraW.

Module DeleteInfoW.
Import Comparison ComparisonView ComparisonOps DeleteInfo.

Lemma getRequirementDeleteInfo_companies_witness :
  let row m req s c := {| row_id := m; row_matrixId := m; row_requirementNumber := "1";
                          row_requirements := req; row_experienceAndCapability := s;
                          row_pastPerformance := ""; row_comments := c; row_rowOrder := 0 |} in
  let mat m rs := {| m_id := m; m_name := m; m_isImported := false; m_sourceFile := None;
                     m_parentMatrixId := None; m_createdAt := ""; m_updatedAt := ""; m_rows := rs |} in
  let ms := [mat "a" [row "a" "Cloud hosting" (Some 2) ""];
             mat "b" [row "b" " cloud HOSTING " None "  "];
             mat "c" [row "c" "Cloud hosting" None "see notes"]]%string in
  rdi_companiesWithData (getRequirementDeleteInfo (buildComparisonData ms) "CLOUD HOSTING") =
    [{| cw_matrixId := "a"; cw_matrixName := "a"; cw_score := Some 2;
        cw_hasComments := false; cw_hasPastPerformance := false |};
     {| cw_matrixId := "c"; cw_matrixName := "c"; cw_score := None;
        cw_hasComments := true; cw_hasPastPerformance := false |}]%string.
Proof.
  intros row mat ms.
  destruct (getRequirementDeleteInfo_companies ms "CLOUD HOSTING") as [_ E].
  - vm_compute. repeat constructor; simpl; intuition discriminate.
  - rewrite E. vm_compute. reflexivity.
Defined.

End DeleteInfoW.

Module LedgerExtraW.
Import Ledger LedgerOps LedgerExtra.

Lemma setSetting_getSetting_witness :
  let s := [("theme", Some "light"); ("activeMatrixId", None)]%string in
  getSetting "theme" (setSetting "theme" (Some "dark"%string) s) = Some "dark"%string /\
  NoDup (map fst (setSetting "theme" (Some "dark"%string) s)).
Proof.
  intros s. destruct (setSetting_getSetting "theme" "theme" (Some "dark"%string) s) as [G N]. split.
  - rewrite G. reflexivity.
  - apply N. vm_compute. repeat constructor; simpl; intuition discriminate.
Defined.

Lemma countMatrices_createMatrix_witness :
  let m id imp := {| mt_id := id; mt_name := id; mt_is_imported := imp; mt_source_file := None;
                     mt_parent_matrix_id := None; mt_created_at := ""; mt_updated_at := "" |} in
  let st := {| matrices := [m "a" 0; m "b" 1; m "c" 1]%string; matrix_rows := [] |} in
  total (countMatrices st) = user (countMatrices st) + imported (countMatrices st).
Proof.
  intros m st. apply (proj1 (countMatrices_createMatrix "d" "t" {| cmi_name := "D"; cmi_isImported := None;
    cmi_sourceFile := None; cmi_parentMatrixId := None |} st)).
  vm_compute. reflexivity.
Defined.


Lemma updateMatrixRow_spec_witness :
  let r := {| db_id := "r1"; db_matrix_id := "m1"; db_requirement_number := "1"; db_requirements := "Cloud";
              db_experience_and_capability := None; db_past_performance := ""; db_comments := "";
              db_row_order := 0 |}%string in
  let st := {| matrices := []; matrix_rows := [r] |} in
  let none := {| uri_requirementNumber := None; uri_requirements := None; uri_experienceAndCapability := None;
                 uri_pastPerformance := None; uri_comments := None; uri_rowOrder := None |} in
  let score := {| uri_requirementNumber := None; uri_requirements := None;
                  uri_experienceAndCapability := Some (Some 3); uri_pastPerformance := None;
                  uri_comments := None; uri_rowOrder := None |} in
  updateMatrixRow "t" "r1" none st = st /\
  map (fun r => row_experienceAndCapability (mapMatrixRowRow r))
      (matrix_rows (updateMatrixRow "t" "r1" score st)) = [Some 3].
Proof.
  intros r st none score. split.
  - apply (proj1 (updateMatrixRow_spec "t" "r1" none st)). reflexivity.
  - destruct (updateMatrixRow_spec "t" "r1" score st) as [_ [I _]].
    destruct (updateMatrixRow_spec "t" "r1" score st) as [_ [_ [_ [_ S]]]].
    assert (Hl : exists r', matrix_rows (updateMatrixRow "t" "r1" score st) = [r']).
    { destruct (matrix_rows (updateMatrixRow "t" "r1" score st)) as [|a [|b l]];
        [discriminate I | exists a; reflexivity | discriminate I]. }
    destruct Hl as [r' Hr']. rewrite Hr' in *. cbn [map].
    rewrite (S (Some 3) eq_refl); [reflexivity | | left; reflexivity |].
    + intros z Hz. injection Hz as <-. lia.
    + injection I as I. exact I.
Defined.

End LedgerExtraW.

Module ImporterExtraW.
Import Importer ImporterOps StrOps ImporterExtra2.

Lemma getFilenameFromPath_spec_witness :
  getFilenameFromPath "report.xlsx" = "report.xlsx"%string /\
  getFilenameFromPath "C:\Users\bd\Acme Corp.xlsx" = "Acme Corp.xlsx"%string.
Proof.
  split.
  - apply (proj1 (getFilenameFromPath_spec "report.xlsx"%string)). vm_compute. reflexivity.
  - rewrite (proj2 (getFilenameFromPath_spec "C:\Users\bd\Acme Corp.xlsx"%string) "C:\Users\bd"%string "\"%char
               "Acme Corp.xlsx"%string); [reflexivity | reflexivity | vm_compute; reflexivity | vm_compute; reflexivity].
Defined.

Lemma strip_excel_ext_base_witness : strip_excel_ext ("Acme Corp" +++ ".XLSX") = "Acme Corp"%string.
Proof. apply strip_excel_ext_base. left. vm_compute. reflexivity. Defined.

End ImporterExtraW.

Module ExporterExtraW.
Import ExporterOps StrOps ExporterExtra.

Lemma generateExportFilename_name_witness :
  export_name "Acme-Corp2" = "Acme-Corp2"%string /\
  generateExportFilename "Acme-Corp2" "2024-01-31" = "Capability_Matrix_Acme-Corp2_2024-01-31.xlsx"%string.
Proof.
  destruct (generateExportFilename_name "Acme-Corp2"%string "2024-01-31"%string) as [G [_ [_ [_ [_ K]]]]].
  assert (E : export_name "Acme-Corp2" = "Acme-Corp2"%string) by (apply K; vm_compute; reflexivity).
  split; [exact E | rewrite G, E; reflexivity].
Defined.

End ExporterExtraW.

Module HexW.
Import Exporter HexFacts.

Lemma hexToArgb_spec_witness : hexToArgb "1F4E79" = "FF1F4E79"%string.
Proof. apply (proj2 (hexToArgb_spec "1F4E79"%string)). vm_compute. reflexivity. Defined.

End HexW.

Module EmptyRowsW.
Import Ledger LedgerOps EmptyRowsExtra.

Lemma createEmptyRows_spec_witness :
  let ids i := match i with O => "r0" | S O => "r1" | _ => "r2" end%string in
  let st := {| matrices := []; matrix_rows := [] |} in
  match createEmptyRows ids (fun _ => "t"%string) "m1" 3 st with
  | None => False
  | Some (st', rows) => getMatrixRows "m1" st' = rows /\ map row_rowOrder rows = [0; 1; 2]
  end.
Proof.
  intros ids st. pose proof (createEmptyRows_spec ids (fun _ => "t"%string) "m1"%string 3 st) as P.
  destruct (createEmptyRows ids (fun _ => "t"%string) "m1"%string 3 st) as [[st' rows]|] eqn:E.
  - destruct P as [O [_ [_ G]]]. split; [apply G; reflexivity | exact O].
  - vm_compute in E. discriminate.
Defined.

End EmptyRowsW.
